(** * Leaderboard bot: counters, ranking queries, batched writer and TTL/LRU cache

    A shallow embedding of [services/cache.py], [database/manager.py],
    [database/models.py], [services/leaderboard.py] and the rate limiter of
    [utils/decorators.py], with the properties the specification states
    about them and further properties the code shows.

    Conventions of the embedding.
    - Python [int] is [Z]; [Optional[int]] is [option Z].
    - [time.time()] is a float number of seconds; it is read here as an exact
      rational [Q] handed to each operation as the argument [now].  The
      database layer only ever uses [int(time.time())], a [Z].
    - A method that may raise returns a [result]; a method of a mutable
      object returns the object's next state next to its answer, and the
      state is returned as well when the method raises (what Python did to
      the object before the exception stays done). *)

From Stdlib Require Import ZArith QArith Lia List Bool Sorted.
From Stdlib Require Import String Ascii DecimalString.
From Stdlib Require DecimalZ DecimalPos.
From Stdlib Require Import Lqa.
From stdpp Require Import gmap strings.
Import ListNotations.

Local Open Scope string_scope.
Local Open Scope list_scope.
Local Open Scope Z_scope.

(** ** Exceptions and results *)

(** The exception classes the modelled code distinguishes. *)
Inductive exn : Type :=
| StopIteration            (* next() on an exhausted iterator *)
| DatabaseError            (* any sqlite3 / pool error *)
| NotFound                 (* discord.NotFound *)
| HTTPException            (* any other discord.HTTPException *)
| ValueError.              (* int() of a malformed string, a tuple of the wrong size *)

Inductive result (A : Type) : Type :=
| Ok (a : A)
| Raise (e : exn).
Arguments Ok {A} a.
Arguments Raise {A} e.

Definition is_ok {A} (r : result A) : bool :=
  match r with Ok _ => true | Raise _ => false end.

(** ** Stateful code that may raise *)

(** A method of an object with state [S]: its answer or exception, and the
    object afterwards. *)
Definition M (S A : Type) : Type := S -> result A * S.

Definition ret {S A : Type} (a : A) : M S A := fun s => (Ok a, s).

Definition raise {S A : Type} (e : exn) : M S A := fun s => (Raise e, s).

Definition bind {S A B : Type} (m : M S A) (k : A -> M S B) : M S B :=
  fun s =>
    match m s with
    | (Ok a, s') => k a s'
    | (Raise e, s') => (Raise e, s')
    end.

(** [try: m except Exception as e: handler(e)]. *)
Definition try_except {S A : Type} (m : M S A) (handler : exn -> M S A) : M S A :=
  fun s =>
    match m s with
    | (Ok a, s') => (Ok a, s')
    | (Raise e, s') => handler e s'
    end.

(** Reading and changing the object. *)
Definition gets {S A : Type} (f : S -> A) : M S A := fun s => (Ok (f s), s).
Definition modify {S : Type} (f : S -> S) : M S unit := fun s => (Ok tt, f s).

Notation "x <- m ;; k" := (bind m (fun x => k))
  (at level 62, m at next level, right associativity).
Notation "m ;;; k" := (bind m (fun _ => k))
  (at level 62, right associativity).

(** ** services/cache.py *)

Module Cache.

(** [now > bound], on exact seconds. *)
Definition Qgt_bool (a b : Q) : bool := negb (Qle_bool a b).

(** The statistics dictionary [_stats]. *)
Record Stats : Type := mkStats {
  hits : nat;
  misses : nat;
  sets : nat;
  deletes : nat;
  evictions : nat;
  expired_cleanups : nat
}.

Definition stats0 : Stats := mkStats 0 0 0 0 0 0.

Definition add_hits (n : nat) (s : Stats) : Stats :=
  mkStats (hits s + n) (misses s) (sets s) (deletes s) (evictions s) (expired_cleanups s).
Definition add_misses (n : nat) (s : Stats) : Stats :=
  mkStats (hits s) (misses s + n) (sets s) (deletes s) (evictions s) (expired_cleanups s).
Definition add_sets (n : nat) (s : Stats) : Stats :=
  mkStats (hits s) (misses s) (sets s + n) (deletes s) (evictions s) (expired_cleanups s).
Definition add_deletes (n : nat) (s : Stats) : Stats :=
  mkStats (hits s) (misses s) (sets s) (deletes s + n) (evictions s) (expired_cleanups s).
Definition add_evictions (n : nat) (s : Stats) : Stats :=
  mkStats (hits s) (misses s) (sets s) (deletes s) (evictions s + n) (expired_cleanups s).
Definition add_expired_cleanups (n : nat) (s : Stats) : Stats :=
  mkStats (hits s) (misses s) (sets s) (deletes s) (evictions s) (expired_cleanups s + n).

Section WithValue.

(** The cached values ([Any] in the source). *)
Variable V : Type.

(** [@dataclass CacheEntry]. *)
Record CacheEntry : Type := mkEntry {
  value : V;
  created_at : Q;
  ttl : option Q
}.

(** [CacheEntry.is_expired], with the clock reading as an argument. *)
Definition is_expired (now : Q) (e : CacheEntry) : bool :=
  match ttl e with
  | None => false
  | Some t => Qgt_bool now (created_at e + t)
  end.

(** *** The [OrderedDict]

    Keys in insertion order, oldest first; a key occurs once. *)
Definition odict : Type := list (string * CacheEntry).

Definition od_keys (d : odict) : list string := map fst d.

(** [d[key]] / [key in d]. *)
Fixpoint od_get (key : string) (d : odict) : option CacheEntry :=
  match d with
  | [] => None
  | (k, e) :: rest => if String.eqb key k then Some e else od_get key rest
  end.

Definition od_mem (key : string) (d : odict) : bool :=
  match od_get key d with Some _ => true | None => false end.

(** [del d[key]] (for a key that is present). *)
Fixpoint od_del (key : string) (d : odict) : odict :=
  match d with
  | [] => []
  | (k, e) :: rest =>
      if String.eqb key k then od_del key rest else (k, e) :: od_del key rest
  end.

(** [d[key] = e]: in place when the key is present, at the end otherwise. *)
Fixpoint od_setitem (key : string) (e : CacheEntry) (d : odict) : odict :=
  match d with
  | [] => [(key, e)]
  | (k, e') :: rest =>
      if String.eqb key k then (k, e) :: rest else (k, e') :: od_setitem key e rest
  end.

(** [d.move_to_end(key)] (for a key that is present). *)
Definition od_move_to_end (key : string) (d : odict) : odict :=
  match od_get key d with
  | Some e => od_del key d ++ [(key, e)]
  | None => d
  end.

(** A dictionary holds a key once. *)
Definition od_wf (d : odict) : Prop := List.NoDup (od_keys d).

(** [class CacheService]. *)
Record CacheService : Type := mkCache {
  max_size : Z;
  default_ttl : Z;
  _cache : odict;
  _stats : Stats
}.

(** [CacheService.__init__]. *)
Definition init (max_size default_ttl : Z) : CacheService :=
  mkCache max_size default_ttl [] stats0.

Definition with_cache (d : odict) (c : CacheService) : CacheService :=
  mkCache (max_size c) (default_ttl c) d (_stats c).
Definition with_stats (f : Stats -> Stats) (c : CacheService) : CacheService :=
  mkCache (max_size c) (default_ttl c) (_cache c) (f (_stats c)).

(** [len(self._cache)]. *)
Definition len (c : CacheService) : Z := Z.of_nat (length (_cache c)).

(** [CacheService.get]. *)
Definition get (now : Q) (key : string) (c : CacheService)
  : option V * CacheService :=
  match od_get key (_cache c) with
  | None => (None, with_stats (add_misses 1) c)
  | Some entry =>
      if is_expired now entry then
        (None,
         with_stats (add_expired_cleanups 1)
           (with_stats (add_misses 1) (with_cache (od_del key (_cache c)) c)))
      else
        (Some (value entry),
         with_stats (add_hits 1) (with_cache (od_move_to_end key (_cache c)) c))
  end.

(** The loop of [CacheService._evict_if_needed].  The oldest key is the
    first one, and deleting it leaves the rest of the order (see
    [od_del_head]); on an empty dictionary [next(iter(...))] raises. *)
Fixpoint evict_loop (max : Z) (d : odict) (s : Stats)
  : result unit * (odict * Stats) :=
  if Z.of_nat (length d) >? max then
    match d with
    | [] => (Raise StopIteration, ([], s))
    | (oldest_key, _) :: rest => evict_loop max rest (add_evictions 1 s)
    end
  else (Ok tt, (d, s)).

Definition _evict_if_needed (c : CacheService) : result unit * CacheService :=
  let '(r, (d, s)) := evict_loop (max_size c) (_cache c) (_stats c) in
  (r, mkCache (max_size c) (default_ttl c) d s).

(** [CacheService.set]. *)
Definition set (now : Q) (key : string) (v : V) (ttl : option Z)
    (c : CacheService) : result unit * CacheService :=
  let ttl := match ttl with None => default_ttl c | Some t => t end in
  let entry := mkEntry v now (Some (inject_Z ttl)) in
  let d := if od_mem key (_cache c) then od_del key (_cache c) else _cache c in
  let d := od_setitem key entry d in
  match _evict_if_needed (with_cache d c) with
  | (Ok _, c') => (Ok tt, with_stats (add_sets 1) c')
  | (Raise e, c') => (Raise e, c')
  end.

(** The entry [set] stores. *)
Definition stored_entry (c : CacheService) (now : Q) (v : V) (ttl : option Z)
  : CacheEntry :=
  mkEntry v now (Some (inject_Z (match ttl with None => default_ttl c | Some t => t end))).

(** [CacheService.delete]. *)
Definition delete (key : string) (c : CacheService) : bool * CacheService :=
  if od_mem key (_cache c) then
    (true, with_stats (add_deletes 1) (with_cache (od_del key (_cache c)) c))
  else (false, c).

(** [CacheService.clear]. *)
Definition clear (c : CacheService) : CacheService := with_cache [] c.

(** [CacheService.cleanup_expired]; the clock is read once for the whole
    sweep. *)
Definition cleanup_expired (now : Q) (c : CacheService) : nat * CacheService :=
  let expired_keys :=
    map fst (List.filter (fun '(_, entry) => is_expired now entry) (_cache c)) in
  let d := fold_left (fun d key => od_del key d) expired_keys (_cache c) in
  let c := with_cache d c in
  let c :=
    match expired_keys with
    | [] => c
    | _ => with_stats (add_expired_cleanups (length expired_keys)) c
    end in
  (length expired_keys, c).

(** [CacheService.keys]. *)
Definition keys (c : CacheService) : list string := od_keys (_cache c).

(** [CacheService.has_key]. *)
Definition has_key (now : Q) (key : string) (c : CacheService)
  : bool * CacheService :=
  match od_get key (_cache c) with
  | None => (false, c)
  | Some entry =>
      if is_expired now entry then
        (false,
         with_stats (add_expired_cleanups 1) (with_cache (od_del key (_cache c)) c))
      else (true, c)
  end.

(** [CacheService.refresh]: the entry object is updated in place, then moved
    to the end. *)
Definition refresh (now : Q) (key : string) (ttl : option Z)
    (c : CacheService) : bool * CacheService :=
  match od_get key (_cache c) with
  | None => (false, c)
  | Some entry =>
      if is_expired now entry then
        (false,
         with_stats (add_expired_cleanups 1) (with_cache (od_del key (_cache c)) c))
      else
        let ttl := match ttl with None => default_ttl c | Some t => t end in
        let entry' := mkEntry (value entry) now (Some (inject_Z ttl)) in
        let d := od_setitem key entry' (_cache c) in
        (true, with_cache (od_move_to_end key d) c)
  end.

(** A call of one of the public methods, as data, and the method run on a
    cache. *)
Inductive operation : Type :=
| OpGet (now : Q) (key : string)
| OpSet (now : Q) (key : string) (v : V) (ttl : option Z)
| OpDelete (key : string)
| OpClear
| OpRefresh (now : Q) (key : string) (ttl : option Z)
| OpCleanupExpired (now : Q)
| OpHasKey (now : Q) (key : string).

Definition run (o : operation) (c : CacheService) : result unit * CacheService :=
  match o with
  | OpGet now key => (Ok tt, snd (get now key c))
  | OpSet now key v ttl => set now key v ttl c
  | OpDelete key => (Ok tt, snd (delete key c))
  | OpClear => (Ok tt, clear c)
  | OpRefresh now key ttl => (Ok tt, snd (refresh now key ttl c))
  | OpCleanupExpired now => (Ok tt, snd (cleanup_expired now c))
  | OpHasKey now key => (Ok tt, snd (has_key now key c))
  end.

End WithValue.

Arguments mkEntry {V}.
Arguments value {V}.
Arguments created_at {V}.
Arguments ttl {V}.
Arguments mkCache {V}.
Arguments max_size {V}.
Arguments default_ttl {V}.
Arguments _cache {V}.
Arguments _stats {V}.
Arguments is_expired {V}.
Arguments od_keys {V}.
Arguments od_get {V}.
Arguments od_mem {V}.
Arguments od_wf {V}.
Arguments od_del {V}.
Arguments od_setitem {V}.
Arguments od_move_to_end {V}.
Arguments init {V}.
Arguments with_cache {V}.
Arguments with_stats {V}.
Arguments len {V}.
Arguments get {V}.
Arguments evict_loop {V}.
Arguments _evict_if_needed {V}.
Arguments set {V}.
Arguments stored_entry {V}.
Arguments delete {V}.
Arguments clear {V}.
Arguments cleanup_expired {V}.
Arguments keys {V}.
Arguments has_key {V}.
Arguments refresh {V}.
Arguments OpGet {V}.
Arguments OpSet {V}.
Arguments OpDelete {V}.
Arguments OpClear {V}.
Arguments OpRefresh {V}.
Arguments OpCleanupExpired {V}.
Arguments OpHasKey {V}.
Arguments run {V}.

(** A sequence of calls, one after the other (an exception ends the call
    that raises it, the next call finds the cache as that call left it). *)
Definition run_all {V : Type} (os : list (operation V)) (c : CacheService V)
  : CacheService V :=
  fold_left (fun c o => snd (run o c)) os c.

Definition is_get {V : Type} (o : operation V) : bool :=
  match o with
  | OpGet _ _ => true
  | _ => false
  end.

End Cache.

(** ** Decimal rendering of integers *)

(** Python's [str(n)] for an [int]: an optional minus sign and the decimal
    digits, no padding. *)
Definition str_of_int (n : Z) : string := NilZero.string_of_int (Z.to_int n).

(** Whether a character occurs in a string. *)
Fixpoint contains_char (c : ascii) (s : string) : bool :=
  match s with
  | EmptyString => false
  | String a rest => Ascii.eqb a c || contains_char c rest
  end.

(** Python's [int(s)] on the strings [str] produces ([None]: [ValueError]). *)
Definition int_of_str (s : string) : option Z :=
  match NilZero.int_of_string s with
  | Some d => Some (Z.of_int d)
  | None => None
  end.

(** ** database/manager.py: the SQLite tables and statements *)

Module Db.

(** A value bound to a [?] placeholder or read from a column. *)
Inductive value : Type :=
| VNull
| VInt (z : Z)
| VText (s : string).

#[global] Instance value_eq_dec : EqDecision value.
Proof. solve_decision. Defined.

(** A parameter tuple, and a fetched row. *)
Definition tuple : Type := list value.

(** [messages (user_id, guild_id, channel_id, count, last_updated)],
    primary key [(user_id, guild_id)].  Every writer binds Python integers
    to these columns. *)
Record MessageRow : Type := mkMessageRow {
  msg_user_id : Z;
  msg_guild_id : Z;
  msg_channel_id : Z;
  msg_count : Z;
  msg_last_updated : Z
}.

(** [voice (user_id, guild_id, total_time, join_time, last_updated)],
    primary key [(user_id, guild_id)]; [join_time] is [NULL] outside a
    session. *)
Record VoiceRow : Type := mkVoiceRow {
  voice_user_id : Z;
  voice_guild_id : Z;
  voice_total_time : Z;
  voice_join_time : option Z;
  voice_last_updated : Z
}.

(** [user_cache (user_id, username, discriminator, cached_at)]. *)
Record UserCacheRow : Type := mkUserCacheRow {
  uc_username : string;
  uc_discriminator : string;
  uc_cached_at : Z
}.

(** The database file.  [messages] and [voice] keep their rows in rowid
    order (a replaced row gets a fresh rowid, so it moves to the end);
    [settings] and [user_cache] are keyed by their primary key.  The table
    [guild_config] is created but never read or written. *)
Record Database : Type := mkDatabase {
  messages : list MessageRow;
  voice : list VoiceRow;
  settings : gmap string (string * Z);
  user_cache : gmap Z UserCacheRow
}.

Definition empty_db : Database := mkDatabase [] [] ∅ ∅.

Definition with_messages (l : list MessageRow) (d : Database) : Database :=
  mkDatabase l (voice d) (settings d) (user_cache d).
Definition with_voice (l : list VoiceRow) (d : Database) : Database :=
  mkDatabase (messages d) l (settings d) (user_cache d).
Definition with_settings (s : gmap string (string * Z)) (d : Database) : Database :=
  mkDatabase (messages d) (voice d) s (user_cache d).
Definition with_user_cache (u : gmap Z UserCacheRow) (d : Database) : Database :=
  mkDatabase (messages d) (voice d) (settings d) u.

(** The SQL texts of [database/manager.py], one constructor per text. *)
Inductive Query : Type :=
| SQL_increment_message
    (* INSERT OR REPLACE INTO messages (user_id, guild_id, channel_id, count, last_updated)
       VALUES (?, ?, ?, COALESCE((SELECT count FROM messages
                                  WHERE user_id = ? AND guild_id = ?), 0) + 1, ?) *)
| SQL_message_leaderboard_guild
    (* SELECT user_id, count FROM messages WHERE guild_id = ?
       ORDER BY count DESC LIMIT ? *)
| SQL_message_leaderboard_global
    (* SELECT user_id, SUM(count) as total_count FROM messages
       GROUP BY user_id ORDER BY total_count DESC LIMIT ? *)
| SQL_voice_join
    (* INSERT OR REPLACE INTO voice (user_id, guild_id, total_time, join_time, last_updated)
       VALUES (?, ?, COALESCE((SELECT total_time FROM voice
                               WHERE user_id = ? AND guild_id = ?), 0), ?, ?) *)
| SQL_voice_select
    (* SELECT join_time, total_time FROM voice WHERE user_id = ? AND guild_id = ? *)
| SQL_voice_leave
    (* UPDATE voice SET total_time = ?, join_time = NULL, last_updated = ?
       WHERE user_id = ? AND guild_id = ? *)
| SQL_voice_leaderboard_guild
    (* SELECT user_id, CASE WHEN join_time IS NOT NULL
                            THEN total_time + (? - join_time)
                            ELSE total_time END as current_total
       FROM voice WHERE guild_id = ? ORDER BY current_total DESC LIMIT ? *)
| SQL_voice_leaderboard_global
    (* SELECT user_id, SUM(CASE ... END) as current_total
       FROM voice GROUP BY user_id ORDER BY current_total DESC LIMIT ? *)
| SQL_get_setting
    (* SELECT value FROM settings WHERE key = ? *)
| SQL_set_setting
    (* INSERT OR REPLACE INTO settings (key, value, updated_at) VALUES (?, ?, ?) *)
| SQL_cache_user
    (* INSERT OR REPLACE INTO user_cache (user_id, username, discriminator, cached_at)
       VALUES (?, ?, ?, ?) *)
| SQL_get_cached_user
    (* SELECT username, discriminator FROM user_cache WHERE user_id = ? *)
| SQL_delete_user_cache_before
    (* DELETE FROM user_cache WHERE cached_at < ? *)
| SQL_delete_messages
    (* DELETE FROM messages *)
| SQL_delete_voice.
    (* DELETE FROM voice *)

#[global] Instance Query_eq_dec : EqDecision Query.
Proof. solve_decision. Defined.

(** *** Pieces of SQL *)

(** [ORDER BY key DESC]: a stable insertion sort, so rows with equal keys
    keep the order they are scanned in. *)
Fixpoint insert_desc {A : Type} (key : A -> Z) (x : A) (l : list A) : list A :=
  match l with
  | [] => [x]
  | y :: rest =>
      if key y <=? key x then x :: y :: rest
      else y :: insert_desc key x rest
  end.

Fixpoint order_by_desc {A : Type} (key : A -> Z) (l : list A) : list A :=
  match l with
  | [] => []
  | x :: rest => insert_desc key x (order_by_desc key rest)
  end.

(** [LIMIT n]: SQLite puts no upper bound on the rows when [n] is negative. *)
Definition sql_limit {A : Type} (n : Z) (l : list A) : list A :=
  if n <? 0 then l else firstn (Z.to_nat n) l.

(** [GROUP BY user_id] with [SUM(v)]: one [(user_id, sum)] per user.
    SQLite forms the groups by walking the rows in the order of the grouping
    column, so they come out in ascending [user_id]: a row joins the group
    of its user, or opens one at the place its [user_id] has in that
    order. *)
Fixpoint group_add (user : Z) (v : Z) (groups : list (Z * Z)) : list (Z * Z) :=
  match groups with
  | [] => [(user, v)]
  | (u, s) :: rest =>
      if u =? user then (u, s + v) :: rest
      else if user <? u then (user, v) :: groups
      else (u, s) :: group_add user v rest
  end.

Definition group_sum (rows : list (Z * Z)) : list (Z * Z) :=
  fold_left (fun groups '(user, v) => group_add user v groups) rows [].

Definition msg_key_is (user guild : Z) (r : MessageRow) : bool :=
  (msg_user_id r =? user) && (msg_guild_id r =? guild).

Definition voice_key_is (user guild : Z) (r : VoiceRow) : bool :=
  (voice_user_id r =? user) && (voice_guild_id r =? guild).

(** [CASE WHEN join_time IS NOT NULL THEN total_time + (? - join_time)
          ELSE total_time END]. *)
Definition current_total (now : Z) (r : VoiceRow) : Z :=
  match voice_join_time r with
  | Some join_time => voice_total_time r + (now - join_time)
  | None => voice_total_time r
  end.

Definition pair_row (p : Z * Z) : tuple := [VInt (fst p); VInt (snd p)].

Definition opt_int (o : option Z) : value :=
  match o with Some z => VInt z | None => VNull end.

(** *** The statements *)

(** [cursor.execute(query, params)] on the database: the rows the cursor
    then holds and the database after the statement, for the bindings the
    manager's methods make (a Python [int] for an id, a count, a limit or a
    time, a [str] for a key, a value or a name; see [bound_as_written]).
    Every other tuple ends in the last branch: a tuple of another length
    than the placeholders is what [sqlite3] refuses; a [None] or a value of
    another type in a tuple of the right length is a binding SQLite would
    take, which no caller in the program makes and which the tables below,
    with their integer columns, do not describe. *)
Definition exec_sql (query : Query) (params : tuple) (d : Database)
  : result (list tuple * Database) :=
  match query, params with
  | SQL_increment_message,
    [VInt user; VInt guild; VInt channel; VInt user'; VInt guild'; VInt now] =>
      let old :=
        match List.find (msg_key_is user' guild') (messages d) with
        | Some r => msg_count r
        | None => 0
        end in
      let kept := List.filter (fun r => negb (msg_key_is user guild r)) (messages d) in
      Ok ([], with_messages (kept ++ [mkMessageRow user guild channel (old + 1) now]) d)
  | SQL_message_leaderboard_guild, [VInt guild; VInt limit] =>
      let rows := List.filter (fun r => msg_guild_id r =? guild) (messages d) in
      let rows := sql_limit limit (order_by_desc msg_count rows) in
      Ok (map (fun r => [VInt (msg_user_id r); VInt (msg_count r)]) rows, d)
  | SQL_message_leaderboard_global, [VInt limit] =>
      let groups := group_sum (map (fun r => (msg_user_id r, msg_count r)) (messages d)) in
      Ok (map pair_row (sql_limit limit (order_by_desc snd groups)), d)
  | SQL_voice_join,
    [VInt user; VInt guild; VInt user'; VInt guild'; VInt join_time; VInt now] =>
      let total :=
        match List.find (voice_key_is user' guild') (voice d) with
        | Some r => voice_total_time r
        | None => 0
        end in
      let kept := List.filter (fun r => negb (voice_key_is user guild r)) (voice d) in
      Ok ([], with_voice (kept ++ [mkVoiceRow user guild total (Some join_time) now]) d)
  | SQL_voice_select, [VInt user; VInt guild] =>
      let rows := List.filter (voice_key_is user guild) (voice d) in
      Ok (map (fun r => [opt_int (voice_join_time r); VInt (voice_total_time r)]) rows, d)
  | SQL_voice_leave, [VInt total; VInt now; VInt user; VInt guild] =>
      let upd r :=
        if voice_key_is user guild r
        then mkVoiceRow (voice_user_id r) (voice_guild_id r) total None now
        else r in
      Ok ([], with_voice (map upd (voice d)) d)
  | SQL_voice_leaderboard_guild, [VInt now; VInt guild; VInt limit] =>
      let rows := List.filter (fun r => voice_guild_id r =? guild) (voice d) in
      let rows := sql_limit limit (order_by_desc (current_total now) rows) in
      Ok (map (fun r => [VInt (voice_user_id r); VInt (current_total now r)]) rows, d)
  | SQL_voice_leaderboard_global, [VInt now; VInt limit] =>
      let groups :=
        group_sum (map (fun r => (voice_user_id r, current_total now r)) (voice d)) in
      Ok (map pair_row (sql_limit limit (order_by_desc snd groups)), d)
  | SQL_get_setting, [VText key] =>
      match settings d !! key with
      | Some (v, _) => Ok ([[VText v]], d)
      | None => Ok ([], d)
      end
  | SQL_set_setting, [VText key; VText v; VInt now] =>
      Ok ([], with_settings (<[key := (v, now)]> (settings d)) d)
  | SQL_cache_user, [VInt user; VText username; VText discriminator; VInt now] =>
      Ok ([], with_user_cache
                (<[user := mkUserCacheRow username discriminator now]> (user_cache d)) d)
  | SQL_get_cached_user, [VInt user] =>
      match user_cache d !! user with
      | Some r => Ok ([[VText (uc_username r); VText (uc_discriminator r)]], d)
      | None => Ok ([], d)
      end
  | SQL_delete_user_cache_before, [VInt cutoff] =>
      Ok ([], with_user_cache
                (filter (fun kv => uc_cached_at (snd kv) >= cutoff) (user_cache d)) d)
  | SQL_delete_messages, [] => Ok ([], with_messages [] d)
  | SQL_delete_voice, [] => Ok ([], with_voice [] d)
  | _, _ => Raise DatabaseError
  end.

(** [cursor.executemany(query, params_list)]: the statement once per tuple,
    in order.  The first tuple that is refused stops it; what the tuples
    before it wrote stays written on the connection. *)
Fixpoint executemany (query : Query) (params_list : list tuple) : M Database unit :=
  match params_list with
  | [] => ret tt
  | params :: rest =>
      fun d =>
        match exec_sql query params d with
        | Ok (_, d') => executemany query rest d'
        | Raise e => (Raise e, d)
        end
  end.

(** *** The manager *)

(** [@dataclass BatchOperation]. *)
Record BatchOperation : Type := mkBatchOperation {
  query : Query;
  params : list tuple;
  operation_type : string
}.

(** [_operation_stats] (its wall-clock field [total_time] is left out). *)
Record OperationStats : Type := mkOperationStats {
  total_operations : nat;
  batch_operations : nat;
  individual_operations : nat
}.

(** [class DatabaseManager].  [faults] is the environment: for each coming
    use of a pooled connection, whether SQLite or the pool fails there; an
    exhausted list means no more failures. *)
Record DatabaseManager : Type := mkManager {
  db : Database;
  _batch_queue : list BatchOperation;
  _operation_stats : OperationStats;
  faults : list bool
}.

Definition init (d : Database) (faults : list bool) : DatabaseManager :=
  mkManager d [] (mkOperationStats 0 0 0) faults.

Definition with_db (d : Database) (m : DatabaseManager) : DatabaseManager :=
  mkManager d (_batch_queue m) (_operation_stats m) (faults m).
Definition with_queue (q : list BatchOperation) (m : DatabaseManager) : DatabaseManager :=
  mkManager (db m) q (_operation_stats m) (faults m).
Definition with_faults (f : list bool) (m : DatabaseManager) : DatabaseManager :=
  mkManager (db m) (_batch_queue m) (_operation_stats m) f.
Definition count_batch (n : nat) (m : DatabaseManager) : DatabaseManager :=
  let s := _operation_stats m in
  mkManager (db m) (_batch_queue m)
    (mkOperationStats (total_operations s + n) (batch_operations s + n)
       (individual_operations s))
    (faults m).
Definition count_individual (n : nat) (m : DatabaseManager) : DatabaseManager :=
  let s := _operation_stats m in
  mkManager (db m) (_batch_queue m)
    (mkOperationStats (total_operations s + n) (batch_operations s)
       (individual_operations s + n))
    (faults m).

(** Whether the next use of a connection fails, consuming that answer. *)
Definition next_fault : M DatabaseManager bool :=
  fun m =>
    match faults m with
    | [] => (Ok false, m)
    | f :: rest => (Ok f, with_faults rest m)
    end.

(** The dictionary [grouped_ops], keyed by [(op.query, op.operation_type)],
    in insertion order. *)
Definition group_key : Type := Query * string.
Definition grouped : Type := list (group_key * list tuple).


(** [if key not in grouped_ops: grouped_ops[key] = []] then
    [grouped_ops[key].extend(op.params)]. *)
Fixpoint grouped_extend (key : group_key) (ps : list tuple) (g : grouped) : grouped :=
  match g with
  | [] => [(key, [] ++ ps)]
  | (k, ps') :: rest =>
      if bool_decide (key = k) then (k, ps' ++ ps) :: rest
      else (k, ps') :: grouped_extend key ps rest
  end.

Definition group_step (g : grouped) (op : BatchOperation) : grouped :=
  grouped_extend (query op, operation_type op) (params op) g.

Definition group_operations (operations : list BatchOperation) : grouped :=
  fold_left group_step operations [].

(** [for (query, op_type), params_list in grouped_ops.items():
        if params_list: cursor.executemany(query, params_list)]. *)
Fixpoint execute_groups (g : grouped) : M Database unit :=
  match g with
  | [] => ret tt
  | ((query, op_type), params_list) :: rest =>
      match params_list with
      | [] => execute_groups rest
      | _ :: _ =>
          executemany query params_list ;;;
          execute_groups rest
      end
  end.

(** [DatabaseManager._execute_batch_operations].  The fault of the
    environment is a connection that cannot be had: it comes before any
    statement.  [conn.commit()] follows the last group and nothing is
    rolled back: when a statement is refused, the exception leaves the
    method with the writes of the statements before it made on the
    connection; that connection's next commit makes them durable, and
    until then it alone sees them.  The manager here has one database for
    all its connections, in which these writes show at once. *)
Definition _execute_batch_operations (operations : list BatchOperation)
  : M DatabaseManager unit :=
  failed <- next_fault ;;
  if (failed : bool) then raise DatabaseError
  else
    d <- gets db ;;
    let '(r, d') := execute_groups (group_operations operations) d in
    modify (with_db d') ;;;
    match r with
    | Ok _ => modify (count_batch (length operations))
    | Raise e => raise e
    end.

(** [DatabaseManager.queue_batch_operation]. *)
Definition queue_batch_operation (query : Query) (params : list tuple)
    (operation_type : string) : M DatabaseManager unit :=
  modify (fun m =>
    with_queue (_batch_queue m ++ [mkBatchOperation query params operation_type]) m).

(** One turn of the loop of [DatabaseManager._process_batch_operations]:
    [arrived] operations came out of the queue inside the five-second
    window, at most 100 are taken; a failed batch is logged and dropped. *)
Definition _process_batch_operations (arrived : nat) : M DatabaseManager unit :=
  q <- gets _batch_queue ;;
  let n := Nat.min arrived 100 in
  let operations := firstn n q in
  modify (with_queue (skipn n q)) ;;;
  match operations with
  | [] => ret tt
  | _ :: _ =>
      try_except (_execute_batch_operations operations) (fun _ => ret tt)
  end.

(** What [execute_query] returns: [None], [cursor.fetchone()] or
    [cursor.fetchall()]. *)
Inductive fetched : Type :=
| NoFetch
| FetchOne (row : option tuple)
| FetchAll (rows : list tuple).

(** [DatabaseManager.execute_query]: the error is logged and raised again. *)
Definition execute_query (query : Query) (params : tuple)
    (fetch_one fetch_all : bool) : M DatabaseManager fetched :=
  failed <- next_fault ;;
  if (failed : bool) then raise DatabaseError
  else
    d <- gets db ;;
    match exec_sql query params d with
    | Ok (rows, d') =>
        let result :=
          if fetch_one then FetchOne (head rows)
          else if fetch_all then FetchAll rows
          else NoFetch in
        modify (with_db d') ;;;
        modify (count_individual 1) ;;;
        ret result
    | Raise e => raise e
    end.

(** The tuple [increment_message_count] binds; [now] is [int(time.time())]. *)
Definition increment_params (user_id guild_id channel_id now : Z) : tuple :=
  [VInt user_id; VInt guild_id; VInt channel_id; VInt user_id; VInt guild_id; VInt now].

(** [DatabaseManager.increment_message_count]. *)
Definition increment_message_count (user_id guild_id channel_id now : Z)
  : M DatabaseManager unit :=
  queue_batch_operation SQL_increment_message
    [increment_params user_id guild_id channel_id now]
    "update".

(** [if guild_id:] for an [Optional[int]]. *)
Definition guild_given (guild_id : option Z) : option Z :=
  match guild_id with
  | Some g => if g =? 0 then None else Some g
  | None => None
  end.

(** [execute_query(..., fetch_all=True) or []]. *)
Definition rows_or_empty (r : fetched) : list tuple :=
  match r with
  | FetchAll rows => rows
  | _ => []
  end.

(** [DatabaseManager.get_message_leaderboard]. *)
Definition get_message_leaderboard (guild_id : option Z) (limit : Z)
  : M DatabaseManager (list tuple) :=
  let '(query, params) :=
    match guild_given guild_id with
    | Some g => (SQL_message_leaderboard_guild, [VInt g; VInt limit])
    | None => (SQL_message_leaderboard_global, [VInt limit])
    end in
  r <- execute_query query params false true ;;
  ret (rows_or_empty r).

(** [DatabaseManager.update_voice_join]; the clock is read twice. *)
Definition update_voice_join (user_id guild_id now now' : Z)
  : M DatabaseManager unit :=
  queue_batch_operation SQL_voice_join
    [[VInt user_id; VInt guild_id; VInt user_id; VInt guild_id; VInt now; VInt now']]
    "update".

(** [DatabaseManager.update_voice_leave]. *)
Definition update_voice_leave (user_id guild_id current_time : Z)
  : M DatabaseManager unit :=
  result <- execute_query SQL_voice_select [VInt user_id; VInt guild_id] true false ;;
  match result with
  | FetchOne (Some [VInt join_time; VInt total_time]) =>
      if join_time =? 0 then ret tt
      else
        let session_time := current_time - join_time in
        let new_total_time := total_time + session_time in
        queue_batch_operation SQL_voice_leave
          [[VInt new_total_time; VInt current_time; VInt user_id; VInt guild_id]]
          "update"
  | _ => ret tt
  end.

(** [DatabaseManager.get_voice_leaderboard]. *)
Definition get_voice_leaderboard (guild_id : option Z) (limit : Z) (current_time : Z)
  : M DatabaseManager (list tuple) :=
  let '(query, params) :=
    match guild_given guild_id with
    | Some g => (SQL_voice_leaderboard_guild, [VInt current_time; VInt g; VInt limit])
    | None => (SQL_voice_leaderboard_global, [VInt current_time; VInt limit])
    end in
  r <- execute_query query params false true ;;
  ret (rows_or_empty r).

(** [DatabaseManager.get_setting]. *)
Definition get_setting (key : string) : M DatabaseManager (option string) :=
  result <- execute_query SQL_get_setting [VText key] true false ;;
  match result with
  | FetchOne (Some (VText v :: _)) => ret (Some v)
  | _ => ret None
  end.


(** [DatabaseManager.get_cached_user]. *)
Definition get_cached_user (user_id : Z)
  : M DatabaseManager (option (string * string)) :=
  result <- execute_query SQL_get_cached_user [VInt user_id] true false ;;
  match result with
  | FetchOne (Some [VText username; VText discriminator]) =>
      ret (Some (username, discriminator))
  | _ => ret None
  end.

(** [DatabaseManager.cache_user]: the class defines it twice, and the later
    definition, which writes at once, is the one in force. *)
Definition cache_user (user_id : Z) (username discriminator : string) (now : Z)
  : M DatabaseManager unit :=
  execute_query SQL_cache_user
    [VInt user_id; VText username; VText discriminator; VInt now] false false ;;;
  ret tt.

(** [DatabaseManager.cleanup_old_data] (the later of its two definitions). *)
Definition cleanup_old_data (now : Z) : M DatabaseManager unit :=
  try_except
    (let cutoff_time := now - 30 * 24 * 3600 in
     execute_query SQL_delete_user_cache_before [VInt cutoff_time] false false ;;;
     ret tt)
    (fun _ => ret tt).

(** [DatabaseManager.reset_leaderboard_data]: four statements, each one
    committed by its own [execute_query]; an error is logged and raised
    again. *)
Definition reset_leaderboard_data (current_time : Z) : M DatabaseManager unit :=
  execute_query SQL_delete_messages [] false false ;;;
  execute_query SQL_delete_voice [] false false ;;;
  let old_cache_cutoff := current_time - 7 * 24 * 3600 in
  execute_query SQL_delete_user_cache_before [VInt old_cache_cutoff] false false ;;;
  execute_query SQL_set_setting
    [VText "last_leaderboard_reset"; VText (str_of_int current_time); VInt current_time]
    false false ;;;
  ret tt.

(** [DatabaseManager.should_reset_leaderboard]; the division by the seconds
    of a day is exact here. *)
Definition should_reset_leaderboard (refresh_days : Z) (current_time : Z)
  : M DatabaseManager bool :=
  try_except
    (last_reset <- get_setting "last_leaderboard_reset" ;;
     match last_reset with
     | None => ret true
     | Some "" => ret true
     | Some s =>
         match int_of_str s with
         | None => raise ValueError
         | Some last_reset_time =>
             let days_since_reset :=
               Qmake (current_time - last_reset_time) 86400%positive in
             ret (Qle_bool (inject_Z refresh_days) days_since_reset)
         end
     end)
    (fun _ => ret false).

(** How the batch task takes [self._batch_task.cancel()].  It ends where
    it waits, and the operations it has taken out of the queue since its
    last batch, [held] of them, go with its local list [operations]; or the
    [wait_for] it waits in already has an operation for it when the
    cancellation arrives, keeps it, and the task goes on. *)
Inductive cancellation : Type :=
| TaskEnds (held : nat)
| TaskGoesOn.

(** [DatabaseManager.close]: the batch task is cancelled and awaited; what
    is then still in the queue is executed in one batch; an error is
    logged.  [_batch_queue] holds the operations that no batch has executed
    yet, with those the task has taken at its front ([held] of them, at
    most the 100 of a full batch): they are not in the queue that [close]
    empties.  [None]: [await self._batch_task] does not return, because
    the task has not ended. *)
Definition close (c : cancellation) (m : DatabaseManager)
  : option (result unit * DatabaseManager) :=
  match c with
  | TaskGoesOn => None
  | TaskEnds held =>
      Some (try_except
              (q <- gets _batch_queue ;;
               let remaining_ops := skipn (Nat.min held 100) q in
               modify (with_queue []) ;;;
               match remaining_ops with
               | [] => ret tt
               | _ :: _ => _execute_batch_operations remaining_ops
               end)
              (fun _ => ret tt)
              m)
  end.

(** *** What the properties observe *)





(** The bindings the manager's methods make for each statement: integers
    and strings where the signatures of the methods say [int] and [str]. *)
Definition bound_as_written (query : Query) (params : tuple) : bool :=
  match query, params with
  | SQL_increment_message, [VInt _; VInt _; VInt _; VInt _; VInt _; VInt _]
  | SQL_message_leaderboard_guild, [VInt _; VInt _]
  | SQL_message_leaderboard_global, [VInt _]
  | SQL_voice_join, [VInt _; VInt _; VInt _; VInt _; VInt _; VInt _]
  | SQL_voice_select, [VInt _; VInt _]
  | SQL_voice_leave, [VInt _; VInt _; VInt _; VInt _]
  | SQL_voice_leaderboard_guild, [VInt _; VInt _; VInt _]
  | SQL_voice_leaderboard_global, [VInt _; VInt _]
  | SQL_get_setting, [VText _]
  | SQL_set_setting, [VText _; VText _; VInt _]
  | SQL_cache_user, [VInt _; VText _; VText _; VInt _]
  | SQL_get_cached_user, [VInt _]
  | SQL_delete_user_cache_before, [VInt _]
  | SQL_delete_messages, []
  | SQL_delete_voice, [] => true
  | _, _ => false
  end.

(** The stored message count of a user in a guild,
    [COALESCE((SELECT count FROM messages WHERE user_id = ? AND guild_id = ?), 0)]. *)
Definition stored_count (user guild : Z) (d : Database) : Z :=
  match List.find (msg_key_is user guild) (messages d) with
  | Some r => msg_count r
  | None => 0
  end.

(** The voice row of a user in a guild. *)
Definition voice_row (user guild : Z) (d : Database) : option VoiceRow :=
  List.find (voice_key_is user guild) (voice d).

(** [COALESCE((SELECT total_time FROM voice WHERE user_id = ? AND guild_id = ?), 0)]. *)
Definition stored_total (user guild : Z) (d : Database) : Z :=
  match voice_row user guild d with
  | Some r => voice_total_time r
  | None => 0
  end.

(** The rows a leaderboard query ranks, as [(user_id, value)] pairs in the
    order the statement meets them: the rows of the guild in table order,
    or one row per user with the sum over the guilds, in ascending
    [user_id]. *)
Definition message_candidates (guild_id : option Z) (d : Database) : list (Z * Z) :=
  match guild_given guild_id with
  | Some g =>
      map (fun r => (msg_user_id r, msg_count r))
        (List.filter (fun r => msg_guild_id r =? g) (messages d))
  | None => group_sum (map (fun r => (msg_user_id r, msg_count r)) (messages d))
  end.

Definition voice_candidates (guild_id : option Z) (now : Z) (d : Database)
  : list (Z * Z) :=
  match guild_given guild_id with
  | Some g =>
      map (fun r => (voice_user_id r, current_total now r))
        (List.filter (fun r => voice_guild_id r =? g) (voice d))
  | None => group_sum (map (fun r => (voice_user_id r, current_total now r)) (voice d))
  end.

(** [ranked] is the top [K] of [candidates]: it is the first [K] rows (or
    all of them, when there are fewer) of a rearrangement of the candidates
    that descends in the value and keeps rows of equal value in the order
    of the candidates. *)
Definition top_k_of (K : nat) (candidates ranked : list (Z * Z)) : Prop :=
  exists rest,
    ranked ++ rest ≡ₚ candidates /\
    StronglySorted (fun a b => snd b <= snd a) (ranked ++ rest) /\
    (forall v,
        List.filter (fun p => snd p =? v) (ranked ++ rest) =
        List.filter (fun p => snd p =? v) candidates) /\
    length ranked = Nat.min K (length candidates).

(** What happens to a manager over time: a message is counted, or the
    batch task takes its next turn. *)
Inductive event : Type :=
| Inc (user_id guild_id channel_id now : Z)
| Flush (arrived : nat).

Definition step (m : DatabaseManager) (e : event) : DatabaseManager :=
  match e with
  | Inc user_id guild_id channel_id now =>
      snd (increment_message_count user_id guild_id channel_id now m)
  | Flush arrived => snd (_process_batch_operations arrived m)
  end.

Definition run_events (es : list event) (m : DatabaseManager) : DatabaseManager :=
  fold_left step es m.

(** How often [increment_message_count] is called for a user in a guild. *)
Definition is_inc_of (user guild : Z) (e : event) : bool :=
  match e with
  | Inc u g _ _ => (u =? user) && (g =? guild)
  | Flush _ => false
  end.

Definition increments_of (user guild : Z) (es : list event) : nat :=
  length (List.filter (is_inc_of user guild) es).

(** The increments of a user in a guild that wait in the queue. *)
Definition is_increment_tuple (user guild : Z) (p : tuple) : bool :=
  match p with
  | VInt u :: VInt g :: _ => (u =? user) && (g =? guild)
  | _ => false
  end.

(** A queued increment, and a queue of nothing but increments. *)
Definition inc_op (i : Z * Z * Z * Z) : BatchOperation :=
  let '(user_id, guild_id, channel_id, now) := i in
  mkBatchOperation SQL_increment_message
    [increment_params user_id guild_id channel_id now] "update".

Definition is_inc_tuple_of (user guild : Z) (i : Z * Z * Z * Z) : bool :=
  let '(user_id, guild_id, _, _) := i in
  (user_id =? user) && (guild_id =? guild).

Definition pending (user guild : Z) (q : list BatchOperation) : nat :=
  length
    (List.filter (is_increment_tuple user guild)
       (concat (map params
                  (List.filter
                     (fun op => bool_decide (query op = SQL_increment_message)) q)))).

(** A manager on which nothing fails and whose queue holds increments only. *)
Definition counting (m : DatabaseManager) : Prop :=
  faults m = [] /\ exists l, _batch_queue m = map inc_op l.

(** Stored and still queued, together. *)
Definition counted (user guild : Z) (m : DatabaseManager) : Z :=
  stored_count user guild (db m) + Z.of_nat (pending user guild (_batch_queue m)).

(** At most one row for a primary key [(user_id, guild_id)], in [messages]
    and in [voice]. *)
Definition keys_unique (d : Database) : Prop :=
  List.NoDup (map (fun r => (msg_user_id r, msg_guild_id r)) (messages d)) /\
  List.NoDup (map (fun r => (voice_user_id r, voice_guild_id r)) (voice d)).

(** The sum of the values of a user's rows, and the value a grouped result
    holds for a user (0 when it holds none). *)
Definition sum_for (user : Z) (rows : list (Z * Z)) : Z :=
  fold_right Z.add 0 (map snd (List.filter (fun p => fst p =? user) rows)).

Definition total_of (user : Z) (groups : list (Z * Z)) : Z :=
  match List.find (fun p => fst p =? user) groups with
  | Some p => snd p
  | None => 0
  end.

End Db.

(** ** database/models.py *)

Module Models.

(** [@dataclass UserVoiceStats]; [last_updated] is kept as the timestamp it
    is built from. *)
Record UserVoiceStats : Type := mkUserVoiceStats {
  user_id : Z;
  guild_id : Z;
  total_time : Z;
  join_time : option Z;
  last_updated : Z
}.

(** [UserVoiceStats.from_db_row]. *)
Definition from_db_row (row : Db.VoiceRow) : UserVoiceStats :=
  mkUserVoiceStats (Db.voice_user_id row) (Db.voice_guild_id row)
    (Db.voice_total_time row) (Db.voice_join_time row) (Db.voice_last_updated row).

(** [UserVoiceStats.is_in_voice]. *)
Definition is_in_voice (s : UserVoiceStats) : bool :=
  match join_time s with Some _ => true | None => false end.

(** [UserVoiceStats.current_session_time]; [now] is
    [int(datetime.now().timestamp())]. *)
Definition current_session_time (now : Z) (s : UserVoiceStats) : Z :=
  if negb (is_in_voice s) then 0
  else match join_time s with
       | Some j => now - j
       | None => 0
       end.

(** [UserVoiceStats.total_time_including_current]. *)
Definition total_time_including_current (now : Z) (s : UserVoiceStats) : Z :=
  total_time s + current_session_time now s.

(** The [,] format option of [f"{count:,}"]: a comma before every group of
    three digits, counted from the right. *)
Fixpoint commas_rev (digits_rev : list ascii) : list ascii :=
  match digits_rev with
  | a :: b :: c :: ((_ :: _) as rest) =>
      a :: b :: c :: ","%char :: commas_rev rest
  | _ => digits_rev
  end.

Definition format_thousands (n : Z) : string :=
  let body :=
    string_of_list_ascii
      (rev (commas_rev (rev (list_ascii_of_string (str_of_int (Z.abs n)))))) in
  if n <? 0 then "-" +:+ body else body.

(** A rendered number with its thousands separators taken out. *)
Definition without_commas (s : string) : string :=
  string_of_list_ascii
    (List.filter (fun c => negb (Ascii.eqb c ","%char)) (list_ascii_of_string s)).

(** [@dataclass LeaderboardEntry]. *)
Record LeaderboardEntry : Type := mkLeaderboardEntry {
  position : Z;
  entry_user_id : Z;
  username : string;
  value : Z;
  formatted_value : string
}.

(** [LeaderboardEntry.create_message_entry]. *)
Definition create_message_entry (position user_id : Z) (username : string) (count : Z)
  : LeaderboardEntry :=
  mkLeaderboardEntry position user_id username count
    (format_thousands count +:+ " messages").

(** [LeaderboardEntry.create_voice_entry]. *)
Definition create_voice_entry (position user_id : Z) (username : string)
    (total_seconds : Z) : LeaderboardEntry :=
  let hours := total_seconds / 3600 in
  let minutes := (total_seconds mod 3600) / 60 in
  let formatted :=
    if hours >? 0 then str_of_int hours +:+ "h " +:+ str_of_int minutes +:+ "m"
    else str_of_int minutes +:+ "m" in
  mkLeaderboardEntry position user_id username total_seconds formatted.

End Models.

(** ** services/leaderboard.py *)

Module Service.

Import Models.

(** What the service reads of a [discord.User] / [discord.Member]. *)
Record User : Type := mkUser {
  global_name : option string;
  display_name : string;
  name : string;
  discriminator : string
}.

(** The live directory: the client's user cache ([get_user]), the API call
    ([fetch_user], which raises [NotFound] or another HTTP error), and the
    member lookup of each guild the bot is in. *)
Record Bot : Type := mkBot {
  get_user : Z -> option User;
  fetch_user : Z -> result User;
  guilds : list (Z -> result (option User))
}.

(** The fields of [Config] the service reads. *)
Record Config : Type := mkConfig {
  ENABLE_MESSAGE_TRACKING : bool;
  LEADERBOARD_SIZE : Z;
  LEADERBOARD_REFRESH_DAYS : Z;
  RATE_LIMIT_MESSAGES : Z;
  RATE_LIMIT_WINDOW : Z
}.

(** [_metrics]. *)
Record Metrics : Type := mkMetrics {
  messages_tracked : nat;
  voice_updates : nat;
  leaderboard_updates : nat;
  cache_hits : nat;
  cache_misses : nat
}.

(** [class LeaderboardService]. *)
Record LeaderboardService : Type := mkService {
  db_manager : Db.DatabaseManager;
  cache_service : Cache.CacheService (list LeaderboardEntry);
  config : Config;
  _rate_limit_tracker : gmap string (list Q);
  _metrics : Metrics;
  bot : option Bot
}.

Definition with_db_manager (m : Db.DatabaseManager) (s : LeaderboardService) :=
  mkService m (cache_service s) (config s) (_rate_limit_tracker s) (_metrics s) (bot s).
Definition with_cache_service (c : Cache.CacheService (list LeaderboardEntry))
    (s : LeaderboardService) :=
  mkService (db_manager s) c (config s) (_rate_limit_tracker s) (_metrics s) (bot s).
Definition with_tracker (t : gmap string (list Q)) (s : LeaderboardService) :=
  mkService (db_manager s) (cache_service s) (config s) t (_metrics s) (bot s).
Definition with_metrics (f : Metrics -> Metrics) (s : LeaderboardService) :=
  mkService (db_manager s) (cache_service s) (config s) (_rate_limit_tracker s)
    (f (_metrics s)) (bot s).

Definition count_tracked (m : Metrics) : Metrics :=
  mkMetrics (messages_tracked m + 1) (voice_updates m) (leaderboard_updates m)
    (cache_hits m) (cache_misses m).
Definition count_hit (m : Metrics) : Metrics :=
  mkMetrics (messages_tracked m) (voice_updates m) (leaderboard_updates m)
    (cache_hits m + 1) (cache_misses m).
Definition count_miss (m : Metrics) : Metrics :=
  mkMetrics (messages_tracked m) (voice_updates m) (leaderboard_updates m)
    (cache_hits m) (cache_misses m + 1).

(** A call into [self.db_manager]. *)
Definition on_db {A : Type} (m : M Db.DatabaseManager A) : M LeaderboardService A :=
  fun s =>
    let '(r, d) := m (db_manager s) in
    (r, with_db_manager d s).

(** A call into [self.cache_service]. *)
Definition on_cache {A : Type}
    (f : Cache.CacheService (list LeaderboardEntry)
         -> A * Cache.CacheService (list LeaderboardEntry))
  : M LeaderboardService A :=
  fun s =>
    let '(a, c) := f (cache_service s) in
    (Ok a, with_cache_service c s).

(** [int(time.time())]. *)
Definition int_of_time (now : Q) : Z := Z.quot (Qnum now) (Zpos (Qden now)).

(** [a or b] on strings. *)
Definition or_str (a b : string) : string :=
  if String.eqb a "" then b else a.

(** [user.global_name or user.display_name or user.name]. *)
Definition best_name (u : User) : string :=
  match global_name u with
  | Some g => or_str g (or_str (display_name u) (name u))
  | None => or_str (display_name u) (name u)
  end.

(** [LeaderboardService._cache_user_if_needed]. *)
Definition _cache_user_if_needed (user_id : Z) (now : Q) : M LeaderboardService unit :=
  try_except
    (cached <- on_db (Db.get_cached_user user_id) ;;
     b <- gets bot ;;
     match cached, b with
     | None, Some b =>
         match get_user b user_id with
         | Some user =>
             on_db (Db.cache_user user_id
                      (or_str (display_name user) (name user))
                      (if String.eqb (discriminator user) "0" then ""
                       else discriminator user)
                      (int_of_time now))
         | None => ret tt
         end
     | _, _ => ret tt
     end)
    (fun _ => ret tt).

(** The loop over [self.bot.guilds] in [_get_username]: the first guild that
    knows the member answers; a guild whose lookup raises is skipped. *)
Fixpoint lookup_in_guilds (gs : list (Z -> result (option User))) (user_id : Z)
    (now : Q) : M LeaderboardService (option string) :=
  match gs with
  | [] => ret None
  | guild :: rest =>
      match guild user_id with
      | Ok (Some member) =>
          _cache_user_if_needed user_id now ;;;
          ret (Some (best_name member))
      | Ok None => lookup_in_guilds rest user_id now
      | Raise _ => lookup_in_guilds rest user_id now
      end
  end.

(** The live part of [_get_username]: [Some name] where the source returns
    from inside [if self.bot:], [None] where it falls through. *)
Definition lookup_live (user_id : Z) (now : Q) : M LeaderboardService (option string) :=
  b <- gets bot ;;
  match b with
  | None => ret None
  | Some b =>
      match get_user b user_id with
      | Some user =>
          _cache_user_if_needed user_id now ;;;
          ret (Some (best_name user))
      | None =>
          fetched <-
            match fetch_user b user_id with
            | Ok user =>
                _cache_user_if_needed user_id now ;;;
                ret (Some (best_name user))
            | Raise NotFound => ret None
            | Raise e => raise e
            end ;;
          match fetched with
          | Some n => ret (Some n)
          | None => lookup_in_guilds (guilds b) user_id now
          end
      end
  end.

(** [LeaderboardService._get_username]. *)
Definition _get_username (user_id : Z) (now : Q) : M LeaderboardService string :=
  try_except
    (live <- lookup_live user_id now ;;
     match live with
     | Some n => ret n
     | None =>
         cached_user <- on_db (Db.get_cached_user user_id) ;;
         match cached_user with
         | Some (username, discriminator) =>
             if negb (String.eqb username "")
                && negb (String.eqb username ("User " +:+ str_of_int user_id))
             then
               if negb (String.eqb discriminator "")
                  && negb (String.eqb discriminator "0")
               then ret (username +:+ "#" +:+ discriminator)
               else ret username
             else ret "Unknown User"
         | None => ret "Unknown User"
         end
     end)
    (fun _ => ret "Unknown User").

(** [LeaderboardService._check_rate_limit]. *)
Definition _check_rate_limit (user_id : Z) (operation_type : string) (now : Q)
  : M LeaderboardService bool :=
  cfg <- gets config ;;
  tracker <- gets _rate_limit_tracker ;;
  let key := str_of_int user_id +:+ "_" +:+ operation_type in
  let times := default [] (tracker !! key) in
  let cutoff_time := (now - inject_Z (RATE_LIMIT_WINDOW cfg))%Q in
  let times := List.filter (fun t => Cache.Qgt_bool t cutoff_time) times in
  if Z.of_nat (length times) >=? RATE_LIMIT_MESSAGES cfg then
    modify (with_tracker (<[key := times]> tracker)) ;;;
    ret false
  else
    modify (with_tracker (<[key := times ++ [now]]> tracker)) ;;;
    ret true.

(** The keys [track_message] invalidates. *)
Definition track_message_cache_keys (user_id guild_id : Z) : list string :=
  [ "message_leaderboard_" +:+ str_of_int guild_id;
    "message_leaderboard_global";
    "user_message_stats_" +:+ str_of_int user_id +:+ "_" +:+ str_of_int guild_id ].

(** [for key in cache_keys: self.cache_service.delete(key)]. *)
Fixpoint delete_keys (ks : list string) : M LeaderboardService unit :=
  match ks with
  | [] => ret tt
  | key :: rest =>
      on_cache (Cache.delete key) ;;;
      delete_keys rest
  end.

(** [LeaderboardService.track_message]. *)
Definition track_message (user_id guild_id channel_id : Z) (now : Q)
  : M LeaderboardService unit :=
  try_except
    (cfg <- gets config ;;
     if negb (ENABLE_MESSAGE_TRACKING cfg) then ret tt
     else
       allowed <- _check_rate_limit user_id "message" now ;;
       if negb allowed then ret tt
       else
         on_db (Db.increment_message_count user_id guild_id channel_id
                  (int_of_time now)) ;;;
         b <- gets bot ;;
         match b with
         | Some _ => _cache_user_if_needed user_id now
         | None => ret tt
         end ;;;
         delete_keys (track_message_cache_keys user_id guild_id) ;;;
         modify (with_metrics count_tracked))
    (fun _ => ret tt).

(** [f"message_leaderboard_{guild_id or 'global'}_{limit}"]. *)
Definition leaderboard_cache_key (kind : string) (guild_id : option Z) (limit : Z)
  : string :=
  kind +:+ "_leaderboard_"
    +:+ match Db.guild_given guild_id with
        | Some g => str_of_int g
        | None => "global"
        end
    +:+ "_" +:+ str_of_int limit.

(** [for position, (user_id, count) in enumerate(raw_data, 1): ...]. *)
Fixpoint build_entries (create : Z -> Z -> string -> Z -> LeaderboardEntry)
    (position : Z) (raw_data : list Db.tuple) (now : Q)
  : M LeaderboardService (list LeaderboardEntry) :=
  match raw_data with
  | [] => ret []
  | [Db.VInt user_id; Db.VInt count] :: rest =>
      username <- _get_username user_id now ;;
      let entry := create position user_id username count in
      entries <- build_entries create (position + 1) rest now ;;
      ret (entry :: entries)
  | _ :: _ => raise ValueError
  end.

(** The reset check that opens both leaderboard getters. *)
Definition reset_if_due (now : Q) : M LeaderboardService unit :=
  cfg <- gets config ;;
  due <- on_db (Db.should_reset_leaderboard (LEADERBOARD_REFRESH_DAYS cfg)
                  (int_of_time now)) ;;
  if (due : bool) then
    on_db (Db.reset_leaderboard_data (int_of_time now)) ;;;
    modify (fun s => with_cache_service (Cache.clear (cache_service s)) s)
  else ret tt.

(** [self.cache_service.set(cache_key, entries, ttl)]. *)
Definition cache_set (now : Q) (key : string) (entries : list LeaderboardEntry)
    (ttl : option Z) : M LeaderboardService unit :=
  fun s =>
    let '(r, c) := Cache.set now key entries ttl (cache_service s) in
    (r, with_cache_service c s).

(** [LeaderboardService.get_message_leaderboard]. *)
Definition get_message_leaderboard (guild_id : option Z) (limit : option Z) (now : Q)
  : M LeaderboardService (list LeaderboardEntry) :=
  cfg <- gets config ;;
  let limit := match limit with None => LEADERBOARD_SIZE cfg | Some l => l end in
  let limit := Z.min limit 10 in
  reset_if_due now ;;;
  let cache_key := leaderboard_cache_key "message" guild_id limit in
  cached <- on_cache (Cache.get now cache_key) ;;
  match cached with
  | Some ((_ :: _) as entries) =>
      modify (with_metrics count_hit) ;;;
      ret entries
  | _ =>
      modify (with_metrics count_miss) ;;;
      try_except
        (raw_data <- on_db (Db.get_message_leaderboard guild_id limit) ;;
         entries <- build_entries create_message_entry 1 raw_data now ;;
         cache_set now cache_key entries None ;;;
         ret entries)
        (fun _ => ret [])
  end.

(** [LeaderboardService.get_voice_leaderboard]. *)
Definition get_voice_leaderboard (guild_id : option Z) (limit : option Z) (now : Q)
  : M LeaderboardService (list LeaderboardEntry) :=
  cfg <- gets config ;;
  let limit := match limit with None => LEADERBOARD_SIZE cfg | Some l => l end in
  let limit := Z.min limit 10 in
  reset_if_due now ;;;
  let cache_key := leaderboard_cache_key "voice" guild_id limit in
  cached <- on_cache (Cache.get now cache_key) ;;
  match cached with
  | Some ((_ :: _) as entries) =>
      modify (with_metrics count_hit) ;;;
      ret entries
  | _ =>
      modify (with_metrics count_miss) ;;;
      try_except
        (raw_data <- on_db (Db.get_voice_leaderboard guild_id limit (int_of_time now)) ;;
         entries <- build_entries create_voice_entry 1 raw_data now ;;
         cache_set now cache_key entries (Some 60) ;;;
         ret entries)
        (fun _ => ret [])
  end.

(** The [try] block of [get_message_leaderboard], entered on a cache miss. *)
Definition read_and_cache (guild_id : option Z) (lim : Z) (key : string) (now : Q)
  : M LeaderboardService (list LeaderboardEntry) :=
  try_except
    (raw_data <- on_db (Db.get_message_leaderboard guild_id lim) ;;
     entries <- build_entries create_message_entry 1 raw_data now ;;
     cache_set now key entries None ;;;
     ret entries)
    (fun _ => ret []).

(** The entry the cache holds under a key. *)
Definition cached_entry (key : string) (s : LeaderboardService)
  : option (Cache.CacheEntry (list LeaderboardEntry)) :=
  Cache.od_get key (Cache._cache (cache_service s)).

(** A method that leaves the entry under a key as it is. *)
Definition keeps_cached_entry {A : Type} (key : string) (m : M LeaderboardService A)
  : Prop :=
  forall s, cached_entry key (snd (m s)) = cached_entry key s.

Definition count_voice (m : Metrics) : Metrics :=
  mkMetrics (messages_tracked m) (voice_updates m + 1) (leaderboard_updates m)
    (cache_hits m) (cache_misses m).

(** The keys [handle_voice_state_update] invalidates. *)
Definition voice_cache_keys (user_id guild_id : Z) : list string :=
  [ "voice_leaderboard_" +:+ str_of_int guild_id;
    "voice_leaderboard_global";
    "user_voice_stats_" +:+ str_of_int user_id +:+ "_" +:+ str_of_int guild_id ].

(** [LeaderboardService.handle_voice_state_update]: [enabled] is
    [self.config.ENABLE_VOICE_TRACKING], [user_id] and [guild_id] are
    [member.id] and [member.guild.id], [before] and [after] are
    [before.channel] and [after.channel]. *)
Definition handle_voice_state_update (enabled : bool) (user_id guild_id : Z)
    (before after : option Z) (now : Q) : M LeaderboardService unit :=
  try_except
    (if negb enabled then ret tt
     else
       allowed <- _check_rate_limit user_id "voice" now ;;
       if negb allowed then ret tt
       else
         match before, after with
         | None, Some _ =>
             on_db (Db.update_voice_join user_id guild_id
                      (int_of_time now) (int_of_time now))
         | Some _, None =>
             on_db (Db.update_voice_leave user_id guild_id (int_of_time now))
         | Some b, Some a =>
             if bool_decide (b <> a) then
               on_db (Db.update_voice_leave user_id guild_id (int_of_time now)) ;;;
               on_db (Db.update_voice_join user_id guild_id
                        (int_of_time now) (int_of_time now))
             else ret tt
         | None, None => ret tt
         end ;;;
         _cache_user_if_needed user_id now ;;;
         delete_keys (voice_cache_keys user_id guild_id) ;;;
         modify (with_metrics count_voice))
    (fun _ => ret tt).

(** The loop of [cleanup_task] over [list(self._rate_limit_tracker.keys())]. *)
Definition prune_tracker (cutoff_time : Q) (tracker : gmap string (list Q))
  : gmap string (list Q) :=
  fold_left
    (fun t key =>
       match List.filter (fun x => Cache.Qgt_bool x cutoff_time)
               (default [] (t !! key)) with
       | [] => delete key t
       | kept => <[key := kept]> t
       end)
    (map fst (map_to_list tracker)) tracker.

(** The body of [cleanup_task] in [start_background_tasks]: [auto_cleanup]
    is [self.config.ENABLE_AUTO_CLEANUP]. *)
Definition cleanup_task (auto_cleanup : bool) (now : Q) : M LeaderboardService unit :=
  try_except
    (if auto_cleanup then
       on_db (Db.cleanup_old_data (int_of_time now)) ;;;
       cfg <- gets config ;;
       let cutoff_time := (now - inject_Z (RATE_LIMIT_WINDOW cfg * 2))%Q in
       modify (fun s =>
         with_tracker (prune_tracker cutoff_time (_rate_limit_tracker s)) s)
     else ret tt)
    (fun _ => ret tt).

(** The key [_check_rate_limit] files a call under. *)
Definition limiter_key (user_id : Z) (operation_type : string) : string :=
  str_of_int user_id +:+ "_" +:+ operation_type.

(** A run of [_check_rate_limit] over calls [(user_id, operation_type, now)]:
    the times of the calls filed under [key] that were let through. *)
Fixpoint allowed_calls (key : string) (calls : list (Z * string * Q))
    (s : LeaderboardService) : list Q :=
  match calls with
  | [] => []
  | (user_id, operation_type, now) :: rest =>
      let '(r, s') := _check_rate_limit user_id operation_type now s in
      let later := allowed_calls key rest s' in
      match r with
      | Ok true =>
          if bool_decide (limiter_key user_id operation_type = key)
          then now :: later else later
      | _ => later
      end
  end.

(** Whether time [a] lies in the window of [window] seconds that ends at [t]. *)
Definition in_window (window : Z) (t a : Q) : bool :=
  Cache.Qgt_bool a (t - inject_Z window) && Qle_bool a t.

End Service.

(** ** utils/decorators.py *)

Module Decorators.

(** [class RateLimiter]: [calls] is the [defaultdict(deque)], a deque being
    the list of its elements from the left. *)
Record RateLimiter : Type := mkRateLimiter {
  max_calls : Z;
  window : Z;
  calls : gmap string (list Q)
}.

Definition with_calls (c : gmap string (list Q)) (r : RateLimiter) : RateLimiter :=
  mkRateLimiter (max_calls r) (window r) c.

(** [while calls and calls[0] <= now - self.window: calls.popleft()]. *)
Fixpoint drop_old (cutoff : Q) (calls : list Q) : list Q :=
  match calls with
  | oldest :: rest =>
      if Qle_bool oldest cutoff then drop_old cutoff rest else calls
  | [] => []
  end.

(** [RateLimiter.is_allowed]; [now] is [time.time()].  Reading
    [self.calls[key]] files an empty deque under a key that is new. *)
Definition is_allowed (key : string) (now : Q) (r : RateLimiter)
  : bool * RateLimiter :=
  let calls0 := default [] (calls r !! key) in
  let calls1 := drop_old (now - inject_Z (window r))%Q calls0 in
  if Z.of_nat (length calls1) <? max_calls r
  then (true, with_calls (<[key := calls1 ++ [now]]> (calls r)) r)
  else (false, with_calls (<[key := calls1]> (calls r)) r).

(** [RateLimiter.time_until_reset]. *)
Definition time_until_reset (key : string) (now : Q) (r : RateLimiter)
  : Q * RateLimiter :=
  match default [] (calls r !! key) with
  | [] => (0%Q, with_calls (<[key := []]> (calls r)) r)
  | oldest_call :: _ =>
      let reset_time := (oldest_call + inject_Z (window r))%Q in
      (if Cache.Qgt_bool (reset_time - now) 0 then (reset_time - now)%Q else 0%Q, r)
  end.

(** The wrapper the [rate_limit] decorator puts around [func]: [None] when
    the limiter refuses the key. *)
Definition rate_limit {A : Type} (func : A) (key : string) (now : Q)
    (limiter : RateLimiter) : option A * RateLimiter :=
  let '(allowed, limiter) := is_allowed key now limiter in
  if negb allowed then
    let '(_, limiter) := time_until_reset key now limiter in
    (None, limiter)
  else (Some func, limiter).

(** A run of wrapped calls [(key, now)]: the times of the calls under [key]
    that reach the wrapped function. *)
Fixpoint calls_let_through (key : string) (attempts : list (string * Q))
    (r : RateLimiter) : list Q :=
  match attempts with
  | [] => []
  | (k, now) :: rest =>
      let '(res, r') := rate_limit tt k now r in
      let later := calls_let_through key rest r' in
      match res with
      | Some _ => if bool_decide (k = key) then now :: later else later
      | None => later
      end
  end.

End Decorators.

(** ** Sample states *)

Module Samples.

(** A full cache of numbers, oldest entry first. *)
Definition two_entries : Cache.CacheService nat :=
  Cache.mkCache 2 300
    [("a", Cache.mkEntry 1%nat 0 (Some 300%Q));
     ("b", Cache.mkEntry 2%nat 1 (Some 300%Q))]
    Cache.stats0.

Definition sample_config : Service.Config := Service.mkConfig true 10 30 50 60.

Definition metrics0 : Service.Metrics := Service.mkMetrics 0 0 0 0 0.

(** A database with one counted message, one closed voice row and the user
    42 in the persisted user cache. *)
Definition some_activity : Db.Database :=
  Db.mkDatabase
    [Db.mkMessageRow 42 1 7 5 1000]
    [Db.mkVoiceRow 42 1 600 None 1000]
    ∅
    (<[42 := Db.mkUserCacheRow "alice" "" 1000]> ∅).

(** One voice session, open since second 1000. *)
Definition open_session : Db.Database :=
  Db.mkDatabase [] [Db.mkVoiceRow 42 1 600 (Some 1000) 1000] ∅ ∅.

(** A stale leaderboard in the cache. *)
Definition stale_cache : Cache.CacheService (list Models.LeaderboardEntry) :=
  Cache.mkCache 1000 300
    [("message_leaderboard_1_10",
      Cache.mkEntry [Models.create_message_entry 1 42 "alice" 5] 4000 (Some 300%Q))]
    Cache.stats0.

(** A service without a bot, whose database fails on the third statement. *)
Definition failing_third : Service.LeaderboardService :=
  Service.mkService (Db.init some_activity [false; false; true]) stale_cache
    sample_config ∅ metrics0 None.

(** A service whose last reset is recent and whose database fails on the
    second statement. *)
Definition recently_reset : Db.Database :=
  Db.with_settings (<["last_leaderboard_reset" := ("4000", 4000)]> ∅) some_activity.

Definition failing_read : Service.LeaderboardService :=
  Service.mkService (Db.init recently_reset [false; true]) (Cache.init 1000 300)
    sample_config ∅ metrics0 None.

(** A service on which nothing fails and which was never reset. *)
Definition never_reset : Service.LeaderboardService :=
  Service.mkService (Db.init some_activity []) stale_cache sample_config ∅ metrics0 None.

(** A directory that does not know user 42 locally and whose API call fails
    with an HTTP error other than "not found". *)
Definition unreachable_directory : Service.Bot :=
  Service.mkBot (fun _ => None) (fun _ => Raise HTTPException) [].

Definition with_unreachable_directory : Service.LeaderboardService :=
  Service.mkService (Db.init some_activity []) (Cache.init 1000 300)
    sample_config ∅ metrics0 (Some unreachable_directory).

(** The same, the API call answering "not found". *)
Definition unknown_to_directory : Service.Bot :=
  Service.mkBot (fun _ => None) (fun _ => Raise NotFound) [].

Definition with_unknown_to_directory : Service.LeaderboardService :=
  Service.mkService (Db.init some_activity []) (Cache.init 1000 300)
    sample_config ∅ metrics0 (Some unknown_to_directory).

End Samples.

(** * Properties *)

(** ** The cache *)

Module CacheProps.

Import Cache.

Lemma Qgt_bool_true a b : Qgt_bool a b = true <-> (b < a)%Q.
Proof.
  unfold Qgt_bool. rewrite negb_true_iff, <- not_true_iff_false, Qle_bool_iff.
  split; [apply Qnot_le_lt | apply Qlt_not_le].
Qed.

Lemma Qgt_bool_false a b : Qgt_bool a b = false <-> (a <= b)%Q.
Proof. unfold Qgt_bool. rewrite negb_false_iff. apply Qle_bool_iff. Qed.

Section WithValue.

Context {V : Type}.

Implicit Types (d : odict V) (c : CacheService V) (e : CacheEntry V).
Implicit Types (key k : string).

(** *** The ordered dictionary *)

Lemma od_get_del_same key d : od_get key (od_del key d) = None.
Proof.
  induction d as [|[k e] d IH]; simpl; [reflexivity|].
  destruct (String.eqb key k) eqn:E; simpl; [assumption|].
  now rewrite E.
Qed.

Lemma od_get_del_other key k d :
  key <> k -> od_get key (od_del k d) = od_get key d.
Proof.
  intros Hne. induction d as [|[k' e] d IH]; simpl; [reflexivity|].
  destruct (String.eqb k k') eqn:E; simpl.
  - apply String.eqb_eq in E. subst k'.
    destruct (String.eqb key k) eqn:E'; [apply String.eqb_eq in E'; contradiction|].
    assumption.
  - destruct (String.eqb key k'); [reflexivity | assumption].
Qed.

Lemma od_get_app key d d' :
  od_get key (d ++ d') =
  match od_get key d with Some e => Some e | None => od_get key d' end.
Proof.
  induction d as [|[k e] d IH]; simpl; [reflexivity|].
  destruct (String.eqb key k); [reflexivity | assumption].
Qed.

Lemma od_setitem_absent key e d :
  od_get key d = None -> od_setitem key e d = d ++ [(key, e)].
Proof.
  induction d as [|[k e'] d IH]; simpl; [reflexivity|].
  destruct (String.eqb key k); [discriminate|].
  intros H. now rewrite IH.
Qed.

Lemma od_get_skipn_absent key d n :
  od_get key d = None -> od_get key (skipn n d) = None.
Proof.
  revert d. induction n as [|n IH]; intros d; [easy|].
  destruct d as [|[k e] d]; simpl; [easy|].
  destruct (String.eqb key k); [discriminate | apply IH].
Qed.

Lemma od_del_length d key : (length (od_del key d) <= length d)%nat.
Proof.
  induction d as [|[k e] d IH]; simpl; [lia|].
  destruct (String.eqb key k); simpl; lia.
Qed.

Lemma od_del_absent key d : od_get key d = None -> od_del key d = d.
Proof.
  induction d as [|[k e] d IH]; simpl; [reflexivity|].
  destruct (String.eqb key k); [discriminate|].
  intros H. now rewrite IH.
Qed.

Lemma od_get_absent_keys key d : od_get key d = None <-> ~ In key (od_keys d).
Proof.
  induction d as [|[k e] d IH]; simpl; [tauto|].
  destruct (String.eqb key k) eqn:E.
  - apply String.eqb_eq in E. subst. split; [discriminate | tauto].
  - apply String.eqb_neq in E. rewrite IH. split; [intros H [H'|H']; auto | tauto].
Qed.

(** Deleting the first key of a dictionary leaves the rest of the order:
    the step of the eviction loop. *)
Lemma od_del_head key e d : od_wf ((key, e) :: d) -> od_del key ((key, e) :: d) = d.
Proof.
  unfold od_wf. simpl. intros H. apply NoDup_cons_iff in H as [Hn _].
  rewrite String.eqb_refl. apply od_del_absent, od_get_absent_keys, Hn.
Qed.

Lemma od_setitem_length_present key e d e0 :
  od_get key d = Some e0 -> length (od_setitem key e d) = length d.
Proof.
  induction d as [|[k e'] d IH]; simpl; [discriminate|].
  destruct (String.eqb key k); simpl; [reflexivity|].
  intros H. now rewrite IH.
Qed.

Lemma od_get_setitem_same key e d : od_get key (od_setitem key e d) = Some e.
Proof.
  induction d as [|[k e'] d IH]; simpl.
  - now rewrite String.eqb_refl.
  - destruct (String.eqb key k) eqn:E; simpl; now rewrite E.
Qed.

Lemma od_del_length_present key d e :
  od_get key d = Some e -> (length (od_del key d) < length d)%nat.
Proof.
  induction d as [|[k e'] d IH]; simpl; [discriminate|].
  destruct (String.eqb key k); simpl.
  - intros _. pose proof (od_del_length d key). lia.
  - intros H. apply IH in H. lia.
Qed.

Lemma od_move_to_end_length key d :
  (length (od_move_to_end key d) <= length d)%nat.
Proof.
  unfold od_move_to_end. destruct (od_get key d) eqn:E; [|lia].
  rewrite length_app. simpl. pose proof (od_del_length_present _ _ _ E). lia.
Qed.

Lemma fold_del_length (ks : list string) d :
  (length (fold_left (fun d key => od_del key d) ks d) <= length d)%nat.
Proof.
  revert d. induction ks as [|k ks IH]; intros d; simpl; [lia|].
  etransitivity; [apply IH | apply od_del_length].
Qed.

(** *** The eviction loop *)

Ltac case_gtb :=
  match goal with
  | |- context [?a >? ?b] => destruct (Z.gtb_spec a b)
  end.

Lemma evict_loop_within max d s :
  Z.of_nat (length d) <= max -> evict_loop max d s = (Ok tt, (d, s)).
Proof.
  intros H. destruct d as [|[k e] d]; cbn [evict_loop]; case_gtb;
    solve [reflexivity | lia].
Qed.

Lemma evict_loop_bound max d s :
  0 <= max ->
  exists n s',
    evict_loop max d s = (Ok tt, (skipn n d, s')) /\
    Z.of_nat (length (skipn n d)) <= max.
Proof.
  intros Hmax. revert s. induction d as [|[k e] d IH]; intros s.
  - exists 0%nat, s. rewrite evict_loop_within; simpl; [split; [reflexivity | lia] | lia].
  - cbn [evict_loop]. case_gtb.
    + destruct (IH (add_evictions 1 s)) as (n & s' & Heq & Hle).
      exists (S n), s'. simpl. split; assumption.
    + exists 0%nat, s. split; [reflexivity|]. simpl skipn. lia.
Qed.

(** With room for one entry at least, the loop stops before the newest
    entry. *)
Lemma evict_loop_keeps_last max d x s :
  1 <= max ->
  exists n s',
    evict_loop max (d ++ [x]) s = (Ok tt, (skipn n d ++ [x], s')) /\
    Z.of_nat (length (skipn n d ++ [x])) <= max.
Proof.
  intros Hmax. revert s. induction d as [|[k e] d IH]; intros s.
  - exists 0%nat, s. simpl app. rewrite evict_loop_within; [|simpl; lia].
    split; [reflexivity | simpl; lia].
  - simpl app. destruct x as [kx ex]. cbn [evict_loop]. case_gtb.
    + destruct (IH (add_evictions 1 s)) as (n & s' & Heq & Hle).
      exists (S n), s'. simpl. split; assumption.
    + exists 0%nat, s. split; [reflexivity|]. simpl skipn. simpl app. lia.
Qed.

(** *** Set, then get *)

(** What [set] leaves when the cache has room for one entry at least: the
    new entry at the back of what is left of the other keys. *)
Lemma set_spec c now key (v : V) ttl :
  1 <= max_size c ->
  exists d s,
    set now key v ttl c =
      (Ok tt, mkCache (max_size c) (default_ttl c)
                (d ++ [(key, stored_entry c now v ttl)]) s) /\
    od_get key d = None /\
    Z.of_nat (length (d ++ [(key, stored_entry c now v ttl)])) <= max_size c.
Proof.
  intros Hmax. unfold set, _evict_if_needed.
  set (d0 := if od_mem key (_cache c) then od_del key (_cache c) else _cache c).
  assert (Hd0 : od_get key d0 = None).
  { unfold d0, od_mem. destruct (od_get key (_cache c)) eqn:E;
      [apply od_get_del_same | assumption]. }
  rewrite (od_setitem_absent _ _ _ Hd0). cbn [max_size _cache _stats with_cache default_ttl].
  fold (stored_entry c now v ttl).
  destruct (evict_loop_keeps_last (max_size c) d0
              (key, stored_entry c now v ttl) (_stats c) Hmax)
    as (n & s' & -> & Hle).
  exists (skipn n d0), (add_sets 1 s'). split; [reflexivity|].
  split; [apply od_get_skipn_absent, Hd0 | exact Hle].
Qed.

(** C4.  On a cache that can hold an entry ([max_size] at least 1), [set]
    returns normally, and a [get] of the key that follows it returns the
    stored value at every time strictly before [created_at + ttl] and
    [None] at every time after it (the time to live being the one given,
    or [default_ttl]). *)
Theorem set_then_get c key (v : V) (ttl : option Z) (t0 t : Q) :
  1 <= max_size c ->
  let life := inject_Z (match ttl with None => default_ttl c | Some x => x end) in
  let c1 := snd (set t0 key v ttl c) in
  fst (set t0 key v ttl c) = Ok tt /\
  ((t < t0 + life)%Q -> fst (get t key c1) = Some v) /\
  ((t0 + life < t)%Q -> fst (get t key c1) = None).
Proof.
  intros Hmax life c1.
  destruct (set_spec c t0 key v ttl Hmax) as (d & s & Hset & Hd & _).
  subst c1. rewrite Hset. cbn [fst snd]. split; [reflexivity|].
  assert (Hget : od_get key (d ++ [(key, stored_entry c t0 v ttl)])
                 = Some (stored_entry c t0 v ttl)).
  { rewrite od_get_app, Hd. simpl. now rewrite String.eqb_refl. }
  unfold get. cbn [_cache]. rewrite Hget.
  unfold is_expired, stored_entry. cbn [Cache.ttl created_at value]. fold life.
  split; intros Ht.
  - destruct (Qgt_bool t (t0 + life)) eqn:E; [|reflexivity].
    apply Qgt_bool_true in E. exfalso. eapply Qlt_irrefl, Qlt_trans; eassumption.
  - apply Qgt_bool_true in Ht. now rewrite Ht.
Qed.

(** *** The size bound *)

Lemma set_within_bound c now key (v : V) ttl :
  len c <= max_size c ->
  exists d s,
    set now key v ttl c = (Ok tt, mkCache (max_size c) (default_ttl c) d s) /\
    Z.of_nat (length d) <= max_size c.
Proof.
  unfold len. intros Hlen. unfold set, _evict_if_needed.
  set (d1 := od_setitem key _ _).
  cbn [max_size _cache _stats with_cache default_ttl].
  destruct (evict_loop_bound (max_size c) d1 (_stats c)) as (n & s' & Heq & Hle);
    [lia|].
  rewrite Heq. exists (skipn n d1), (add_sets 1 s'). split; [reflexivity | exact Hle].
Qed.

Lemma run_bounded (o : operation V) c :
  len c <= max_size c ->
  fst (run o c) = Ok tt /\
  max_size (snd (run o c)) = max_size c /\
  len (snd (run o c)) <= max_size c.
Proof.
  intros Hlen. destruct o as [now key|now key v ttl|key| |now key ttl|now|now key];
    cbn [run fst snd].
  - split; [reflexivity|]. unfold get.
    destruct (od_get key (_cache c)) as [e|] eqn:E; [|now split].
    destruct (is_expired now e); cbn [snd]; (split; [reflexivity|]);
      unfold len in *; cbn [_cache with_stats with_cache].
    + pose proof (od_del_length (_cache c) key). lia.
    + pose proof (od_move_to_end_length key (_cache c)). lia.
  - destruct (set_within_bound c now key v ttl Hlen) as (d & s & -> & Hle).
    now split.
  - split; [reflexivity|]. unfold delete.
    destruct (od_mem key (_cache c)); cbn [snd]; (split; [reflexivity|]);
      [|assumption].
    unfold len in *. cbn [_cache with_stats with_cache].
    pose proof (od_del_length (_cache c) key). lia.
  - split; [reflexivity|]. split; [reflexivity|]. unfold len in *. simpl. lia.
  - split; [reflexivity|]. unfold refresh.
    destruct (od_get key (_cache c)) as [e|] eqn:E; [|now split].
    destruct (is_expired now e); cbn [snd]; (split; [reflexivity|]);
      unfold len in *; cbn [_cache with_stats with_cache].
    + pose proof (od_del_length (_cache c) key). lia.
    + match goal with
      | |- context [od_move_to_end key ?d] =>
          pose proof (od_move_to_end_length key d);
          assert (length d = length (_cache c))
            by (eapply od_setitem_length_present; eassumption)
      end. lia.
  - split; [reflexivity|]. unfold cleanup_expired. cbn [snd].
    match goal with
    | |- context [fold_left ?f ?ks ?d] =>
        pose proof (fold_del_length ks d) as Hfold; set (ks' := ks) in *
    end.
    destruct ks'; (split; [reflexivity|]); unfold len in *;
      cbn [_cache with_stats with_cache]; lia.
  - split; [reflexivity|]. unfold has_key.
    destruct (od_get key (_cache c)) as [e|] eqn:E; [|now split].
    destruct (is_expired now e); cbn [snd]; (split; [reflexivity|]);
      [|assumption].
    unfold len in *. cbn [_cache with_stats with_cache].
    pose proof (od_del_length (_cache c) key). lia.
Qed.

Lemma od_del_setitem key e d : od_del key (od_setitem key e d) = od_del key d.
Proof.
  induction d as [|[k e'] d IH]; simpl.
  - now rewrite String.eqb_refl.
  - destruct (String.eqb key k) eqn:E; simpl; rewrite E; [reflexivity|].
    now rewrite IH.
Qed.

(** C9, as amended.  Every operation that starts within the bound returns
    normally, leaves [max_size] alone and ends within the bound.  A [set] of
    a key that is not cached, on a full cache, drops the entry at the front
    and puts the new one at the back; a [get] and a [refresh] of a live
    entry move it to the back. *)
Theorem size_bound_and_lru_eviction :
  (forall (o : operation V) c,
      len c <= max_size c ->
      fst (run o c) = Ok tt /\
      max_size (snd (run o c)) = max_size c /\
      len (snd (run o c)) <= max_size c) /\
  (forall c now key (v : V) ttl oldest rest,
      _cache c = oldest :: rest ->
      len c = max_size c ->
      od_get key (_cache c) = None ->
      _cache (snd (set now key v ttl c)) = rest ++ [(key, stored_entry c now v ttl)]) /\
  (forall c now key e,
      od_get key (_cache c) = Some e ->
      is_expired now e = false ->
      _cache (snd (get now key c)) = od_del key (_cache c) ++ [(key, e)]) /\
  (forall c now key ttl e,
      od_get key (_cache c) = Some e ->
      is_expired now e = false ->
      _cache (snd (refresh now key ttl c)) =
        od_del key (_cache c) ++ [(key, stored_entry c now (value e) ttl)]).
Proof.
  split; [exact run_bounded|]. split; [|split].
  - intros c now key v ttl [k0 e0] rest Hc Hfull Habsent.
    unfold set, _evict_if_needed, od_mem. rewrite Habsent.
    rewrite (od_setitem_absent _ _ _ Habsent).
    cbn [max_size _cache _stats with_cache default_ttl].
    fold (stored_entry c now v ttl). unfold len in Hfull. rewrite Hc in *.
    simpl app. cbn [evict_loop]. case_gtb.
    + rewrite evict_loop_within; [reflexivity|].
      rewrite length_app. simpl in *. lia.
    + simpl in *. rewrite length_app in *. simpl in *. lia.
  - intros c now key e Hget Hlive. unfold get. rewrite Hget, Hlive.
    cbn [snd _cache with_stats with_cache]. unfold od_move_to_end. now rewrite Hget.
  - intros c now key ttl e Hget Hlive. unfold refresh. rewrite Hget, Hlive.
    cbn [snd _cache with_cache]. unfold od_move_to_end.
    rewrite od_get_setitem_same, od_del_setitem. reflexivity.
Qed.

End WithValue.

(** The theorems at work on a cache of numbers. *)

Import Samples.

Lemma set_then_get_witness :
  1 <= max_size (init (V := nat) 1000 300) /\
  (10 < 0 + inject_Z 60)%Q /\
  fst (get 10 "k" (snd (set 0 "k" 42%nat (Some 60) (init 1000 300)))) = Some 42%nat.
Proof.
  split; [simpl; lia|]. split; [reflexivity|].
  apply (set_then_get (init 1000 300) "k" 42%nat (Some 60) 0 10);
    [simpl; lia | reflexivity].
Defined.

Lemma size_bound_and_lru_eviction_witness :
  len two_entries = max_size two_entries /\
  len (snd (run (OpSet 5 "c" 3%nat None) two_entries)) <= 2 /\
  keys (snd (set 5 "c" 3%nat None two_entries)) = ["b"; "c"] /\
  keys (snd (get 5 "a" two_entries)) = ["b"; "a"] /\
  keys (snd (refresh 5 "a" None two_entries)) = ["b"; "a"].
Proof.
  destruct (size_bound_and_lru_eviction (V := nat)) as (Hrun & Hset & Hget & Hrefresh).
  split; [reflexivity|]. split; [|split; [|split]].
  - apply (Hrun (OpSet 5 "c" 3%nat None) two_entries). vm_compute. discriminate.
  - unfold keys.
    rewrite (Hset two_entries 5%Q "c" 3%nat None
               ("a", mkEntry 1%nat 0 (Some 300%Q))
               [("b", mkEntry 2%nat 1 (Some 300%Q))]);
      reflexivity.
  - unfold keys.
    rewrite (Hget two_entries 5%Q "a" (mkEntry 1%nat 0 (Some 300%Q))); reflexivity.
  - unfold keys.
    rewrite (Hrefresh two_entries 5%Q "a" None (mkEntry 1%nat 0 (Some 300%Q)));
      reflexivity.
Defined.

(** C9, as stated, fails: on a full cache a [set] of a key that is cached
    replaces that key's entry and evicts nothing, so the entry at the front
    (here ["a"]) stays. *)
Lemma set_of_cached_key_evicts_nothing :
  len two_entries = max_size two_entries /\
  fst (set 5 "b" 7%nat None two_entries) = Ok tt /\
  keys (snd (set 5 "b" 7%nat None two_entries)) = ["a"; "b"] /\
  od_get "a" (_cache (snd (set 5 "b" 7%nat None two_entries)))
    = Some (mkEntry 1%nat 0 (Some 300%Q)).
Proof. repeat split. Qed.

End CacheProps.

(** ** The batched writer and the counters *)

Module DbProps.

Import Db.

(** *** Grouping *)


















(** *** Counting messages *)

Lemma find_app {A} (p : A -> bool) l l' :
  List.find p (l ++ l') =
  match List.find p l with Some x => Some x | None => List.find p l' end.
Proof. induction l as [|x l IH]; simpl; [reflexivity|]. now destruct (p x). Qed.

Lemma find_filter_excluded {A} (p q : A -> bool) l :
  (forall x, p x = true -> q x = false) -> List.find p (List.filter q l) = None.
Proof.
  intros H. induction l as [|x l IH]; simpl; [reflexivity|].
  destruct (q x) eqn:Eq; simpl; [|assumption].
  destruct (p x) eqn:Ep; [|assumption].
  apply H in Ep. congruence.
Qed.

Lemma find_filter_included {A} (p q : A -> bool) l :
  (forall x, p x = true -> q x = true) ->
  List.find p (List.filter q l) = List.find p l.
Proof.
  intros H. induction l as [|x l IH]; simpl; [reflexivity|].
  destruct (q x) eqn:Eq; simpl.
  - now destruct (p x).
  - destruct (p x) eqn:Ep; [|assumption]. apply H in Ep. congruence.
Qed.

Lemma msg_key_is_same_key u g u' g' r :
  msg_key_is u g r = true -> msg_key_is u' g' r = true ->
  (u' =? u) && (g' =? g) = true.
Proof. unfold msg_key_is. lia. Qed.

(** One increment statement adds one to the count of its own key and leaves
    every other count alone. *)
Lemma exec_increment u g ch t d :
  exists d',
    exec_sql SQL_increment_message (increment_params u g ch t) d = Ok ([], d') /\
    voice d' = voice d /\ settings d' = settings d /\ user_cache d' = user_cache d /\
    forall user guild,
      stored_count user guild d' =
      stored_count user guild d + (if (u =? user) && (g =? guild) then 1 else 0).
Proof.
  eexists. split; [reflexivity|]. repeat split.
  intros user guild. unfold stored_count. cbn [messages with_messages].
  rewrite find_app. destruct ((u =? user) && (g =? guild)) eqn:E.
  - assert (u = user /\ g = guild) as [-> ->] by lia.
    rewrite find_filter_excluded by (intros x ->; reflexivity).
    simpl. unfold msg_key_is at 1. simpl. rewrite !Z.eqb_refl. reflexivity.
  - rewrite find_filter_included.
    + destruct (List.find (msg_key_is user guild) (messages d)); [lia|].
      simpl. unfold msg_key_is at 1. simpl.
      replace ((u =? user) && (g =? guild)) with false. lia.
    + intros x Hx. unfold msg_key_is in *. lia.
Qed.

Lemma executemany_increments (l : list (Z * Z * Z * Z)) d :
  exists d',
    executemany SQL_increment_message
      (map (fun '(u, g, ch, t) => increment_params u g ch t) l) d = (Ok tt, d') /\
    forall user guild,
      stored_count user guild d' =
      stored_count user guild d
      + Z.of_nat (length (List.filter (is_inc_tuple_of user guild) l)).
Proof.
  revert d. induction l as [|[[[u g] ch] t] l IH]; intros d.
  - exists d. split; [reflexivity|]. intros. simpl. lia.
  - destruct (exec_increment u g ch t d) as (d1 & Hexec & _ & _ & _ & Hcount).
    destruct (IH d1) as (d' & Hmany & Hcount').
    exists d'. cbn [map executemany]. rewrite Hexec. split; [exact Hmany|].
    intros user guild. rewrite Hcount', Hcount. cbn [List.filter is_inc_tuple_of].
    destruct ((u =? user) && (g =? guild)); simpl length; lia.
Qed.

Lemma params_of_inc_ops l :
  concat (map params (map inc_op l)) =
  map (fun '(u, g, ch, t) => increment_params u g ch t) l.
Proof.
  induction l as [|[[[u g] ch] t] l IH]; simpl; [reflexivity|]. now rewrite IH.
Qed.

Lemma group_step_inc acc i :
  group_step [((SQL_increment_message, "update"), acc)] (inc_op i) =
  [((SQL_increment_message, "update"), acc ++ params (inc_op i))].
Proof.
  destruct i as [[[u g] ch] t]. unfold group_step, inc_op.
  cbn [grouped_extend query operation_type params].
  now rewrite bool_decide_true by reflexivity.
Qed.

Lemma group_inc_ops_from acc l :
  fold_left group_step (map inc_op l) [((SQL_increment_message, "update"), acc)] =
  [((SQL_increment_message, "update"), acc ++ concat (map params (map inc_op l)))].
Proof.
  revert acc. induction l as [|i l IH]; intros acc; cbn [map fold_left concat].
  - now rewrite app_nil_r.
  - rewrite group_step_inc, IH. now rewrite <- app_assoc.
Qed.

Lemma group_inc_ops i l :
  group_operations (map inc_op (i :: l)) =
  [((SQL_increment_message, "update"), concat (map params (map inc_op (i :: l))))].
Proof.
  unfold group_operations. cbn [map fold_left concat].
  replace (group_step [] (inc_op i))
    with [((SQL_increment_message, "update"), [] ++ params (inc_op i))]
    by (now destruct i as [[[u g] ch] t]).
  apply group_inc_ops_from.
Qed.

Lemma pending_inc_ops user guild l :
  pending user guild (map inc_op l) = length (List.filter (is_inc_tuple_of user guild) l).
Proof.
  unfold pending. induction l as [|[[[u g] ch] t] l IH]; simpl; [reflexivity|].
  destruct ((u =? user) && (g =? guild)); simpl; now rewrite IH.
Qed.

Lemma pending_app user guild q q' :
  pending user guild (q ++ q') = (pending user guild q + pending user guild q')%nat.
Proof.
  unfold pending.
  now rewrite List.filter_app, map_app, concat_app, List.filter_app, length_app.
Qed.

(** A batch of increments, executed on a manager on which nothing fails. *)
Lemma execute_batch_of_increments i l m :
  faults m = [] ->
  exists d',
    _execute_batch_operations (map inc_op (i :: l)) m =
      (Ok tt, count_batch (length (map inc_op (i :: l))) (with_db d' m)) /\
    forall user guild,
      stored_count user guild d' =
      stored_count user guild (db m)
      + Z.of_nat (pending user guild (map inc_op (i :: l))).
Proof.
  intros Hf.
  destruct (executemany_increments (i :: l) (db m)) as (d' & Hmany & Hcount).
  exists d'. split.
  - unfold _execute_batch_operations, bind, next_fault, gets, raise, modify.
    rewrite Hf. rewrite group_inc_ops. cbn [execute_groups].
    rewrite params_of_inc_ops. cbn [map] in Hmany |- *. unfold bind.
    rewrite Hmany. reflexivity.
  - intros user guild. rewrite Hcount, pending_inc_ops. reflexivity.
Qed.

Lemma firstn_map_inc n l : firstn n (map inc_op l) = map inc_op (firstn n l).
Proof. apply firstn_map. Qed.

Lemma step_counting m e :
  counting m ->
  counting (step m e) /\
  forall user guild,
    counted user guild (step m e) =
    counted user guild m + (if is_inc_of user guild e then 1 else 0).
Proof.
  intros [Hf [l Hq]]. destruct e as [u g ch t|arrived].
  - cbn [step]. unfold increment_message_count, queue_batch_operation, modify.
    cbn [snd]. split.
    + split; [assumption|]. exists (l ++ [(u, g, ch, t)]).
      cbn [_batch_queue with_queue]. now rewrite Hq, map_app.
    + intros user guild. unfold counted. cbn [db _batch_queue with_queue].
      rewrite pending_app. fold (inc_op (u, g, ch, t)).
      change [inc_op (u, g, ch, t)] with (map inc_op [(u, g, ch, t)]).
      rewrite pending_inc_ops. cbn [is_inc_of List.filter is_inc_tuple_of].
      destruct ((u =? user) && (g =? guild)); simpl length; lia.
  - cbn [step]. unfold _process_batch_operations, bind, gets, modify, ret.
    cbn [snd]. rewrite Hq, firstn_map_inc, skipn_map.
    set (n := Nat.min arrived 100).
    destruct (firstn n l) as [|i taken] eqn:Etaken.
    + cbn [map snd]. split.
      * split; [assumption|]. now exists (skipn n l).
      * intros user guild. unfold counted. cbn [db _batch_queue with_queue].
        rewrite Hq.
        replace (skipn n l) with l
          by (now rewrite <- (firstn_skipn n l) at 1; rewrite Etaken).
        cbn [is_inc_of]. lia.
    + cbn [map]. change (inc_op i :: map inc_op taken) with (map inc_op (i :: taken)).
      unfold try_except.
      destruct (execute_batch_of_increments i taken
                  (with_queue (map inc_op (skipn n l)) m) Hf)
        as (d' & -> & Hcount).
      cbn [snd]. split.
      * split; [assumption|]. now exists (skipn n l).
      * intros user guild. unfold counted. cbn [db _batch_queue count_batch with_db with_queue].
        rewrite Hcount. cbn [db with_queue]. rewrite Hq.
        replace (map inc_op l)
          with (map inc_op (i :: taken) ++ map inc_op (skipn n l))
          by (now rewrite <- map_app, <- Etaken, firstn_skipn).
        rewrite pending_app. cbn [is_inc_of]. lia.
Qed.

Lemma run_events_counting es m :
  counting m ->
  counting (run_events es m) /\
  forall user guild,
    counted user guild (run_events es m) =
    counted user guild m + Z.of_nat (increments_of user guild es).
Proof.
  unfold run_events, increments_of. revert m.
  induction es as [|e es IH]; intros m Hm; simpl.
  - split; [assumption|]. intros. lia.
  - destruct (step_counting m e Hm) as [Hm' Hstep].
    destruct (IH _ Hm') as [Hfinal Hcount]. split; [assumption|].
    intros user guild. rewrite Hcount, Hstep.
    destruct (is_inc_of user guild e); simpl length; lia.
Qed.

(** A turn of the batch task takes the operations it executes out of the
    queue. *)
Lemma flush_queue m arrived :
  counting m ->
  _batch_queue (step m (Flush arrived))
  = skipn (Nat.min arrived 100) (_batch_queue m).
Proof.
  intros [Hf [l Hq]]. cbn [step].
  unfold _process_batch_operations, bind, gets, modify, ret. cbn [snd].
  rewrite Hq, firstn_map_inc.
  destruct (firstn (Nat.min arrived 100) l) as [|i taken]; [reflexivity|].
  cbn [map]. change (inc_op i :: map inc_op taken) with (map inc_op (i :: taken)).
  unfold try_except.
  destruct (execute_batch_of_increments i taken
              (with_queue (skipn (Nat.min arrived 100) (map inc_op l)) m) Hf)
    as (d' & -> & _).
  reflexivity.
Qed.

(** Turns of the batch task, each taking one operation at least, empty the
    queue when there are as many turns as operations. *)
Lemma turns_drain_queue turns : forall m,
  counting m ->
  List.Forall (fun arrived => (1 <= arrived)%nat) turns ->
  (length (_batch_queue m) <= length turns)%nat ->
  _batch_queue (run_events (map Flush turns) m) = [].
Proof.
  induction turns as [|arrived turns IH]; intros m Hm Hall Hlen.
  - unfold run_events. cbn [map fold_left].
    destruct (_batch_queue m); [reflexivity | simpl in Hlen; lia].
  - apply List.Forall_cons_iff in Hall as [Harrived Hall].
    unfold run_events. cbn [map fold_left]. fold (run_events (map Flush turns)).
    destruct (step_counting m (Flush arrived) Hm) as [Hm' _].
    apply (IH _ Hm' Hall). rewrite (flush_queue m arrived Hm), length_skipn.
    simpl in Hlen. lia.
Qed.

Lemma turns_count_nothing user guild turns :
  increments_of user guild (map Flush turns) = 0%nat.
Proof. unfold increments_of. induction turns; simpl; auto. Qed.

(** [close] on a manager that counts, the batch task ending with [held]
    operations in hand: the increments among those are not stored. *)
Lemma close_counting m held :
  counting m ->
  exists m',
    close (TaskEnds held) m = Some (Ok tt, m') /\
    forall user guild,
      stored_count user guild (db m') =
      counted user guild m
      - Z.of_nat (pending user guild (firstn (Nat.min held 100) (_batch_queue m))).
Proof.
  intros [Hf [l Hq]]. set (n := Nat.min held 100).
  assert (Hsplit : forall user guild,
    counted user guild m =
    stored_count user guild (db m)
    + Z.of_nat (pending user guild (firstn n (_batch_queue m)))
    + Z.of_nat (pending user guild (skipn n (_batch_queue m)))).
  { intros user guild. unfold counted.
    rewrite <- (firstn_skipn n (_batch_queue m)) at 1. rewrite pending_app. lia. }
  unfold close, try_except, bind, gets, modify, ret. fold n.
  rewrite Hq, skipn_map in *.
  destruct (skipn n l) as [|i rest] eqn:Erest.
  - cbn [map]. eexists. split; [reflexivity|].
    intros user guild. rewrite Hsplit. cbn [db with_queue map].
    change (pending user guild []) with 0%nat. lia.
  - cbn [map]. change (inc_op i :: map inc_op rest) with (map inc_op (i :: rest)).
    destruct (execute_batch_of_increments i rest (with_queue [] m) Hf)
      as (d' & -> & Hcount).
    eexists. split; [reflexivity|].
    intros user guild. cbn [db count_batch with_db]. rewrite Hcount, Hsplit.
    cbn [db with_queue]. lia.
Qed.

(** C1.  A counter that starts with no row, on a manager with an empty
    queue and no failures, over any sequence of [increment_message_count]
    calls (for any users) and turns of the batch task, [N] of the calls
    being for the counter.  (1) The stored count and the increments still
    queued add up to [N].  (2) The batch task stores them: after as many
    further turns as there are queued operations, each taking one operation
    at least, the stored count is exactly [N].  (3) [close] loses some: when
    the batch task ends at its cancellation, [close] returns without an
    error, the increments among the operations the task holds then are
    never stored, and the stored count after [close] is [N] less their
    number. *)
Theorem increments_are_counted (d : Database) (es : list event) (user guild : Z) :
  List.find (msg_key_is user guild) (messages d) = None ->
  let m := run_events es (init d []) in
  let N := Z.of_nat (increments_of user guild es) in
  stored_count user guild (db m) + Z.of_nat (pending user guild (_batch_queue m)) = N /\
  (forall turns,
      List.Forall (fun arrived => (1 <= arrived)%nat) turns ->
      (length (_batch_queue m) <= length turns)%nat ->
      stored_count user guild (db (run_events (map Flush turns) m)) = N) /\
  (forall held,
      exists m',
        close (TaskEnds held) m = Some (Ok tt, m') /\
        stored_count user guild (db m') =
        N - Z.of_nat (pending user guild
                        (firstn (Nat.min held 100) (_batch_queue m)))).
Proof.
  intros Habsent m N.
  assert (Hinit : counting (init d [])) by (split; [reflexivity | now exists []]).
  destruct (run_events_counting es _ Hinit) as [Hm Hcount].
  specialize (Hcount user guild). fold m in Hm, Hcount.
  assert (H0 : counted user guild (init d []) = 0).
  { unfold counted, stored_count. simpl. now rewrite Habsent. }
  rewrite H0 in Hcount. subst N.
  split; [unfold counted in Hcount; lia|]. split.
  - intros turns Hall Hlen.
    destruct (run_events_counting (map Flush turns) m Hm) as [_ Hturns].
    specialize (Hturns user guild).
    rewrite turns_count_nothing in Hturns. unfold counted at 1 in Hturns.
    rewrite (turns_drain_queue turns m Hm Hall Hlen) in Hturns.
    unfold pending in Hturns. simpl in Hturns. lia.
  - intros held. destruct (close_counting m held Hm) as (m' & Hclose & Hstored).
    exists m'. split; [exact Hclose|]. rewrite Hstored. lia.
Qed.

(** *** Ranking *)

Section OrderBy.

Context {A : Type} (key : A -> Z).

Lemma insert_desc_perm x l : insert_desc key x l ≡ₚ x :: l.
Proof.
  induction l as [|y l IH]; simpl; [reflexivity|].
  destruct (key y <=? key x); [reflexivity|].
  rewrite IH. apply perm_swap.
Qed.

Lemma order_by_desc_perm l : order_by_desc key l ≡ₚ l.
Proof.
  induction l as [|x l IH]; simpl; [reflexivity|].
  now rewrite insert_desc_perm, IH.
Qed.

Lemma insert_desc_sorted x l :
  StronglySorted (fun a b => key b <= key a) l ->
  StronglySorted (fun a b => key b <= key a) (insert_desc key x l).
Proof.
  induction l as [|y l IH]; intros Hs; simpl.
  - constructor; constructor.
  - apply StronglySorted_inv in Hs as [Hl Hy].
    destruct (key y <=? key x) eqn:E.
    + apply Z.leb_le in E. constructor; [constructor; assumption|].
      constructor; [assumption|].
      eapply List.Forall_impl; [|exact Hy]. simpl. intros; lia.
    + apply Z.leb_gt in E. constructor; [auto|].
      eapply Permutation_Forall; [symmetry; apply insert_desc_perm|].
      constructor; [lia | assumption].
Qed.

Lemma order_by_desc_sorted l :
  StronglySorted (fun a b => key b <= key a) (order_by_desc key l).
Proof.
  induction l as [|x l IH]; simpl; [constructor|]. now apply insert_desc_sorted.
Qed.

(** The sort is stable: the rows of one value keep their order. *)
Lemma insert_desc_stable v x l :
  List.filter (fun r => key r =? v) (insert_desc key x l) =
  List.filter (fun r => key r =? v) (x :: l).
Proof.
  induction l as [|y l IH]; [reflexivity|].
  cbn [insert_desc]. destruct (key y <=? key x) eqn:E; [reflexivity|].
  apply Z.leb_gt in E. cbn [List.filter] in *. rewrite IH.
  destruct (key x =? v) eqn:Ex, (key y =? v) eqn:Ey; try reflexivity. lia.
Qed.

Lemma order_by_desc_stable v l :
  List.filter (fun r => key r =? v) (order_by_desc key l) =
  List.filter (fun r => key r =? v) l.
Proof.
  induction l as [|x l IH]; [reflexivity|].
  cbn [order_by_desc]. rewrite insert_desc_stable. cbn [List.filter]. now rewrite IH.
Qed.

End OrderBy.

Lemma insert_desc_map {A B} (f : A -> B) (key : B -> Z) x l :
  map f (insert_desc (fun a => key (f a)) x l) = insert_desc key (f x) (map f l).
Proof.
  induction l as [|y l IH]; simpl; [reflexivity|].
  destruct (key (f y) <=? key (f x)); simpl; [reflexivity|]. now rewrite IH.
Qed.

Lemma order_by_desc_map {A B} (f : A -> B) (key : B -> Z) l :
  map f (order_by_desc (fun a => key (f a)) l) = order_by_desc key (map f l).
Proof.
  induction l as [|x l IH]; simpl; [reflexivity|].
  now rewrite insert_desc_map, IH.
Qed.

Lemma sql_limit_nat {A} (K : nat) (l : list A) :
  sql_limit (Z.of_nat K) l = firstn K l.
Proof.
  unfold sql_limit. destruct (Z.ltb_spec (Z.of_nat K) 0); [lia|]. now rewrite Nat2Z.id.
Qed.

(** The first [K] rows of the stable descending sort are a top [K]. *)
Lemma top_k_of_sorted (K : nat) (candidates : list (Z * Z)) :
  top_k_of K candidates (firstn K (order_by_desc snd candidates)) /\
  (length (firstn K (order_by_desc snd candidates)) <= K)%nat.
Proof.
  split; [|apply firstn_le_length].
  exists (skipn K (order_by_desc snd candidates)).
  rewrite firstn_skipn. split; [apply order_by_desc_perm|].
  split; [apply order_by_desc_sorted|].
  split; [intros v; apply (order_by_desc_stable snd)|].
  rewrite length_firstn. f_equal. apply Permutation_length, order_by_desc_perm.
Qed.

Lemma pair_row_map {A} (user value : A -> Z) (l : list A) :
  map (fun r => [VInt (user r); VInt (value r)]) l =
  map pair_row (map (fun r => (user r, value r)) l).
Proof. rewrite map_map. reflexivity. Qed.

(** What the two leaderboard statements return. *)
Lemma message_leaderboard_rows guild_id (K : nat) d :
  let '(query, params) :=
    match guild_given guild_id with
    | Some g => (SQL_message_leaderboard_guild, [VInt g; VInt (Z.of_nat K)])
    | None => (SQL_message_leaderboard_global, [VInt (Z.of_nat K)])
    end in
  exec_sql query params d =
  Ok (map pair_row (firstn K (order_by_desc snd (message_candidates guild_id d))), d).
Proof.
  unfold message_candidates. destruct (guild_given guild_id) as [g|]; cbn [exec_sql].
  - rewrite sql_limit_nat, pair_row_map, <- firstn_map.
    now rewrite (order_by_desc_map (fun r => (msg_user_id r, msg_count r)) snd).
  - now rewrite sql_limit_nat.
Qed.

Lemma voice_leaderboard_rows guild_id (K : nat) now d :
  let '(query, params) :=
    match guild_given guild_id with
    | Some g => (SQL_voice_leaderboard_guild, [VInt now; VInt g; VInt (Z.of_nat K)])
    | None => (SQL_voice_leaderboard_global, [VInt now; VInt (Z.of_nat K)])
    end in
  exec_sql query params d =
  Ok (map pair_row (firstn K (order_by_desc snd (voice_candidates guild_id now d))), d).
Proof.
  unfold voice_candidates. destruct (guild_given guild_id) as [g|]; cbn [exec_sql].
  - rewrite sql_limit_nat, pair_row_map, <- firstn_map.
    now rewrite (order_by_desc_map (fun r => (voice_user_id r, current_total now r)) snd).
  - now rewrite sql_limit_nat.
Qed.

(** A fetch-all query through [execute_query]. *)
Lemma execute_query_fetch_all query params rows m :
  exec_sql query params (db m) = Ok (rows, db m) ->
  fst (execute_query query params false true m) =
  if hd false (faults m) then Raise DatabaseError else Ok (FetchAll rows).
Proof.
  intros Hexec. unfold execute_query, bind, next_fault, gets, modify, raise, ret.
  destruct (faults m) as [|[|] fs]; cbn [hd fst with_faults db]; try reflexivity;
    rewrite Hexec; reflexivity.
Qed.

(** The groups of [GROUP BY user_id] come in ascending [user_id]. *)
Lemma group_add_keys u user v groups :
  In u (map fst (group_add user v groups)) <-> u = user \/ In u (map fst groups).
Proof.
  induction groups as [|[u0 s0] groups IH]; cbn [group_add].
  - simpl. intuition.
  - destruct (u0 =? user) eqn:E; [|destruct (user <? u0)]; simpl.
    + apply Z.eqb_eq in E. subst u0. intuition.
    + intuition.
    + rewrite IH. intuition.
Qed.

Lemma group_add_sorted user v groups :
  StronglySorted Z.lt (map fst groups) ->
  StronglySorted Z.lt (map fst (group_add user v groups)).
Proof.
  induction groups as [|[u0 s0] groups IH]; cbn [group_add]; intros Hs.
  - repeat constructor.
  - cbn [map fst] in Hs. apply StronglySorted_inv in Hs as [Hs Hall].
    destruct (Z.eqb_spec u0 user) as [->|Hne]; [now constructor|].
    destruct (Z.ltb_spec user u0) as [Hlt|Hge]; cbn [map fst].
    + constructor; [now constructor|]. constructor; [exact Hlt|].
      eapply List.Forall_impl; [|exact Hall]. cbv beta. intros x Hx. lia.
    + constructor; [now apply IH|]. rewrite List.Forall_forall in *.
      intros x Hx. apply group_add_keys in Hx as [->|Hx]; [lia | now apply Hall].
Qed.

Lemma group_sum_sorted rows : StronglySorted Z.lt (map fst (group_sum rows)).
Proof.
  unfold group_sum.
  assert (H : forall groups,
             StronglySorted Z.lt (map fst groups) ->
             StronglySorted Z.lt
               (map fst (fold_left (fun groups '(user, v) => group_add user v groups)
                           rows groups))).
  { induction rows as [|[user v] rows IH]; intros groups Hs; cbn [fold_left];
      [exact Hs|]. now apply IH, group_add_sorted. }
  apply H. constructor.
Qed.

(** C2.  For every table state and every limit [K] (a number of rows), the
    message leaderboard query and the voice leaderboard query return the
    top [K]: at most [K] rows, descending in the message count (or in the
    voice total with the running session added), rows of equal value in the
    order the statement meets them, which for the leaderboard over all
    guilds is the ascending order of the user ids.  When the environment
    fails the query, [DatabaseError] is raised instead. *)
Theorem leaderboard_is_top_k (m : DatabaseManager) (guild_id : option Z) (K : nat)
    (now : Z) :
  (exists ranked,
      top_k_of K (message_candidates guild_id (db m)) ranked /\
      (length ranked <= K)%nat /\
      fst (get_message_leaderboard guild_id (Z.of_nat K) m) =
      if hd false (faults m) then Raise DatabaseError
      else Ok (map pair_row ranked)) /\
  (exists ranked,
      top_k_of K (voice_candidates guild_id now (db m)) ranked /\
      (length ranked <= K)%nat /\
      fst (get_voice_leaderboard guild_id (Z.of_nat K) now m) =
      if hd false (faults m) then Raise DatabaseError
      else Ok (map pair_row ranked)) /\
  StronglySorted Z.lt (map fst (message_candidates None (db m))) /\
  StronglySorted Z.lt (map fst (voice_candidates None now (db m))).
Proof.
  split; [|split; [|split; apply group_sum_sorted]].
  - exists (firstn K (order_by_desc snd (message_candidates guild_id (db m)))).
    destruct (top_k_of_sorted K (message_candidates guild_id (db m))) as [Htop Hlen].
    split; [exact Htop|]. split; [exact Hlen|].
    pose proof (message_leaderboard_rows guild_id K (db m)) as Hrows.
    unfold get_message_leaderboard.
    destruct (match guild_given guild_id with Some g => _ | None => _ end)
      as [query params].
    unfold bind at 1.
    pose proof (execute_query_fetch_all query params _ m Hrows) as Hq.
    destruct (execute_query query params false true m) as [[r|e] m'];
      cbn [fst] in *; destruct (hd false (faults m)); try discriminate;
      [injection Hq as ->; reflexivity | injection Hq as ->; reflexivity].
  - exists (firstn K (order_by_desc snd (voice_candidates guild_id now (db m)))).
    destruct (top_k_of_sorted K (voice_candidates guild_id now (db m))) as [Htop Hlen].
    split; [exact Htop|]. split; [exact Hlen|].
    pose proof (voice_leaderboard_rows guild_id K now (db m)) as Hrows.
    unfold get_voice_leaderboard.
    destruct (match guild_given guild_id with Some g => _ | None => _ end)
      as [query params].
    unfold bind at 1.
    pose proof (execute_query_fetch_all query params _ m Hrows) as Hq.
    destruct (execute_query query params false true m) as [[r|e] m'];
      cbn [fst] in *; destruct (hd false (faults m)); try discriminate;
      [injection Hq as ->; reflexivity | injection Hq as ->; reflexivity].
Qed.

(** *** Voice sessions *)

Lemma head_map_filter {A B} (f : A -> B) (p : A -> bool) l :
  head (map f (List.filter p l)) = option_map f (List.find p l).
Proof.
  induction l as [|x l IH]; simpl; [reflexivity|]. now destruct (p x).
Qed.

Lemma find_map_same_test {A} (p : A -> bool) (f : A -> A) l :
  (forall x, p (f x) = p x) ->
  List.find p (map f l) = option_map f (List.find p l).
Proof.
  intros H. induction l as [|x l IH]; simpl; [reflexivity|].
  rewrite H. now destruct (p x).
Qed.

(** The join statement, as [update_voice_join] binds it, changes no stored
    total and opens the session of its own row. *)
Lemma exec_voice_join u g t t' d :
  exists d',
    exec_sql SQL_voice_join [VInt u; VInt g; VInt u; VInt g; VInt t; VInt t'] d
      = Ok ([], d') /\
    (forall user guild, stored_total user guild d' = stored_total user guild d) /\
    voice_row u g d' = Some (mkVoiceRow u g (stored_total u g d) (Some t) t').
Proof.
  eexists. split; [reflexivity|]. split.
  - intros user guild. unfold stored_total, voice_row. cbn [voice with_voice].
    rewrite find_app. destruct ((u =? user) && (g =? guild)) eqn:E.
    + assert (u = user /\ g = guild) as [-> ->] by lia.
      rewrite find_filter_excluded by (intros x ->; reflexivity).
      simpl. unfold voice_key_is at 1. simpl. now rewrite !Z.eqb_refl.
    + rewrite find_filter_included.
      * destruct (List.find (voice_key_is user guild) (voice d)); [reflexivity|].
        simpl. unfold voice_key_is at 1. simpl.
        now replace ((u =? user) && (g =? guild)) with false.
      * intros x Hx. unfold voice_key_is in *. lia.
  - unfold voice_row, stored_total, voice_row. cbn [voice with_voice].
    rewrite find_app, find_filter_excluded by (intros x ->; reflexivity).
    simpl. unfold voice_key_is at 1. simpl. now rewrite !Z.eqb_refl.
Qed.

(** [update_voice_join], then a turn of the batch task. *)
Lemma join_then_flush u g t t' d :
  db (snd (_process_batch_operations 1 (snd (update_voice_join u g t t' (init d [])))))
  = match exec_sql SQL_voice_join [VInt u; VInt g; VInt u; VInt g; VInt t; VInt t'] d with
    | Ok (_, d') => d'
    | Raise _ => d
    end.
Proof. reflexivity. Qed.

(** [update_voice_leave] on an open session, then a turn of the batch
    task. *)
Lemma leave_then_flush u g now d r j :
  voice_row u g d = Some r ->
  voice_join_time r = Some j ->
  j <> 0 ->
  db (snd (_process_batch_operations 1 (snd (update_voice_leave u g now (init d [])))))
  = with_voice
      (map (fun r' =>
              if voice_key_is u g r'
              then mkVoiceRow (voice_user_id r') (voice_guild_id r')
                     (voice_total_time r + (now - j)) None now
              else r')
         (voice d)) d.
Proof.
  intros Hrow Hjoin Hj.
  unfold update_voice_leave, execute_query, bind, next_fault, gets, modify, ret.
  cbn [faults init db exec_sql with_db]. rewrite head_map_filter.
  unfold voice_row in Hrow. rewrite Hrow. cbn [option_map]. rewrite Hjoin.
  cbn [opt_int]. destruct (j =? 0) eqn:E; [lia|]. reflexivity.
Qed.

(** C3.  (1) While a session is open the reported total is
    [total_time + (now - join_time)], in the leaderboard statement and in
    [UserVoiceStats] alike; (2) it does not decrease as [now] advances;
    (3) a join leaves every stored [total_time] as it is and opens the
    session, and reading the leaderboard leaves the database as it is;
    (4) a leave of an open session adds the length of the session to
    [total_time] and closes it; (5) on a closed row the reported total is
    [total_time] at every time. *)
Theorem voice_total_over_a_session :
  (forall r now j,
      voice_join_time r = Some j ->
      current_total now r = voice_total_time r + (now - j) /\
      Models.total_time_including_current now (Models.from_db_row r)
        = voice_total_time r + (now - j)) /\
  (forall r now1 now2,
      now1 <= now2 ->
      current_total now1 r <= current_total now2 r /\
      Models.total_time_including_current now1 (Models.from_db_row r)
        <= Models.total_time_including_current now2 (Models.from_db_row r)) /\
  (forall d u g t t',
      let d' :=
        db (snd (_process_batch_operations 1
                   (snd (update_voice_join u g t t' (init d []))))) in
      (forall user guild, stored_total user guild d' = stored_total user guild d) /\
      voice_row u g d' = Some (mkVoiceRow u g (stored_total u g d) (Some t) t')) /\
  (forall m guild_id limit now,
      db (snd (get_voice_leaderboard guild_id limit now m)) = db m) /\
  (forall d u g now r j,
      voice_row u g d = Some r ->
      voice_join_time r = Some j ->
      j <> 0 ->
      let d' :=
        db (snd (_process_batch_operations 1
                   (snd (update_voice_leave u g now (init d []))))) in
      voice_row u g d' =
        Some (mkVoiceRow (voice_user_id r) (voice_guild_id r)
                (voice_total_time r + (now - j)) None now)) /\
  (forall r now,
      voice_join_time r = None ->
      current_total now r = voice_total_time r /\
      Models.total_time_including_current now (Models.from_db_row r)
        = voice_total_time r).
Proof.
  repeat apply conj.
  - intros r now j Hj. unfold current_total, Models.total_time_including_current,
      Models.current_session_time, Models.is_in_voice. cbn. now rewrite Hj.
  - intros r now1 now2 Hle. unfold current_total, Models.total_time_including_current,
      Models.current_session_time, Models.is_in_voice. cbn.
    destruct (voice_join_time r); cbn; lia.
  - intros d u g t t' d'. subst d'. rewrite join_then_flush.
    destruct (exec_voice_join u g t t' d) as (d' & -> & Htotal & Hrow). now split.
  - intros m guild_id limit now. unfold get_voice_leaderboard.
    destruct (guild_given guild_id) as [g|];
      unfold execute_query, bind, next_fault, gets, modify, raise, ret;
      destruct (faults m) as [|[|] fs]; reflexivity.
  - intros d u g now r j Hrow Hjoin Hj d'. subst d'.
    rewrite (leave_then_flush u g now d r j Hrow Hjoin Hj).
    unfold voice_row in *. cbn [voice with_voice].
    rewrite find_map_same_test.
    + rewrite Hrow. cbn [option_map].
      apply find_some in Hrow as [_ ->]. reflexivity.
    + intros x. destruct (voice_key_is u g x) eqn:E; [|exact E]. exact E.
  - intros r now Hj. unfold current_total, Models.total_time_including_current,
      Models.current_session_time, Models.is_in_voice. cbn. rewrite Hj. cbn. lia.
Qed.

(** *** The theorems at work *)

Lemma increments_are_counted_witness :
  List.find (msg_key_is 7 1) (messages empty_db) = None /\
  stored_count 7 1
    (db (run_events (map Flush [5%nat])
           (run_events
              [Inc 7 1 100 1000; Inc 8 1 100 1001; Flush 5; Inc 7 1 101 1002]
              (init empty_db []))))
  = 2 /\
  exists m',
    close (TaskEnds 1)
      (run_events [Inc 7 1 100 1000; Inc 8 1 100 1001; Flush 5; Inc 7 1 101 1002]
         (init empty_db []))
    = Some (Ok tt, m') /\
    stored_count 7 1 (db m') = 1.
Proof.
  split; [reflexivity|].
  destruct (increments_are_counted empty_db
              [Inc 7 1 100 1000; Inc 8 1 100 1001; Flush 5; Inc 7 1 101 1002] 7 1)
    as (_ & Hturns & Hclose); [reflexivity|].
  split.
  - apply (Hturns [5%nat]); [repeat constructor | simpl; lia].
  - destruct (Hclose 1%nat) as (m' & Hm' & Hstored).
    exists m'. split; [exact Hm' | exact Hstored].
Defined.

Lemma voice_total_over_a_session_witness :
  voice_row 42 1 Samples.open_session = Some (mkVoiceRow 42 1 600 (Some 1000) 1000) /\
  current_total 1200 (mkVoiceRow 42 1 600 (Some 1000) 1000) = 600 + (1200 - 1000) /\
  current_total 1200 (mkVoiceRow 42 1 600 (Some 1000) 1000)
    <= current_total 1500 (mkVoiceRow 42 1 600 (Some 1000) 1000) /\
  voice_row 42 1
    (db (snd (_process_batch_operations 1
                (snd (update_voice_leave 42 1 1600 (init Samples.open_session []))))))
  = Some (mkVoiceRow 42 1 (600 + (1600 - 1000)) None 1600) /\
  current_total 9999 (mkVoiceRow 42 1 1200 None 1600) = 1200.
Proof.
  destruct voice_total_over_a_session as (Hopen & Hmono & _ & _ & Hleave & Hclosed).
  split; [reflexivity|]. split; [|split; [|split]].
  - apply (Hopen (mkVoiceRow 42 1 600 (Some 1000) 1000) 1200 1000). reflexivity.
  - apply (Hmono (mkVoiceRow 42 1 600 (Some 1000) 1000) 1200 1500). discriminate.
  - apply (Hleave Samples.open_session 42 1 1600
             (mkVoiceRow 42 1 600 (Some 1000) 1000) 1000);
      [reflexivity | reflexivity | discriminate].
  - apply (Hclosed (mkVoiceRow 42 1 1200 None 1600) 9999). reflexivity.
Defined.

(** A negative limit is no limit: the statement then returns every row. *)
Lemma negative_limit_returns_all :
  fst (get_message_leaderboard (Some 1) (-1)
         (init (mkDatabase
                  [mkMessageRow 1 1 7 3 1000; mkMessageRow 2 1 7 9 1000;
                   mkMessageRow 3 1 7 5 1000]
                  [] ∅ ∅) []))
  = Ok [[VInt 2; VInt 9]; [VInt 3; VInt 5]; [VInt 1; VInt 3]].
Proof. reflexivity. Qed.

End DbProps.

(** ** The service *)

Module ServiceProps.

Import Models Service Samples.

(** *** Cache keys *)

Lemma contains_char_app c a b :
  contains_char c (a +:+ b) = contains_char c a || contains_char c b.
Proof.
  induction a as [|x a IH]; simpl; [reflexivity|].
  now rewrite IH, orb_assoc.
Qed.

Lemma digits_no_underscore d :
  contains_char "_" (NilEmpty.string_of_uint d) = false.
Proof. induction d; simpl; auto. Qed.

Lemma str_of_int_no_underscore n : contains_char "_" (str_of_int n) = false.
Proof.
  unfold str_of_int, NilZero.string_of_int, NilZero.string_of_uint.
  destruct (Z.to_int n) as [d|d]; destruct d; simpl;
    auto using digits_no_underscore.
Qed.

Lemma append_inj_l p a b : p +:+ a = p +:+ b -> a = b.
Proof. induction p as [|x p IH]; simpl; [auto|]. intros [= H]. auto. Qed.

(** No key under which a leaderboard is cached is a key that
    [track_message] deletes. *)
Lemma leaderboard_key_not_invalidated user_id guild_id guild_id' limit :
  ~ In (leaderboard_cache_key "message" guild_id' limit)
       (track_message_cache_keys user_id guild_id).
Proof.
  unfold leaderboard_cache_key, track_message_cache_keys.
  set (who := match Db.guild_given guild_id' with
              | Some g => str_of_int g
              | None => "global"
              end).
  change ("message" +:+ "_leaderboard_" +:+ who +:+ "_" +:+ str_of_int limit)
    with ("message_leaderboard_" +:+ (who +:+ "_" +:+ str_of_int limit)).
  assert (Hhas : contains_char "_" (who +:+ "_" +:+ str_of_int limit) = true).
  { rewrite !contains_char_app. simpl. apply orb_true_r. }
  intros [H|[H|[H|[]]]].
  - apply append_inj_l in H. rewrite <- H, str_of_int_no_underscore in Hhas.
    discriminate.
  - change "message_leaderboard_global" with ("message_leaderboard_" +:+ "global") in H.
    apply append_inj_l in H. rewrite <- H in Hhas. discriminate.
  - discriminate.
Qed.

(** *** Methods that leave a cache entry alone *)

Section Frame.

Variable key : string.

Lemma keeps_ret {A} (a : A) : keeps_cached_entry key (ret a).
Proof. intros s. reflexivity. Qed.

Lemma keeps_raise {A} e : keeps_cached_entry key (@raise _ A e).
Proof. intros s. reflexivity. Qed.

Lemma keeps_gets {A} (f : LeaderboardService -> A) : keeps_cached_entry key (gets f).
Proof. intros s. reflexivity. Qed.

Lemma keeps_bind {A B} (m : M LeaderboardService A) (k : A -> M LeaderboardService B) :
  keeps_cached_entry key m ->
  (forall a, keeps_cached_entry key (k a)) ->
  keeps_cached_entry key (bind m k).
Proof.
  intros Hm Hk s. unfold bind. specialize (Hm s).
  destruct (m s) as [[a|e] s1]; cbn [snd] in *; [|exact Hm].
  now rewrite Hk.
Qed.

Lemma keeps_try_except {A} (m : M LeaderboardService A) handler :
  keeps_cached_entry key m ->
  (forall e, keeps_cached_entry key (handler e)) ->
  keeps_cached_entry key (try_except m handler).
Proof.
  intros Hm Hh s. unfold try_except. specialize (Hm s).
  destruct (m s) as [[a|e] s1]; cbn [snd] in *; [exact Hm|].
  now rewrite Hh.
Qed.

Lemma keeps_on_db {A} (m : M Db.DatabaseManager A) :
  keeps_cached_entry key (on_db m).
Proof. intros s. unfold on_db. now destruct (m (db_manager s)). Qed.

Lemma keeps_modify (f : LeaderboardService -> LeaderboardService) :
  (forall s, cache_service (f s) = cache_service s) ->
  keeps_cached_entry key (modify f).
Proof. intros H s. unfold modify, cached_entry. cbn [snd]. now rewrite H. Qed.

Lemma keeps_delete k : key <> k -> keeps_cached_entry key (on_cache (Cache.delete k)).
Proof.
  intros Hne s. unfold on_cache, Cache.delete, cached_entry.
  destruct (Cache.od_mem k (Cache._cache (cache_service s))); [|reflexivity].
  cbn. now apply CacheProps.od_get_del_other.
Qed.

Lemma keeps_delete_keys ks : ~ In key ks -> keeps_cached_entry key (delete_keys ks).
Proof.
  induction ks as [|k ks IH]; intros Hnotin; cbn [delete_keys].
  - apply keeps_ret.
  - apply keeps_bind.
    + apply keeps_delete. intros ->. apply Hnotin. now left.
    + intros _. apply IH. intros Hin. apply Hnotin. now right.
Qed.

Lemma keeps_cache_user_if_needed user_id now :
  keeps_cached_entry key (_cache_user_if_needed user_id now).
Proof.
  unfold _cache_user_if_needed. apply keeps_try_except; [|intros; apply keeps_ret].
  apply keeps_bind; [apply keeps_on_db|]. intros cached.
  apply keeps_bind; [apply keeps_gets|]. intros b.
  destruct cached, b as [b|]; try apply keeps_ret.
  destruct (get_user b user_id); [apply keeps_on_db | apply keeps_ret].
Qed.

Lemma keeps_check_rate_limit user_id operation_type now :
  keeps_cached_entry key (_check_rate_limit user_id operation_type now).
Proof.
  unfold _check_rate_limit.
  apply keeps_bind; [apply keeps_gets|]. intros cfg.
  apply keeps_bind; [apply keeps_gets|]. intros tracker.
  match goal with |- context [if ?c then _ else _] => destruct c end;
    (apply keeps_bind; [now apply keeps_modify | intros; apply keeps_ret]).
Qed.

Lemma keeps_track_message user_id guild_id channel_id now :
  ~ In key (track_message_cache_keys user_id guild_id) ->
  keeps_cached_entry key (track_message user_id guild_id channel_id now).
Proof.
  intros Hnotin. unfold track_message.
  apply keeps_try_except; [|intros; apply keeps_ret].
  apply keeps_bind; [apply keeps_gets|]. intros cfg.
  destruct (negb (ENABLE_MESSAGE_TRACKING cfg)); [apply keeps_ret|].
  apply keeps_bind; [apply keeps_check_rate_limit|]. intros allowed.
  destruct (negb allowed); [apply keeps_ret|].
  apply keeps_bind; [apply keeps_on_db|]. intros _.
  apply keeps_bind; [apply keeps_gets|]. intros b.
  apply keeps_bind.
  { destruct b; [apply keeps_cache_user_if_needed | apply keeps_ret]. }
  intros _. apply keeps_bind; [now apply keeps_delete_keys|]. intros _.
  now apply keeps_modify.
Qed.

End Frame.

(** C10.  For every guild and limit, the key under which
    [get_message_leaderboard] caches its result is none of the keys
    [track_message] deletes, whatever message is tracked; so the entry under
    that key is the same after [track_message] as before, and a [get] of
    the key answers after it what it answered before, at every time. *)
Theorem track_message_keeps_cached_leaderboard
    (s : LeaderboardService) (user_id guild_id channel_id : Z) (now : Q)
    (guild_id' : option Z) (limit : Z) (t : Q) :
  let key := leaderboard_cache_key "message" guild_id' limit in
  let s' := snd (track_message user_id guild_id channel_id now s) in
  ~ In key (track_message_cache_keys user_id guild_id) /\
  cached_entry key s' = cached_entry key s /\
  fst (Cache.get t key (cache_service s')) = fst (Cache.get t key (cache_service s)).
Proof.
  intros key s'.
  pose proof (leaderboard_key_not_invalidated user_id guild_id guild_id' limit) as Hkey.
  fold key in Hkey.
  pose proof (keeps_track_message key user_id guild_id channel_id now Hkey s) as Hkeep.
  fold s' in Hkeep. split; [exact Hkey|]. split; [exact Hkeep|].
  unfold cached_entry in Hkeep. unfold Cache.get. rewrite Hkeep.
  destruct (Cache.od_get key (Cache._cache (cache_service s))) as [entry|];
    [|reflexivity].
  now destruct (Cache.is_expired t entry).
Qed.

(** *** The reset *)

(** The reset check only reads: without a failure it answers and leaves the
    database as it is. *)
Lemma should_reset_reads_only days t m :
  Db.faults m = [] ->
  exists b,
    Db.should_reset_leaderboard days t m = (Ok b, Db.count_individual 1 m).
Proof.
  destruct m as [d q st f]. cbn [Db.faults]. intros ->.
  unfold Db.should_reset_leaderboard, Db.get_setting, Db.execute_query,
    try_except, bind, Db.next_fault, gets, modify, raise, ret.
  cbn [Db.faults Db.db Db.exec_sql Db.with_db].
  destruct (Db.settings d !! "last_leaderboard_reset") as [[v upd]|];
    cbn [head]; [|now exists true].
  destruct v as [|a v]; [now exists true|].
  destruct (int_of_str (String a v)); [|now exists false].
  eexists. reflexivity.
Qed.

(** C5, as amended.  When the reset is due and no statement fails, it
    returns normally with both counter tables empty, the time of the reset
    recorded under [last_leaderboard_reset], and the cache empty.  (The
    four statements are committed one after the other and the cache is
    cleared last, so a failure in between leaves the earlier statements
    done and the cache as it was.) *)
Theorem reset_clears_counters_and_cache (s : LeaderboardService) (now : Q) :
  Db.faults (db_manager s) = [] ->
  fst (Db.should_reset_leaderboard (LEADERBOARD_REFRESH_DAYS (config s))
         (int_of_time now) (db_manager s)) = Ok true ->
  let s' := snd (reset_if_due now s) in
  fst (reset_if_due now s) = Ok tt /\
  Db.messages (Db.db (db_manager s')) = [] /\
  Db.voice (Db.db (db_manager s')) = [] /\
  Db.settings (Db.db (db_manager s')) !! "last_leaderboard_reset"
    = Some (str_of_int (int_of_time now), int_of_time now) /\
  Cache._cache (cache_service s') = [].
Proof.
  intros Hf Hdue s'. subst s'. unfold reset_if_due, bind, gets, on_db.
  destruct (should_reset_reads_only (LEADERBOARD_REFRESH_DAYS (config s))
              (int_of_time now) (db_manager s) Hf) as [b Hcheck].
  rewrite Hcheck in Hdue |- *. cbn [fst] in Hdue. injection Hdue as ->.
  destruct s as [[d q st f] c cfg tr me bt]. cbn [db_manager Db.faults] in Hf.
  subst f. cbn. repeat split. apply lookup_insert_eq.
Qed.

(** *** Database errors on reads *)

Lemma get_message_leaderboard_unfold s guild_id limit now s0 cached c' :
  let lim :=
    Z.min (match limit with None => LEADERBOARD_SIZE (config s) | Some l => l end) 10 in
  let key := leaderboard_cache_key "message" guild_id lim in
  reset_if_due now s = (Ok tt, s0) ->
  Cache.get now key (cache_service s0) = (cached, c') ->
  get_message_leaderboard guild_id limit now s =
  match cached with
  | Some ((_ :: _) as entries) =>
      (Ok entries, with_metrics count_hit (with_cache_service c' s0))
  | _ =>
      read_and_cache guild_id lim key now
        (with_metrics count_miss (with_cache_service c' s0))
  end.
Proof.
  intros lim key Hr Hg.
  unfold get_message_leaderboard, bind, gets, on_cache, modify, ret.
  fold lim. fold key. rewrite Hr, Hg.
  destruct cached as [[|entry entries]|]; reflexivity.
Qed.

Lemma read_and_cache_returns guild_id lim key now s1 :
  (exists entries, fst (read_and_cache guild_id lim key now s1) = Ok entries) /\
  (is_ok (fst (Db.get_message_leaderboard guild_id lim (db_manager s1))) = false ->
   fst (read_and_cache guild_id lim key now s1) = Ok []).
Proof.
  unfold read_and_cache. split.
  - unfold try_except.
    match goal with
    | |- context [let (_, _) := ?m s1 in _] => destruct (m s1) as [[a|e] s2]
    end; cbn; eauto.
  - intros Hfail. unfold try_except, bind at 1, on_db.
    destruct (Db.get_message_leaderboard guild_id lim (db_manager s1))
      as [[rows|e] m']; [discriminate|]. reflexivity.
Qed.

(** C6, as amended.  Past the reset check, the service's
    [get_message_leaderboard] never raises; and when the cache holds no
    list of entries under the key and the database read fails, it returns
    the empty list.  (The read methods of [DatabaseManager] themselves log
    the error and raise it again.) *)
Theorem leaderboard_read_error_gives_empty (s : LeaderboardService)
    (guild_id limit : option Z) (now : Q) :
  fst (reset_if_due now s) = Ok tt ->
  let s0 := snd (reset_if_due now s) in
  let lim :=
    Z.min (match limit with None => LEADERBOARD_SIZE (config s) | Some l => l end) 10 in
  let key := leaderboard_cache_key "message" guild_id lim in
  (exists entries, fst (get_message_leaderboard guild_id limit now s) = Ok entries) /\
  (match fst (Cache.get now key (cache_service s0)) with
   | Some (_ :: _) => False
   | _ => True
   end ->
   is_ok (fst (Db.get_message_leaderboard guild_id lim (db_manager s0))) = false ->
   fst (get_message_leaderboard guild_id limit now s) = Ok []).
Proof.
  intros Hreset s0 lim key.
  destruct (reset_if_due now s) as [r0 s0'] eqn:Er. cbn [fst snd] in *.
  subst r0 s0.
  destruct (Cache.get now key (cache_service s0')) as [cached c'] eqn:Eg.
  rewrite (get_message_leaderboard_unfold s guild_id limit now s0' cached c' Er Eg).
  fold lim. fold key. cbn [fst].
  destruct (read_and_cache_returns guild_id lim key now
              (with_metrics count_miss (with_cache_service c' s0'))) as [H1 H2].
  destruct cached as [[|entry entries]|].
  - split; [exact H1 | intros _; exact H2].
  - split; [cbn; eauto | intros []].
  - split; [exact H1 | intros _; exact H2].
Qed.

(** C5, as stated, fails.  The reset is due and the database fails on the
    third statement (the second of the reset): the caller of
    [get_message_leaderboard] gets the exception, and finds the message
    counters wiped, the voice counters in place, the stale leaderboard
    still cached and no reset recorded. *)
Lemma reset_stops_half_way :
  let '(r, s') := get_message_leaderboard (Some 1) None 5000 failing_third in
  r = Raise DatabaseError /\
  Db.messages (Db.db (db_manager s')) = [] /\
  Db.voice (Db.db (db_manager s')) = [Db.mkVoiceRow 42 1 600 None 1000] /\
  Cache.keys (cache_service s') = ["message_leaderboard_1_10"] /\
  Db.settings (Db.db (db_manager s')) !! "last_leaderboard_reset" = None.
Proof. vm_compute. repeat split. Qed.

Lemma reset_clears_counters_and_cache_witness :
  Db.faults (db_manager never_reset) = [] /\
  fst (Db.should_reset_leaderboard 30 5000 (db_manager never_reset)) = Ok true /\
  Db.messages (Db.db (db_manager (snd (reset_if_due 5000 never_reset)))) = [] /\
  Cache._cache (cache_service (snd (reset_if_due 5000 never_reset))) = [].
Proof.
  split; [reflexivity|]. split; [reflexivity|].
  destruct (reset_clears_counters_and_cache never_reset 5000)
    as (_ & Hm & _ & _ & Hc); [reflexivity | reflexivity |].
  split; [exact Hm | exact Hc].
Defined.

(** C6, as stated, fails: on a database error the read methods of
    [DatabaseManager] raise, they do not return an empty result. *)
Lemma manager_read_raises :
  fst (Db.get_message_leaderboard (Some 1) 10 (Db.init some_activity [true]))
    = Raise DatabaseError /\
  fst (Db.get_voice_leaderboard (Some 1) 10 5000 (Db.init some_activity [true]))
    = Raise DatabaseError /\
  fst (Db.get_setting "last_leaderboard_reset" (Db.init some_activity [true]))
    = Raise DatabaseError /\
  fst (Db.get_cached_user 42 (Db.init some_activity [true])) = Raise DatabaseError.
Proof. repeat split. Qed.

Lemma leaderboard_read_error_gives_empty_witness :
  fst (reset_if_due 5000 failing_read) = Ok tt /\
  is_ok (fst (Db.get_message_leaderboard (Some 1) 10
                (db_manager (snd (reset_if_due 5000 failing_read))))) = false /\
  fst (get_message_leaderboard (Some 1) None 5000 failing_read) = Ok [].
Proof.
  split; [reflexivity|]. split; [reflexivity|].
  apply (leaderboard_read_error_gives_empty failing_read (Some 1) None 5000);
    [reflexivity | vm_compute; exact I | reflexivity].
Defined.

(** *** Display names *)

(** [_get_username] never raises. *)
Lemma get_username_returns s user_id now :
  exists name, fst (_get_username user_id now s) = Ok name.
Proof.
  unfold _get_username, try_except.
  match goal with
  | |- context [let (_, _) := ?m s in _] => destruct (m s) as [[a|e] s1]
  end; cbn; eauto.
Qed.

(** C7 at the failing input.  User 42 is in the persisted user cache as
    "alice"; the client does not know the user locally.  When the API call
    answers "not found" the persisted name is used; when it fails with
    another HTTP error the persisted cache is not consulted and the
    placeholder is returned. *)
Theorem username_lost_on_http_error :
  fst (Db.get_cached_user 42 (db_manager with_unreachable_directory))
    = Ok (Some ("alice", "")) /\
  fst (_get_username 42 5000 with_unreachable_directory) = Ok "Unknown User" /\
  fst (_get_username 42 5000 with_unknown_to_directory) = Ok "alice".
Proof. repeat split. Qed.

End ServiceProps.

(** ** More on the cache *)

Module CacheFacts.

Import Cache CacheProps Samples.

Ltac case_gtb :=
  match goal with
  | |- context [?a >? ?b] => destruct (Z.gtb_spec a b)
  end.

Section WithValue.

Context {V : Type}.

Implicit Types (d : odict V) (c : CacheService V) (e : CacheEntry V).
Implicit Types (key k : string).

Lemma od_del_as_filter key d :
  od_del key d = List.filter (fun kv => negb (String.eqb key (fst kv))) d.
Proof.
  induction d as [|[k e] d IH]; simpl; [reflexivity|].
  destruct (String.eqb key k); simpl; now rewrite IH.
Qed.

Lemma od_keys_del key d :
  od_keys (od_del key d) = List.filter (fun k => negb (String.eqb key k)) (od_keys d).
Proof.
  induction d as [|[k e] d IH]; simpl; [reflexivity|].
  destruct (String.eqb key k); simpl; now rewrite IH.
Qed.

Lemma od_mem_false key d : od_mem key d = false -> od_get key d = None.
Proof. unfold od_mem. now destruct (od_get key d). Qed.

(** X1.  [delete] answers whether the key was cached; after it the key is
    not found at any time, every other key has the entry it had, and the
    order of the remaining keys is the order they had. *)
Theorem delete_forgets_its_key_only c key :
  fst (delete key c) = od_mem key (_cache c) /\
  (forall t, fst (get t key (snd (delete key c))) = None) /\
  (forall k, k <> key ->
     od_get k (_cache (snd (delete key c))) = od_get k (_cache c)) /\
  keys (snd (delete key c)) =
    List.filter (fun k => negb (String.eqb key k)) (keys c).
Proof.
  unfold delete, keys. destruct (od_mem key (_cache c)) eqn:E;
    cbn [fst snd _cache with_stats with_cache].
  - split; [reflexivity|]. split; [|split].
    + intros t. unfold get. cbn [_cache with_stats with_cache].
      now rewrite od_get_del_same.
    + intros k Hk. now apply od_get_del_other.
    + apply od_keys_del.
  - apply od_mem_false in E. split; [reflexivity|]. split; [|split].
    + intros t. unfold get. now rewrite E.
    + reflexivity.
    + rewrite <- od_keys_del. now rewrite od_del_absent.
Qed.

(** X2.  A [set] that finds room (the other keys number less than
    [max_size]) returns normally and evicts nothing: the key goes to the
    back with its new entry and every other key keeps its entry and its
    place. *)
Theorem set_with_room_evicts_nothing c now key (v : V) ttl :
  Z.of_nat (length (od_del key (_cache c))) < max_size c ->
  fst (set now key v ttl c) = Ok tt /\
  _cache (snd (set now key v ttl c)) =
    od_del key (_cache c) ++ [(key, stored_entry c now v ttl)] /\
  (forall k, k <> key ->
     od_get k (_cache (snd (set now key v ttl c))) = od_get k (_cache c)).
Proof.
  intros Hroom.
  assert (Hset : set now key v ttl c =
                 (Ok tt, with_stats (add_sets 1)
                           (with_cache (od_del key (_cache c)
                                        ++ [(key, stored_entry c now v ttl)]) c))).
  { unfold set, _evict_if_needed.
    assert (Hd0 : (if od_mem key (_cache c) then od_del key (_cache c) else _cache c)
                  = od_del key (_cache c)).
    { destruct (od_mem key (_cache c)) eqn:E; [reflexivity|].
      symmetry. now apply od_del_absent, od_mem_false. }
    rewrite Hd0, (od_setitem_absent _ _ _ (od_get_del_same key (_cache c))).
    cbn [max_size _cache _stats with_cache default_ttl].
    fold (stored_entry c now v ttl).
    rewrite evict_loop_within; [reflexivity|].
    rewrite length_app. simpl. lia. }
  rewrite Hset. cbn [fst snd _cache with_stats with_cache].
  split; [reflexivity|]. split; [reflexivity|].
  intros k Hk. rewrite od_get_app, (od_get_del_other _ _ _ Hk).
  destruct (od_get k (_cache c)); [reflexivity|].
  simpl. destruct (String.eqb k key) eqn:E; [|reflexivity].
  apply String.eqb_eq in E. contradiction.
Qed.

Lemma evict_loop_without_room max d s :
  max <= 0 ->
  exists s',
    evict_loop max d s =
    ((if max <? 0 then Raise StopIteration else Ok tt), ([], s')).
Proof.
  intros Hmax. revert s. induction d as [|[k e] d IH]; intros s.
  - exists s. cbn [evict_loop length]. case_gtb.
    + destruct (Z.ltb_spec max 0); [reflexivity | simpl in *; lia].
    + destruct (Z.ltb_spec max 0); [simpl in *; lia | reflexivity].
  - cbn [evict_loop]. case_gtb; [apply IH|]. simpl length in *. lia.
Qed.

(** X3.  On a cache whose [max_size] is zero or negative nothing is ever
    kept: [set] leaves the cache empty, and when [max_size] is negative it
    raises [StopIteration] (the eviction loop reaches the empty
    dictionary). *)
Theorem set_on_cache_without_room c now key (v : V) ttl :
  max_size c <= 0 ->
  _cache (snd (set now key v ttl c)) = [] /\
  fst (set now key v ttl c) =
    if max_size c <? 0 then Raise StopIteration else Ok tt.
Proof.
  intros Hmax. unfold set, _evict_if_needed.
  cbn [max_size _cache _stats with_cache default_ttl].
  match goal with
  | |- context [evict_loop (max_size c) ?d ?s] =>
      destruct (evict_loop_without_room (max_size c) d s Hmax) as [s' ->]
  end.
  destruct (max_size c <? 0); split; reflexivity.
Qed.

(** *** Expired entries *)

Lemma filter_filter {A} (f g : A -> bool) l :
  List.filter f (List.filter g l) = List.filter (fun x => g x && f x) l.
Proof.
  induction l as [|x l IH]; simpl; [reflexivity|].
  destruct (g x); simpl; [destruct (f x)|]; now rewrite IH.
Qed.

Lemma filter_all {A} (l : list A) : List.filter (fun _ => true) l = l.
Proof. induction l as [|x l IH]; simpl; [reflexivity|]. now rewrite IH. Qed.

Lemma fold_del_as_filter (ks : list string) d :
  fold_left (fun d key => od_del key d) ks d =
  List.filter (fun kv => negb (existsb (String.eqb (fst kv)) ks)) d.
Proof.
  revert d. induction ks as [|k ks IH]; intros d; simpl.
  - now rewrite filter_all.
  - rewrite IH, od_del_as_filter, filter_filter.
    apply List.filter_ext. intros [k' e]. simpl.
    rewrite (String.eqb_sym k k'). now rewrite negb_orb.
Qed.

Lemma od_wf_unique k e e' d :
  od_wf d -> In (k, e) d -> In (k, e') d -> e = e'.
Proof.
  unfold od_wf. induction d as [|[k0 e0] d IH]; simpl; [tauto|].
  intros Hnd. apply NoDup_cons_iff in Hnd as [Hnotin Hnd].
  intros [H1|H1] [H2|H2].
  - congruence.
  - injection H1 as -> ->. exfalso. apply Hnotin.
    change k with (fst (k, e')). now apply in_map.
  - injection H2 as -> ->. exfalso. apply Hnotin.
    change k with (fst (k, e)). now apply in_map.
  - now apply IH.
Qed.

Lemma expired_key_iff (p : string * CacheEntry V -> bool) k e d :
  od_wf d -> In (k, e) d ->
  existsb (String.eqb k) (map fst (List.filter p d)) = p (k, e).
Proof.
  intros Hwf Hin. destruct (p (k, e)) eqn:Ep.
  - apply existsb_exists. exists k. split; [|apply String.eqb_refl].
    change k with (fst (k, e)). apply in_map. apply filter_In. now split.
  - apply not_true_iff_false. intros Hex.
    apply existsb_exists in Hex as (k' & Hin' & Heq).
    apply String.eqb_eq in Heq. subst k'.
    apply in_map_iff in Hin' as ([k1 e1] & Hk & Hin1). simpl in Hk. subst k1.
    apply filter_In in Hin1 as [Hin1 Hp].
    rewrite (od_wf_unique k e e1 d Hwf Hin Hin1) in Ep. congruence.
Qed.

(** X4.  [cleanup_expired] on a cache (a key occurs once): it returns the
    number of entries that are expired at the time of the sweep, and leaves
    exactly the entries that are not, in the order they had. *)
Theorem cleanup_expired_removes_the_expired c now :
  od_wf (_cache c) ->
  fst (cleanup_expired now c) =
    length (List.filter (fun kv => is_expired now (snd kv)) (_cache c)) /\
  _cache (snd (cleanup_expired now c)) =
    List.filter (fun kv => negb (is_expired now (snd kv))) (_cache c).
Proof.
  intros Hwf. unfold cleanup_expired. cbn [fst snd].
  assert (Hp : List.filter (fun '(_, entry) => is_expired now entry) (_cache c)
               = List.filter (fun kv => is_expired now (snd kv)) (_cache c)).
  { apply List.filter_ext. now intros [k e]. }
  rewrite Hp. split; [now rewrite length_map|].
  match goal with
  | |- _cache (match ?ks with [] => ?a | _ :: _ => ?b end) = _ =>
      assert (Hc : _cache (match ks with [] => a | _ :: _ => b end) = _cache a)
        by (now destruct ks)
  end.
  rewrite Hc. cbn [_cache with_cache]. rewrite fold_del_as_filter.
  apply List.filter_ext_in. intros [k e] Hin. cbn [fst snd].
  now rewrite (expired_key_iff (fun kv => is_expired now (snd kv)) k e _ Hwf Hin).
Qed.

(** *** Keys occur once *)

Lemma od_wf_filter (f : string * CacheEntry V -> bool) d :
  od_wf d -> od_wf (List.filter f d).
Proof.
  unfold od_wf. induction d as [|[k e] d IH]; simpl; [auto|].
  intros Hnd. apply NoDup_cons_iff in Hnd as [Hnotin Hnd].
  destruct (f (k, e)); simpl; [|auto].
  constructor; [|auto]. intros Hin. apply Hnotin.
  apply in_map_iff in Hin as (kv & Hk & Hin). apply filter_In in Hin as [Hin _].
  rewrite <- Hk. now apply in_map.
Qed.

Lemma od_wf_del key d : od_wf d -> od_wf (od_del key d).
Proof. rewrite od_del_as_filter. apply od_wf_filter. Qed.

Lemma od_wf_snoc key e d : od_wf d -> od_get key d = None -> od_wf (d ++ [(key, e)]).
Proof.
  unfold od_wf, od_keys. intros Hwf Habsent. rewrite map_app. simpl.
  apply List.NoDup_app; [assumption | |].
  - constructor; [intros [] | constructor].
  - intros k Hin [Hk|[]]. subst k. now apply od_get_absent_keys in Habsent.
Qed.

Lemma od_keys_setitem_present key e d e0 :
  od_get key d = Some e0 -> od_keys (od_setitem key e d) = od_keys d.
Proof.
  induction d as [|[k e'] d IH]; simpl; [discriminate|].
  destruct (String.eqb key k); simpl; [reflexivity|].
  intros H. now rewrite IH.
Qed.

Lemma od_wf_setitem key e d : od_wf d -> od_wf (od_setitem key e d).
Proof.
  intros Hwf. destruct (od_get key d) as [e0|] eqn:E.
  - unfold od_wf. now rewrite (od_keys_setitem_present _ _ _ _ E).
  - rewrite (od_setitem_absent _ _ _ E). now apply od_wf_snoc.
Qed.

Lemma od_wf_move_to_end key d : od_wf d -> od_wf (od_move_to_end key d).
Proof.
  intros Hwf. unfold od_move_to_end. destruct (od_get key d) as [e|]; [|assumption].
  apply od_wf_snoc; [now apply od_wf_del | apply od_get_del_same].
Qed.

Lemma od_wf_tail x d : od_wf (x :: d) -> od_wf d.
Proof. unfold od_wf. simpl. intros H. now apply NoDup_cons_iff in H as [_ H]. Qed.

Lemma od_wf_evict max d s : od_wf d -> od_wf (fst (snd (evict_loop max d s))).
Proof.
  revert s. induction d as [|[k e] d IH]; intros s Hwf; cbn [evict_loop].
  - case_gtb; [constructor | assumption].
  - case_gtb; [|assumption]. apply IH. eapply od_wf_tail, Hwf.
Qed.

Lemma od_wf_fold_del (ks : list string) d :
  od_wf d -> od_wf (fold_left (fun d key => od_del key d) ks d).
Proof. rewrite fold_del_as_filter. apply od_wf_filter. Qed.

(** X5.  No operation makes a key occur twice: a cache that holds every
    key once holds every key once after [get], [set] (also when it raises),
    [delete], [clear], [refresh], [cleanup_expired] and [has_key]. *)
Theorem keys_stay_unique (o : operation V) c :
  od_wf (_cache c) -> od_wf (_cache (snd (run o c))).
Proof.
  intros Hwf. destruct o as [now key|now key v ttl|key| |now key ttl|now|now key];
    cbn [run snd].
  - unfold get. destruct (od_get key (_cache c)) as [e|]; [|assumption].
    destruct (is_expired now e); cbn [snd _cache with_stats with_cache];
      [now apply od_wf_del | now apply od_wf_move_to_end].
  - unfold set, _evict_if_needed.
    cbn [max_size _cache _stats with_cache default_ttl].
    match goal with
    | |- context [evict_loop (max_size c) ?d ?s] =>
        assert (Hd : od_wf d);
        [| pose proof (od_wf_evict (max_size c) d s Hd) as He;
           destruct (evict_loop (max_size c) d s) as [[[]|ex] [d' s']];
           exact He ]
    end.
    apply od_wf_setitem. destruct (od_mem key (_cache c));
      [now apply od_wf_del | assumption].
  - unfold delete. destruct (od_mem key (_cache c)); [|assumption].
    cbn [snd _cache with_stats with_cache]. now apply od_wf_del.
  - constructor.
  - unfold refresh. destruct (od_get key (_cache c)) as [e|]; [|assumption].
    destruct (is_expired now e); cbn [snd _cache with_stats with_cache];
      [now apply od_wf_del|].
    now apply od_wf_move_to_end, od_wf_setitem.
  - unfold cleanup_expired. cbn [snd].
    match goal with
    | |- od_wf (_cache (match ?ks with [] => ?a | _ :: _ => ?b end)) =>
        assert (Hc : _cache (match ks with [] => a | _ :: _ => b end) = _cache a)
          by (now destruct ks)
    end.
    rewrite Hc. cbn [_cache with_cache]. now apply od_wf_fold_del.
  - unfold has_key. destruct (od_get key (_cache c)) as [e|]; [|assumption].
    destruct (is_expired now e); cbn [snd _cache with_stats with_cache];
      [now apply od_wf_del | assumption].
Qed.

(** *** Reading, refreshing and the order of eviction *)

(** X6.  [has_key] answers whether a [get] at the same time would return a
    value; when it answers yes it leaves the cache exactly as it was (the
    key is not moved to the back and no counter changes), and when it
    answers no it leaves the entries [get] leaves. *)
Theorem has_key_agrees_with_get c now key :
  fst (has_key now key c) =
    match fst (get now key c) with Some _ => true | None => false end /\
  (fst (has_key now key c) = true -> snd (has_key now key c) = c) /\
  (fst (has_key now key c) = false ->
     _cache (snd (has_key now key c)) = _cache (snd (get now key c))).
Proof.
  unfold has_key, get. destruct (od_get key (_cache c)) as [e|]; cbn [fst snd].
  - destruct (is_expired now e); cbn [fst snd]; repeat split; try discriminate;
      reflexivity.
  - repeat split; try discriminate; reflexivity.
Qed.

(** X7.  [refresh] of a cached, live entry answers [True] and restarts its
    clock: from then on a [get] returns the entry's value at every time up
    to the refresh time plus the new time to live, and nothing after. *)
Theorem refresh_restarts_the_clock c now key ttl e t :
  od_get key (_cache c) = Some e ->
  is_expired now e = false ->
  let life := inject_Z (match ttl with None => default_ttl c | Some x => x end) in
  let c1 := snd (refresh now key ttl c) in
  fst (refresh now key ttl c) = true /\
  ((t <= now + life)%Q -> fst (get t key c1) = Some (value e)) /\
  ((now + life < t)%Q -> fst (get t key c1) = None).
Proof.
  intros Hget Hlive life c1. subst c1. unfold refresh. rewrite Hget, Hlive.
  cbn [fst snd]. split; [reflexivity|].
  unfold get. cbn [_cache with_cache]. unfold od_move_to_end.
  rewrite od_get_setitem_same, od_del_setitem, od_get_app, od_get_del_same.
  simpl od_get. rewrite String.eqb_refl.
  unfold is_expired. cbn [Cache.ttl created_at value]. fold life. split; intros Ht.
  - apply Qgt_bool_false in Ht. now rewrite Ht.
  - apply Qgt_bool_true in Ht. now rewrite Ht.
Qed.

Lemma evict_loop_keeps_suffix max d (tl : odict V) s :
  Z.of_nat (length tl) <= max ->
  exists n s', evict_loop max (d ++ tl) s = (Ok tt, (skipn n d ++ tl, s')).
Proof.
  intros Htl. revert s. induction d as [|[k e] d IH]; intros s.
  - exists 0%nat, s. simpl app. now apply evict_loop_within.
  - simpl app. cbn [evict_loop]. case_gtb.
    + destruct (IH (add_evictions 1 s)) as (n & s' & Heq).
      exists (S n), s'. exact Heq.
    + exists 0%nat, s. reflexivity.
Qed.

(** X8.  A key that was just read is not the next one to go: on a cache
    with room for two entries at least, after a [get] that found the key, a
    [set] of any other key leaves the key cached with its entry, whatever
    had to be evicted. *)
Theorem read_key_survives_next_set c now now' key key2 (v : V) ttl e :
  2 <= max_size c ->
  od_get key (_cache c) = Some e ->
  is_expired now e = false ->
  key2 <> key ->
  od_get key (_cache (snd (set now' key2 v ttl (snd (get now key c))))) = Some e.
Proof.
  intros Hmax Hget Hlive Hne. unfold get at 1. rewrite Hget, Hlive. cbn [snd].
  unfold set, _evict_if_needed.
  cbn [max_size _cache _stats with_cache with_stats default_ttl].
  unfold od_move_to_end. rewrite Hget.
  set (d1 := od_del key (_cache c) ++ [(key, e)]).
  assert (Hd0 : (if od_mem key2 d1 then od_del key2 d1 else d1) = od_del key2 d1).
  { destruct (od_mem key2 d1) eqn:E; [reflexivity|].
    symmetry. now apply od_del_absent, od_mem_false. }
  rewrite Hd0, (od_setitem_absent _ _ _ (od_get_del_same key2 d1)).
  assert (Hd1 : od_del key2 d1 = od_del key2 (od_del key (_cache c)) ++ [(key, e)]).
  { unfold d1. rewrite !od_del_as_filter, List.filter_app. simpl.
    destruct (String.eqb key2 key) eqn:E; [|reflexivity].
    apply String.eqb_eq in E. contradiction. }
  rewrite Hd1, <- app_assoc. simpl app.
  match goal with
  | |- context [evict_loop (max_size c) (?d ++ ?tl) ?s] =>
      destruct (evict_loop_keeps_suffix (max_size c) d tl s) as (n & s' & ->);
      [simpl; lia|]
  end.
  cbn [fst snd _cache with_stats]. rewrite od_get_app.
  rewrite od_get_skipn_absent.
  - simpl. now rewrite String.eqb_refl.
  - rewrite od_get_del_other by congruence. apply od_get_del_same.
Qed.

(** *** The counters *)

Lemma evict_loop_counts max d s :
  hits (snd (snd (evict_loop max d s))) = hits s /\
  misses (snd (snd (evict_loop max d s))) = misses s.
Proof.
  revert s. induction d as [|[k e] d IH]; intros s; cbn [evict_loop].
  - case_gtb; now split.
  - case_gtb; [|now split]. destruct (IH (add_evictions 1 s)) as [-> ->].
    now split.
Qed.

Lemma run_counts_gets (o : operation V) c :
  (hits (_stats (snd (run o c))) + misses (_stats (snd (run o c))))%nat =
  (hits (_stats c) + misses (_stats c) + (if is_get o then 1 else 0))%nat.
Proof.
  destruct o as [now key|now key v ttl|key| |now key ttl|now|now key];
    cbn [run snd is_get].
  - unfold get. destruct (od_get key (_cache c)) as [e|]; [|simpl; lia].
    destruct (is_expired now e); simpl; lia.
  - unfold set, _evict_if_needed.
    cbn [max_size _cache _stats with_cache default_ttl].
    match goal with
    | |- context [evict_loop (max_size c) ?d ?s] =>
        pose proof (evict_loop_counts (max_size c) d s) as [Hh Hm];
        destruct (evict_loop (max_size c) d s) as [[[]|ex] [d' s']]
    end; cbn [snd fst _stats with_stats add_sets hits misses] in *; lia.
  - unfold delete. destruct (od_mem key (_cache c)); simpl; lia.
  - simpl. lia.
  - unfold refresh. destruct (od_get key (_cache c)) as [e|]; [|simpl; lia].
    destruct (is_expired now e); simpl; lia.
  - unfold cleanup_expired. cbn [snd].
    match goal with
    | |- context [match ?ks with [] => _ | _ :: _ => _ end] => destruct ks
    end; simpl; lia.
  - unfold has_key. destruct (od_get key (_cache c)) as [e|]; [|simpl; lia].
    destruct (is_expired now e); simpl; lia.
Qed.

(** X9.  The two counters behind the hit rate count the [get] calls and
    nothing else: over any sequence of operations, [hits + misses] grows by
    the number of [get] calls in it ([has_key], [refresh], [set], [delete],
    [clear] and [cleanup_expired] leave both alone). *)
Theorem hits_and_misses_count_the_gets (os : list (operation V)) c :
  (hits (_stats (run_all os c)) + misses (_stats (run_all os c)))%nat =
  (hits (_stats c) + misses (_stats c) + length (List.filter is_get os))%nat.
Proof.
  unfold run_all. revert c. induction os as [|o os IH]; intros c; simpl.
  - lia.
  - rewrite IH, run_counts_gets. destruct (is_get o); simpl; lia.
Qed.

End WithValue.

(** The theorems at work. *)

Lemma delete_forgets_its_key_only_witness :
  "b" <> "a" /\
  od_get "b" (_cache (snd (delete "a" two_entries))) = od_get "b" (_cache two_entries) /\
  keys (snd (delete "a" two_entries)) = ["b"].
Proof.
  destruct (delete_forgets_its_key_only two_entries "a") as (_ & _ & Hother & Hkeys).
  split; [discriminate|]. split; [apply Hother; discriminate | exact Hkeys].
Defined.

Lemma set_with_room_evicts_nothing_witness :
  Z.of_nat (length (od_del "b" (_cache two_entries))) < max_size two_entries /\
  keys (snd (set 5 "b" 7%nat None two_entries)) = ["a"; "b"].
Proof.
  split; [reflexivity|].
  destruct (set_with_room_evicts_nothing two_entries 5%Q "b" 7%nat None)
    as (_ & Hcache & _); [reflexivity|].
  unfold keys. now rewrite Hcache.
Defined.

Lemma set_on_cache_without_room_witness :
  max_size (init (V := nat) (-1) 300) <= 0 /\
  fst (set 5 "a" 7%nat None (init (-1) 300)) = Raise StopIteration /\
  fst (set 5 "a" 7%nat None (init 0 300)) = Ok tt /\
  _cache (snd (set 5 "a" 7%nat None (init 0 300))) = [].
Proof.
  split; [discriminate|].
  destruct (set_on_cache_without_room (init (-1) 300) 5%Q "a" 7%nat None)
    as [_ Hraise]; [discriminate|].
  destruct (set_on_cache_without_room (init 0 300) 5%Q "a" 7%nat None)
    as [Hempty Hok]; [discriminate|].
  split; [exact Hraise|]. split; [exact Hok | exact Hempty].
Defined.

Lemma two_entries_wf : od_wf (_cache two_entries).
Proof.
  unfold od_wf. simpl. constructor.
  - intros [H|[]]. discriminate.
  - constructor; [intros [] | constructor].
Defined.

Lemma cleanup_expired_removes_the_expired_witness :
  od_wf (_cache two_entries) /\
  fst (cleanup_expired 300.5 two_entries) = 1%nat /\
  keys (snd (cleanup_expired 300.5 two_entries)) = ["b"].
Proof.
  split; [exact two_entries_wf|].
  destruct (cleanup_expired_removes_the_expired two_entries 300.5%Q two_entries_wf)
    as [Hn Hc].
  split; [exact Hn|]. unfold keys. now rewrite Hc.
Defined.

Lemma keys_stay_unique_witness :
  od_wf (_cache two_entries) /\
  od_wf (_cache (snd (run (OpSet 5 "c" 3%nat None) two_entries))).
Proof.
  split; [exact two_entries_wf|].
  apply (keys_stay_unique (OpSet 5%Q "c" 3%nat None) two_entries two_entries_wf).
Defined.

Lemma has_key_agrees_with_get_witness :
  fst (has_key 5 "a" two_entries) = true /\
  snd (has_key 5 "a" two_entries) = two_entries.
Proof.
  split; [reflexivity|].
  now apply (has_key_agrees_with_get two_entries 5%Q "a").
Defined.

Lemma refresh_restarts_the_clock_witness :
  od_get "a" (_cache two_entries) = Some (mkEntry 1%nat 0 (Some 300%Q)) /\
  (350 <= 299 + inject_Z 60)%Q /\
  fst (get 350 "a" (snd (refresh 299 "a" (Some 60) two_entries))) = Some 1%nat.
Proof.
  split; [reflexivity|]. split; [discriminate|].
  now apply (refresh_restarts_the_clock two_entries 299%Q "a" (Some 60)
               (mkEntry 1%nat 0 (Some 300%Q)) 350%Q).
Defined.

Lemma read_key_survives_next_set_witness :
  2 <= max_size two_entries /\
  "c" <> "a" /\
  od_get "a" (_cache (snd (set 6 "c" 3%nat None (snd (get 5 "a" two_entries)))))
    = Some (mkEntry 1%nat 0 (Some 300%Q)).
Proof.
  split; [discriminate|]. split; [discriminate|].
  apply (read_key_survives_next_set two_entries 5%Q 6%Q "a" "c" 3%nat None);
    [discriminate | reflexivity | reflexivity | discriminate].
Defined.

End CacheFacts.

(** ** More on the database manager *)

Module DbFacts.

Import Db DbProps.

(** *** Primary keys *)

Lemma NoDup_map_filter {A B} (f : A -> B) (p : A -> bool) l :
  List.NoDup (map f l) -> List.NoDup (map f (List.filter p l)).
Proof.
  induction l as [|x l IH]; simpl; [auto|].
  intros Hnd. apply NoDup_cons_iff in Hnd as [Hnotin Hnd].
  destruct (p x); simpl; [|auto]. constructor; [|auto].
  intros Hin. apply Hnotin. apply in_map_iff in Hin as (y & Hy & Hin).
  apply filter_In in Hin as [Hin _]. rewrite <- Hy. now apply in_map.
Qed.

Lemma replace_keeps_keys_unique {A B} (f : A -> B) (test : A -> bool) (new : A) l :
  (forall r, f r = f new -> test r = true) ->
  List.NoDup (map f l) ->
  List.NoDup (map f (List.filter (fun r => negb (test r)) l ++ [new])).
Proof.
  intros Htest Hnd. rewrite map_app. apply List.NoDup_app.
  - now apply NoDup_map_filter.
  - constructor; [intros [] | constructor].
  - intros k Hin [Hk|[]]. subst k.
    apply in_map_iff in Hin as (r & Hr & Hin).
    apply filter_In in Hin as [_ Hneg]. rewrite (Htest r Hr) in Hneg. discriminate.
Qed.

Lemma statement_keeps_keys_unique query params d rows d' :
  keys_unique d ->
  exec_sql query params d = Ok (rows, d') ->
  keys_unique d'.
Proof.
  intros [Hm Hv] Hexec. destruct query; cbn [exec_sql] in Hexec;
    repeat match type of Hexec with
           | match ?x with _ => _ end = _ => destruct x; try discriminate
           end;
    injection Hexec as _ <-; split; cbn [messages voice with_messages with_voice
      with_settings with_user_cache]; try assumption; try constructor.
  - apply (replace_keeps_keys_unique (fun r => (msg_user_id r, msg_guild_id r))
             (msg_key_is z z0)); [|assumption].
    intros r Hr. simpl in Hr. injection Hr as H1 H2.
    unfold msg_key_is. now rewrite H1, H2, !Z.eqb_refl.
  - apply (replace_keeps_keys_unique (fun r => (voice_user_id r, voice_guild_id r))
             (voice_key_is z z0)); [|assumption].
    intros r Hr. simpl in Hr. injection Hr as H1 H2.
    unfold voice_key_is. now rewrite H1, H2, !Z.eqb_refl.
  - rewrite map_map.
    erewrite map_ext; [exact Hv|]. intros r. cbn.
    now destruct (voice_key_is z1 z2 r).
Qed.

(** A statement bound as the manager's methods bind it is not refused. *)
Lemma bound_statement_runs query params d :
  bound_as_written query params = true ->
  exists rows d', exec_sql query params d = Ok (rows, d').
Proof.
  intros Hbound. destruct query; cbn [bound_as_written] in Hbound;
    repeat match type of Hbound with
           | match ?x with _ => _ end = _ => destruct x; try discriminate
           end;
    cbn [exec_sql];
    repeat match goal with
           | |- context [match ?x with _ => _ end] => destruct x
           end;
    eauto.
Qed.

(** X10.  No statement breaks the primary keys.  Bound as the manager's
    methods bind it (integers for ids, counts, limits and times, strings
    for keys, values and names), every statement of the manager is
    accepted, and when [messages] and [voice] hold at most one row for a
    [(user_id, guild_id)] they still do after it. *)
Theorem statements_keep_keys_unique query params d :
  bound_as_written query params = true ->
  keys_unique d ->
  exists rows d',
    exec_sql query params d = Ok (rows, d') /\ keys_unique d'.
Proof.
  intros Hbound Hunique.
  destruct (bound_statement_runs query params d Hbound) as (rows & d' & Hexec).
  exists rows, d'. split; [exact Hexec|].
  exact (statement_keeps_keys_unique query params d rows d' Hunique Hexec).
Qed.

(** *** Settings and the user cache *)


(** X12.  The user cache is written at once (of the two definitions of
    [cache_user] in the class the later one, which does not queue, is in
    force): right after [cache_user] a [get_cached_user] returns the name
    and discriminator just written, and every other user reads as before. *)
Theorem cached_user_is_read_back d user name disc now :
  let m1 := snd (cache_user user name disc now (init d [])) in
  fst (cache_user user name disc now (init d [])) = Ok tt /\
  fst (get_cached_user user m1) = Ok (Some (name, disc)) /\
  (forall user', user' <> user ->
     fst (get_cached_user user' m1) = fst (get_cached_user user' (init d []))).
Proof.
  intros m1. subst m1. split; [reflexivity|]. split.
  - unfold get_cached_user, cache_user, execute_query, bind, next_fault, gets,
      modify, ret. cbn. now rewrite lookup_insert_eq.
  - intros user' Hne.
    unfold get_cached_user, cache_user, execute_query, bind, next_fault, gets,
      modify, ret. cbn. rewrite lookup_insert_ne by congruence.
    now destruct (user_cache d !! user').
Qed.

(** *** The reset interval *)

Lemma int_of_str_of_int n : int_of_str (str_of_int n) = Some n.
Proof.
  unfold int_of_str, str_of_int. rewrite NilZero.isi.
  - now rewrite DecimalZ.of_to.
  - destruct n; simpl; try discriminate.
    intros [= H]. now apply DecimalPos.Unsigned.to_uint_nonnil in H.
  - destruct n; simpl; try discriminate.
    intros [= H]. now apply DecimalPos.Unsigned.to_uint_nonnil in H.
Qed.

Lemma str_of_int_nonempty n : str_of_int n <> "".
Proof.
  intros H. pose proof (int_of_str_of_int n) as Hr. rewrite H in Hr. discriminate.
Qed.

(** X13.  After a reset at second [t], the reset check at second [t'] says
    that a reset is due exactly when [refresh_days] whole days have passed
    since [t] (the time is written as a decimal string and read back). *)
Theorem reset_is_due_after_the_interval d t days t' :
  let m1 := snd (reset_leaderboard_data t (init d [])) in
  fst (reset_leaderboard_data t (init d [])) = Ok tt /\
  fst (should_reset_leaderboard days t' m1) = Ok (days * 86400 <=? t' - t).
Proof.
  intros m1. subst m1. split; [reflexivity|].
  unfold should_reset_leaderboard, get_setting, execute_query, try_except, bind,
    next_fault, gets, modify, raise, ret.
  cbn. rewrite lookup_insert_eq. cbn.
  destruct (str_of_int t) as [|a rest] eqn:E; [now apply str_of_int_nonempty in E|].
  rewrite <- E, int_of_str_of_int. cbn. unfold Qle_bool. cbn.
  now rewrite Z.mul_1_r.
Qed.

(** *** A batch that fails *)

(** X14.  A batch for which no connection can be had is dropped: when the
    environment fails the batch the task has taken before any of its
    statements runs, the task goes on without an exception, the database is
    as it was, and the operations of the batch are gone from the queue, so
    the increments among them are never counted. *)
Theorem failed_batch_is_dropped m arrived fs op ops user guild :
  faults m = true :: fs ->
  firstn (Nat.min arrived 100) (_batch_queue m) = op :: ops ->
  let m' := snd (_process_batch_operations arrived m) in
  fst (_process_batch_operations arrived m) = Ok tt /\
  db m' = db m /\
  _batch_queue m' = skipn (Nat.min arrived 100) (_batch_queue m) /\
  counted user guild m' =
    counted user guild m - Z.of_nat (pending user guild (op :: ops)).
Proof.
  intros Hf Htaken m'. subst m'.
  unfold _process_batch_operations, _execute_batch_operations, try_except, bind,
    next_fault, gets, modify, raise, ret.
  rewrite Htaken. cbn [faults with_queue]. rewrite Hf.
  cbn [fst snd db _batch_queue with_queue with_faults].
  repeat split. unfold counted. cbn [db _batch_queue with_queue with_faults].
  assert (Hq : pending user guild (_batch_queue m) =
               (pending user guild (op :: ops)
                + pending user guild (skipn (Nat.min arrived 100) (_batch_queue m)))%nat).
  { rewrite <- pending_app, <- Htaken. now rewrite firstn_skipn. }
  rewrite Hq. lia.
Qed.

(** *** Joins and leaves inside one batch *)

(** The operations [update_voice_join] and [update_voice_leave] queue. *)
Lemma join_queues u g t t' m :
  update_voice_join u g t t' m =
  (Ok tt,
   with_queue
     (_batch_queue m
      ++ [mkBatchOperation SQL_voice_join
            [[VInt u; VInt g; VInt u; VInt g; VInt t; VInt t']] "update"]) m).
Proof. reflexivity. Qed.

Lemma leave_queues u g now m r j :
  faults m = [] ->
  voice_row u g (db m) = Some r ->
  voice_join_time r = Some j ->
  j <> 0 ->
  snd (update_voice_leave u g now m) =
  with_queue
    (_batch_queue m
     ++ [mkBatchOperation SQL_voice_leave
           [[VInt (voice_total_time r + (now - j)); VInt now; VInt u; VInt g]]
           "update"])
    (count_individual 1 m).
Proof.
  intros Hf Hrow Hjoin Hj. destruct m as [d q st f]. cbn [faults db] in *. subst f.
  unfold update_voice_leave, execute_query, bind, next_fault, gets, modify, ret.
  cbn [faults db exec_sql with_db]. rewrite head_map_filter.
  unfold voice_row in Hrow. rewrite Hrow. cbn [option_map]. rewrite Hjoin.
  cbn [opt_int]. destruct (j =? 0) eqn:E; [lia|]. reflexivity.
Qed.

Lemma leave_without_session u g now m :
  faults m = [] ->
  (forall r, voice_row u g (db m) = Some r -> voice_join_time r = None) ->
  snd (update_voice_leave u g now m) = count_individual 1 m.
Proof.
  intros Hf Hclosed. destruct m as [d q st f]. cbn [faults db] in *. subst f.
  unfold update_voice_leave, execute_query, bind, next_fault, gets, modify, ret.
  cbn [faults db exec_sql with_db]. rewrite head_map_filter.
  unfold voice_row in Hclosed.
  destruct (List.find (voice_key_is u g) (voice d)) as [r|]; [|reflexivity].
  cbn [option_map]. now rewrite (Hclosed r eq_refl).
Qed.

(** The leave statement closes the session of its row and sets its total. *)
Lemma exec_voice_leave total now u g d :
  exists d',
    exec_sql SQL_voice_leave [VInt total; VInt now; VInt u; VInt g] d = Ok ([], d') /\
    voice_row u g d' =
      option_map
        (fun r => mkVoiceRow (voice_user_id r) (voice_guild_id r) total None now)
        (voice_row u g d).
Proof.
  eexists. split; [reflexivity|]. unfold voice_row. cbn [voice with_voice].
  rewrite find_map_same_test.
  - destruct (List.find (voice_key_is u g) (voice d)) as [r|] eqn:E; [|reflexivity].
    cbn [option_map]. apply find_some in E as [_ ->]. reflexivity.
  - intros x. now destruct (voice_key_is u g x) eqn:E.
Qed.

(** What a turn of the batch task does to the database when a connection
    is had and the whole queue is taken. *)
Lemma batch_turn_db ops st d (arrived : nat) :
  (0 < length ops <= Nat.min arrived 100)%nat ->
  db (snd (_process_batch_operations arrived (mkManager d ops st []))) =
  snd (execute_groups (group_operations ops) d).
Proof.
  intros Hlen.
  unfold _process_batch_operations, _execute_batch_operations, try_except, bind,
    next_fault, gets, modify, raise, ret.
  cbn [_batch_queue faults with_queue db with_db].
  rewrite firstn_all2 by lia.
  destruct ops as [|op ops]; [simpl in Hlen; lia|].
  cbn [_batch_queue _operation_stats faults with_queue db with_db fst snd].
  destruct (execute_groups (group_operations (op :: ops)) d) as [[[]|e] d'];
    reflexivity.
Qed.

(** X15.  The batch groups by statement, so it does not keep the order of
    the queue across statements: when a user changes channel (a leave, then
    a join) and the batch already holds a join of anyone, both joins run
    before the leave, and the user ends with the session closed
    ([join_time] NULL) although they are in a channel.  With only the
    user's own leave and join in the batch the session ends open. *)
Theorem batch_runs_joins_before_leaves d A gA tA tA' B gB tl tj tj' r j :
  voice_row B gB d = Some r ->
  voice_join_time r = Some j ->
  j <> 0 ->
  let m1 := snd (update_voice_join A gA tA tA' (init d [])) in
  let m2 := snd (update_voice_leave B gB tl m1) in
  let m3 := snd (update_voice_join B gB tj tj' m2) in
  let n2 := snd (update_voice_leave B gB tl (init d [])) in
  let n3 := snd (update_voice_join B gB tj tj' n2) in
  voice_row B gB (db (snd (_process_batch_operations 3 m3))) =
    Some (mkVoiceRow B gB (voice_total_time r + (tl - j)) None tl) /\
  voice_row B gB (db (snd (_process_batch_operations 2 n3))) =
    Some (mkVoiceRow B gB (voice_total_time r + (tl - j)) (Some tj) tj').
Proof.
  intros Hrow Hjoin Hj m1 m2 m3 n2 n3.
  assert (Hkey : voice_user_id r = B /\ voice_guild_id r = gB).
  { unfold voice_row in Hrow. apply find_some in Hrow as [_ Hk].
    unfold voice_key_is in Hk. lia. }
  destruct Hkey as [Hu Hg]. split.
  - subst m3 m2 m1. rewrite !join_queues. cbn [snd].
    rewrite (leave_queues B gB tl _ r j); [|reflexivity|exact Hrow|exact Hjoin|exact Hj].
    unfold init, with_queue, count_individual.
    cbn [db _batch_queue _operation_stats faults app].
    rewrite batch_turn_db by (simpl; lia).
    match goal with
    | |- context [group_operations ?ops] =>
        replace (group_operations ops) with
          [((SQL_voice_join, "update"),
            [[VInt A; VInt gA; VInt A; VInt gA; VInt tA; VInt tA'];
             [VInt B; VInt gB; VInt B; VInt gB; VInt tj; VInt tj']]);
           ((SQL_voice_leave, "update"),
            [[VInt (voice_total_time r + (tl - j)); VInt tl; VInt B; VInt gB]])]
          by (vm_compute; reflexivity)
    end.
    cbn [execute_groups executemany]. unfold bind, ret. cbv beta.
    destruct (exec_voice_join A gA tA tA' d) as (d1 & -> & _ & _). cbv beta iota.
    destruct (exec_voice_join B gB tj tj' d1) as (d2 & -> & _ & Hrow2). cbv beta iota.
    destruct (exec_voice_leave (voice_total_time r + (tl - j)) tl B gB d2)
      as (d3 & -> & Hrow3).
    cbn [snd]. rewrite Hrow3, Hrow2. reflexivity.
  - subst n3 n2. rewrite !join_queues. cbn [snd].
    rewrite (leave_queues B gB tl _ r j); [|reflexivity|exact Hrow|exact Hjoin|exact Hj].
    unfold init, with_queue, count_individual.
    cbn [db _batch_queue _operation_stats faults app].
    rewrite batch_turn_db by (simpl; lia).
    match goal with
    | |- context [group_operations ?ops] =>
        replace (group_operations ops) with
          [((SQL_voice_leave, "update"),
            [[VInt (voice_total_time r + (tl - j)); VInt tl; VInt B; VInt gB]]);
           ((SQL_voice_join, "update"),
            [[VInt B; VInt gB; VInt B; VInt gB; VInt tj; VInt tj']])]
          by (vm_compute; reflexivity)
    end.
    cbn [execute_groups executemany]. unfold bind, ret. cbv beta.
    destruct (exec_voice_leave (voice_total_time r + (tl - j)) tl B gB d)
      as (d1 & -> & Hrow1).
    cbv beta iota.
    destruct (exec_voice_join B gB tj tj' d1) as (d2 & -> & _ & Hrow2).
    cbn [snd]. rewrite Hrow2. unfold stored_total. rewrite Hrow1, Hrow. reflexivity.
Qed.

(** X16.  A leave reads the database at once while a join waits in the
    queue: when a user without an open session joins and leaves before the
    batch task has run, the leave finds no session and does nothing, and the
    batch then opens the session, which stays open with the join time of a
    visit that is over. *)
Theorem leave_before_the_batch_is_lost d u g t t' tl :
  (forall r, voice_row u g d = Some r -> voice_join_time r = None) ->
  let m1 := snd (update_voice_join u g t t' (init d [])) in
  let m2 := snd (update_voice_leave u g tl m1) in
  _batch_queue m2 = _batch_queue m1 /\
  voice_row u g (db (snd (_process_batch_operations 2 m2))) =
    Some (mkVoiceRow u g (stored_total u g d) (Some t) t').
Proof.
  intros Hclosed m1 m2. subst m2 m1. rewrite join_queues. cbn [snd].
  rewrite leave_without_session; [|reflexivity|exact Hclosed].
  split; [reflexivity|].
  unfold init, with_queue, count_individual.
  cbn [db _batch_queue _operation_stats faults app].
  rewrite batch_turn_db by (simpl; lia).
  unfold group_operations. cbn [fold_left group_step grouped_extend query
    operation_type params app execute_groups executemany].
  unfold bind, ret. cbv beta.
  destruct (exec_voice_join u g t t' d) as (d1 & -> & _ & Hrow1).
  exact Hrow1.
Qed.

(** *** The global leaderboard *)

Lemma sorted_NoDup (l : list Z) : StronglySorted Z.lt l -> List.NoDup l.
Proof.
  induction 1 as [|x l Hs IH Hall]; constructor; [|exact IH].
  intros Hin. rewrite List.Forall_forall in Hall. specialize (Hall x Hin). lia.
Qed.

Lemma total_of_above user groups :
  List.Forall (Z.lt user) (map fst groups) -> total_of user groups = 0.
Proof.
  unfold total_of. induction groups as [|[u0 s0] groups IH]; intros Hall;
    [reflexivity|].
  cbn [map fst] in Hall. apply List.Forall_cons_iff in Hall as [Hlt Hall].
  cbn [List.find fst]. destruct (Z.eqb_spec u0 user); [lia | now apply IH].
Qed.

Lemma total_of_group_add u user v groups :
  StronglySorted Z.lt (map fst groups) ->
  total_of u (group_add user v groups) =
  total_of u groups + (if user =? u then v else 0).
Proof.
  induction groups as [|[u0 s0] groups IH]; cbn [group_add]; intros Hs.
  - unfold total_of. cbn. destruct (user =? u); simpl; lia.
  - cbn [map fst] in Hs. apply StronglySorted_inv in Hs as [Hs Hall].
    destruct (Z.eqb_spec u0 user) as [->|Hne].
    + unfold total_of. cbn [List.find fst snd].
      destruct (user =? u); simpl; lia.
    + destruct (Z.ltb_spec user u0) as [Hlt|Hge].
      * destruct (Z.eqb_spec user u) as [<-|Hu].
        -- rewrite (total_of_above user ((u0, s0) :: groups)).
           ++ unfold total_of. cbn [List.find fst snd]. rewrite Z.eqb_refl. simpl. lia.
           ++ cbn [map fst]. constructor; [exact Hlt|].
              eapply List.Forall_impl; [|exact Hall]. cbv beta. intros x Hx. lia.
        -- unfold total_of. cbn [List.find fst].
           destruct (Z.eqb_spec user u); [contradiction | lia].
      * specialize (IH Hs). unfold total_of in *. cbn [List.find fst snd].
        destruct (Z.eqb_spec u0 u) as [->|Hu0]; [|exact IH].
        destruct (Z.eqb_spec user u); [congruence | simpl; lia].
Qed.

Lemma group_fold_spec rows groups :
  StronglySorted Z.lt (map fst groups) ->
  let result := fold_left (fun groups '(user, v) => group_add user v groups) rows groups in
  List.NoDup (map fst result) /\
  (forall u, In u (map fst result) <-> In u (map fst groups) \/ In u (map fst rows)) /\
  (forall u, total_of u result = total_of u groups + sum_for u rows).
Proof.
  revert groups. induction rows as [|[user v] rows IH]; intros groups Hs;
    cbn [fold_left].
  - split; [now apply sorted_NoDup|]. split; [simpl; intuition|].
    intros u. unfold sum_for. simpl. lia.
  - destruct (IH (group_add user v groups) (group_add_sorted user v groups Hs))
      as (Hnd & Hkeys & Htotal).
    split; [exact Hnd|]. split.
    + intros u. rewrite Hkeys, group_add_keys. simpl. intuition.
    + intros u. rewrite Htotal, total_of_group_add by exact Hs. unfold sum_for.
      cbn [List.filter fst]. rewrite (Z.eqb_sym user u).
      destruct (u =? user); simpl; lia.
Qed.

(** X17.  The global message leaderboard ranks one row per user, holding
    the sum of the user's counts over all guilds; and the guild id 0, under
    which direct messages are counted, asks for this global leaderboard, not
    for the rows of guild 0. *)
Theorem global_leaderboard_sums_over_guilds (d : Database) :
  let rows := map (fun r => (msg_user_id r, msg_count r)) (messages d) in
  List.NoDup (map fst (message_candidates None d)) /\
  (forall u, In u (map fst (message_candidates None d)) <-> In u (map fst rows)) /\
  (forall u, total_of u (message_candidates None d) = sum_for u rows) /\
  message_candidates (Some 0) d = message_candidates None d.
Proof.
  intros rows. unfold message_candidates. cbn [guild_given Z.eqb]. fold rows.
  destruct (group_fold_spec rows [] ltac:(constructor)) as (Hnd & Hkeys & Htotal).
  split; [exact Hnd|]. split; [|split; [|reflexivity]].
  - intros u. unfold group_sum. rewrite Hkeys. simpl. intuition.
  - intros u. unfold group_sum. rewrite Htotal. unfold total_of. simpl. lia.
Qed.

(** *** Cleaning the user cache *)

(** X18.  [cleanup_old_data] never raises; it touches nothing but the user
    cache, from which it removes the rows cached more than thirty days
    before [now] and no other (and none at all when the database fails). *)
Theorem cleanup_old_data_keeps_the_recent m now :
  let m' := snd (cleanup_old_data now m) in
  fst (cleanup_old_data now m) = Ok tt /\
  messages (db m') = messages (db m) /\
  voice (db m') = voice (db m) /\
  settings (db m') = settings (db m) /\
  _batch_queue m' = _batch_queue m /\
  (forall u row,
      user_cache (db m') !! u = Some row <->
      user_cache (db m) !! u = Some row /\
      (hd false (faults m) = true \/ now - 30 * 24 * 3600 <= uc_cached_at row)).
Proof.
  intros m'. subst m'.
  unfold cleanup_old_data, execute_query, try_except, bind, next_fault, gets,
    modify, raise, ret.
  destruct m as [d q st f]. cbn [faults db].
  destruct f as [|[|] fs]; cbn;
    (split; [reflexivity|]); repeat (split; [reflexivity|]); intros u row;
    try rewrite map_lookup_filter_Some; cbn; intuition (try discriminate; lia).
Qed.

(** *** The theorems at work *)

Lemma some_activity_keys_unique : keys_unique Samples.some_activity.
Proof.
  split; simpl; (constructor; [intros [] | constructor]).
Defined.

Lemma statements_keep_keys_unique_witness :
  bound_as_written SQL_increment_message (increment_params 42 1 9 2000) = true /\
  keys_unique Samples.some_activity /\
  exists rows d',
    exec_sql SQL_increment_message (increment_params 42 1 9 2000) Samples.some_activity
    = Ok (rows, d') /\
    keys_unique d'.
Proof.
  split; [reflexivity|]. split; [exact some_activity_keys_unique|].
  exact (statements_keep_keys_unique SQL_increment_message
           (increment_params 42 1 9 2000) Samples.some_activity
           eq_refl some_activity_keys_unique).
Defined.


Lemma cached_user_is_read_back_witness :
  7 <> 42 /\
  fst (get_cached_user 7 (snd (cache_user 42 "bob" "" 2000 (init empty_db []))))
    = fst (get_cached_user 7 (init empty_db [])).
Proof.
  split; [discriminate|].
  destruct (cached_user_is_read_back empty_db 42 "bob" "" 2000) as (_ & _ & Hother).
  apply (Hother 7). discriminate.
Defined.

Lemma failed_batch_is_dropped_witness :
  let m := mkManager empty_db [inc_op (7, 1, 100, 1000)] (mkOperationStats 0 0 0) [true] in
  faults m = [true] /\
  counted 7 1 m = 1 /\
  counted 7 1 (snd (_process_batch_operations 5 m)) = 1 - 1.
Proof.
  cbv zeta. split; [reflexivity|]. split; [reflexivity|].
  exact (proj2 (proj2 (proj2
    (failed_batch_is_dropped
       (mkManager empty_db [inc_op (7, 1, 100, 1000)] (mkOperationStats 0 0 0) [true])
       5 [] (inc_op (7, 1, 100, 1000)) [] 7 1 eq_refl eq_refl)))).
Defined.

Lemma batch_runs_joins_before_leaves_witness :
  voice_row 42 1 Samples.open_session = Some (mkVoiceRow 42 1 600 (Some 1000) 1000) /\
  voice_row 42 1
    (db (snd (_process_batch_operations 3
                (snd (update_voice_join 42 1 1600 1600
                        (snd (update_voice_leave 42 1 1600
                                (snd (update_voice_join 7 1 1500 1500
                                        (init Samples.open_session []))))))))))
  = Some (mkVoiceRow 42 1 (600 + (1600 - 1000)) None 1600).
Proof.
  split; [reflexivity|].
  apply (batch_runs_joins_before_leaves Samples.open_session 7 1 1500 1500
           42 1 1600 1600 1600 (mkVoiceRow 42 1 600 (Some 1000) 1000) 1000);
    [reflexivity | reflexivity | discriminate].
Defined.

Lemma leave_before_the_batch_is_lost_witness :
  voice_row 42 1 Samples.some_activity = Some (mkVoiceRow 42 1 600 None 1000) /\
  voice_row 42 1
    (db (snd (_process_batch_operations 2
                (snd (update_voice_leave 42 1 2001
                        (snd (update_voice_join 42 1 2000 2000
                                (init Samples.some_activity []))))))))
  = Some (mkVoiceRow 42 1 600 (Some 2000) 2000).
Proof.
  split; [reflexivity|].
  apply (leave_before_the_batch_is_lost Samples.some_activity 42 1 2000 2000 2001).
  intros r [= <-]. reflexivity.
Defined.

End DbFacts.

(** ** The rendered values *)

Module ModelsFacts.

Import Models.

Local Abbreviation not_comma := (fun c : ascii => negb (Ascii.eqb c ","%char)).

Lemma digits_not_comma d :
  forallb not_comma (list_ascii_of_string (NilEmpty.string_of_uint d)) = true.
Proof. induction d; simpl; auto. Qed.

Lemma str_of_int_not_comma n :
  forallb not_comma (list_ascii_of_string (str_of_int n)) = true.
Proof.
  unfold str_of_int, NilZero.string_of_int, NilZero.string_of_uint.
  destruct (Z.to_int n) as [d|d]; destruct d; simpl;
    auto using digits_not_comma.
Qed.

Lemma filter_all_kept {A} (f : A -> bool) l :
  forallb f l = true -> List.filter f l = l.
Proof.
  induction l as [|a l IH]; simpl; [reflexivity|].
  intros [Ha Hl]%andb_prop. rewrite Ha. f_equal. auto.
Qed.

Lemma not_comma_differs c : not_comma c = true -> c <> ","%char.
Proof. intros H ->. discriminate. Qed.

Lemma commas_rev_long a b c x r :
  commas_rev (a :: b :: c :: x :: r) = a :: b :: c :: ","%char :: commas_rev (x :: r).
Proof. reflexivity. Qed.

(** Taking the commas out of [commas_rev] gives the digits back. *)
Lemma commas_rev_strip n : forall l,
  (length l <= n)%nat ->
  forallb not_comma l = true ->
  List.filter not_comma (commas_rev l) = l.
Proof.
  induction n as [|n IH]; intros l Hlen Hall.
  - destruct l; [reflexivity | simpl in Hlen; lia].
  - destruct l as [|a [|b [|c [|x r]]]];
      try (simpl commas_rev; now apply filter_all_kept).
    rewrite commas_rev_long. cbn [forallb] in Hall.
    apply andb_prop in Hall as [Ha Hall]. apply andb_prop in Hall as [Hb Hall].
    apply andb_prop in Hall as [Hc Hall].
    cbn [List.filter]. rewrite Ha, Hb, Hc.
    change (negb (Ascii.eqb ","%char ","%char)) with false. cbv iota.
    do 3 f_equal. apply IH; [simpl in *; lia | exact Hall].
Qed.

(** In [commas_rev] a comma sits at the places 3, 7, 11, ... and nowhere
    else. *)
Lemma commas_rev_places n : forall l i,
  (length l <= n)%nat ->
  forallb not_comma l = true ->
  (i < length (commas_rev l))%nat ->
  nth i (commas_rev l) " "%char = ","%char <-> (i mod 4 = 3)%nat.
Proof.
  induction n as [|n IH]; intros l i Hlen Hall Hi.
  - destruct l; simpl in *; lia.
  - assert (Hshort : forall l' : list ascii,
               (length l' <= 3)%nat -> forallb not_comma l' = true ->
               (i < length l')%nat ->
               nth i l' " "%char = ","%char <-> (i mod 4 = 3)%nat).
    { intros l' Hl' Hall' Hi'. split.
      - intros Heq. exfalso.
        assert (Hin : In (nth i l' " "%char) l') by now apply nth_In.
        rewrite forallb_forall in Hall'. apply Hall' in Hin.
        rewrite Heq in Hin. discriminate.
      - intros Hmod. exfalso.
        rewrite Nat.mod_small in Hmod by lia. lia. }
    destruct l as [|a [|b [|c [|x r]]]];
      try (simpl commas_rev in *; apply Hshort; simpl; auto; lia).
    rewrite commas_rev_long in *. cbn [forallb] in Hall.
    apply andb_prop in Hall as [Ha Hall]. apply andb_prop in Hall as [Hb Hall].
    apply andb_prop in Hall as [Hc Hall].
    destruct i as [|[|[|[|j]]]].
    + simpl. split; [intros ->; discriminate | discriminate].
    + simpl. split; [intros ->; discriminate | discriminate].
    + simpl. split; [intros ->; discriminate | discriminate].
    + simpl. split; reflexivity.
    + cbn [nth].
      replace ((S (S (S (S j)))) mod 4)%nat with (j mod 4)%nat.
      * apply IH; [simpl in *; lia | exact Hall | simpl in *; lia].
      * change (S (S (S (S j)))) with (4 + j)%nat.
        replace (4 + j)%nat with (j + 1 * 4)%nat by lia.
        now rewrite Nat.Div0.mod_add.
Qed.

Lemma str_of_int_negative p :
  str_of_int (Zneg p) = String "-"%char (str_of_int (Zpos p)).
Proof. reflexivity. Qed.

Lemma format_thousands_nonneg n :
  0 <= n ->
  list_ascii_of_string (format_thousands n)
  = rev (commas_rev (rev (list_ascii_of_string (str_of_int n)))).
Proof.
  intros Hn. unfold format_thousands.
  destruct (n <? 0) eqn:E; [apply Z.ltb_lt in E; lia|].
  rewrite Z.abs_eq by assumption.
  apply list_ascii_of_string_of_list_ascii.
Qed.

Lemma strip_body n :
  List.filter not_comma
    (rev (commas_rev (rev (list_ascii_of_string (str_of_int n)))))
  = list_ascii_of_string (str_of_int n).
Proof.
  rewrite List.filter_rev.
  rewrite (commas_rev_strip (length (rev (list_ascii_of_string (str_of_int n))))).
  - apply rev_involutive.
  - reflexivity.
  - rewrite forallb_forall. intros c Hc. apply in_rev in Hc.
    pose proof (str_of_int_not_comma n) as H. rewrite forallb_forall in H. auto.
Qed.

(** X19.  [f"{count:,}"] only adds commas to [str(count)]: taking them out
    gives [str(count)] back; and for a count that is not negative, counting
    the characters from the right and from 0, a comma sits exactly at the
    places 3, 7, 11, ... *)
Theorem thousands_separators_sit_every_three_digits n :
  without_commas (format_thousands n) = str_of_int n /\
  (0 <= n ->
   forall i, (i < String.length (format_thousands n))%nat ->
     nth i (rev (list_ascii_of_string (format_thousands n))) " "%char = ","%char
     <-> (i mod 4 = 3)%nat).
Proof.
  split.
  - unfold without_commas, format_thousands.
    destruct (n <? 0) eqn:E.
    + apply Z.ltb_lt in E. destruct n as [|p|p]; try lia.
      change (Z.abs (Z.neg p)) with (Z.pos p).
      change ("-" +:+ ?body) with (String "-"%char body).
      cbn [list_ascii_of_string List.filter].
      change (negb (Ascii.eqb "-"%char ","%char)) with true. cbv iota.
      rewrite list_ascii_of_string_of_list_ascii, strip_body.
      cbn [string_of_list_ascii]. rewrite string_of_list_ascii_of_string.
      symmetry. apply str_of_int_negative.
    + apply Z.ltb_ge in E. rewrite Z.abs_eq by assumption.
      rewrite list_ascii_of_string_of_list_ascii, strip_body.
      apply string_of_list_ascii_of_string.
  - intros Hn i Hi.
    assert (Hlen : String.length (format_thousands n)
                   = length (list_ascii_of_string (format_thousands n))).
    { rewrite <- (string_of_list_ascii_of_string (format_thousands n)) at 1.
      generalize (list_ascii_of_string (format_thousands n)).
      induction l; simpl; congruence. }
    rewrite Hlen in Hi. rewrite format_thousands_nonneg in * by assumption.
    rewrite rev_involutive. rewrite length_rev in Hi.
    apply (commas_rev_places (length (rev (list_ascii_of_string (str_of_int n)))));
      [reflexivity | | exact Hi].
    rewrite forallb_forall. intros c Hc. apply in_rev in Hc.
    pose proof (str_of_int_not_comma n) as H. rewrite forallb_forall in H. auto.
Qed.

(** X20.  A voice entry shows whole hours and minutes: the minutes are
    between 0 and 59, hours and minutes together are at most the seconds
    given and miss them by less than a minute, and the hours are left out
    when there is less than one hour (also for a negative number of
    seconds, which shows as minutes between 0 and 59). *)
Theorem voice_entry_shows_whole_minutes position user_id username total_seconds :
  let e := create_voice_entry position user_id username total_seconds in
  exists h m,
    0 <= m < 60 /\
    3600 * h + 60 * m <= total_seconds < 3600 * h + 60 * m + 60 /\
    value e = total_seconds /\
    formatted_value e =
      (if 3600 <=? total_seconds
       then str_of_int h +:+ "h " +:+ str_of_int m +:+ "m"
       else str_of_int m +:+ "m").
Proof.
  cbv zeta. exists (total_seconds / 3600), ((total_seconds mod 3600) / 60).
  pose proof (Z.div_mod total_seconds 3600 ltac:(lia)) as H1.
  pose proof (Z.mod_pos_bound total_seconds 3600 ltac:(lia)) as H2.
  pose proof (Z.div_mod (total_seconds mod 3600) 60 ltac:(lia)) as H3.
  pose proof (Z.mod_pos_bound (total_seconds mod 3600) 60 ltac:(lia)) as H4.
  unfold create_voice_entry. cbn [value formatted_value].
  set (h := total_seconds / 3600) in *.
  set (r := total_seconds mod 3600) in *.
  set (m := r / 60) in *. set (s := r mod 60) in *.
  repeat split; try lia.
  destruct (Z.gtb_spec h 0), (Z.leb_spec 3600 total_seconds);
    try reflexivity; lia.
Qed.

Lemma thousands_separators_sit_every_three_digits_witness :
  0 <= 1234567 /\
  without_commas (format_thousands 1234567) = "1234567" /\
  (nth 3 (rev (list_ascii_of_string (format_thousands 1234567))) " "%char = ","%char
   <-> (3 mod 4 = 3)%nat).
Proof.
  destruct (thousands_separators_sit_every_three_digits 1234567) as [Hstrip Hplaces].
  split; [lia|]. split; [exact Hstrip|].
  apply Hplaces; [lia | vm_compute; lia].
Defined.

End ModelsFacts.

(** ** More on the service *)

Module ServiceFacts.

Import Models Service ServiceProps.

(** *** The sliding window of the limiter *)

Local Abbreviation after c := (fun x : Q => Cache.Qgt_bool x c).

Lemma filter_after_after c c' l :
  (c <= c')%Q ->
  List.filter (after c') (List.filter (after c) l) = List.filter (after c') l.
Proof.
  intros Hc. induction l as [|x l IH]; [reflexivity|].
  cbn [List.filter].
  destruct (Cache.Qgt_bool x c) eqn:E1; cbn [List.filter];
    destruct (Cache.Qgt_bool x c') eqn:E2; try (now rewrite IH).
  apply CacheProps.Qgt_bool_true in E2. apply CacheProps.Qgt_bool_false in E1. lra.
Qed.

Lemma filter_after_idem c l :
  List.filter (after c) (List.filter (after c) l) = List.filter (after c) l.
Proof. apply filter_after_after. lra. Qed.

(** [_check_rate_limit] in one equation. *)
Lemma check_rate_limit_eq user_id operation_type now s :
  let key := limiter_key user_id operation_type in
  let kept :=
    List.filter (after (now - inject_Z (RATE_LIMIT_WINDOW (config s))))
      (default [] (_rate_limit_tracker s !! key)) in
  _check_rate_limit user_id operation_type now s =
  if Z.of_nat (length kept) >=? RATE_LIMIT_MESSAGES (config s)
  then (Ok false, with_tracker (<[key := kept]> (_rate_limit_tracker s)) s)
  else (Ok true, with_tracker (<[key := kept ++ [now]]> (_rate_limit_tracker s)) s).
Proof.
  cbv zeta. unfold _check_rate_limit, bind, gets, modify, ret, limiter_key.
  match goal with |- context [if ?c then _ else _] => destruct c end; reflexivity.
Qed.

Lemma in_window_after window t a :
  in_window window t a = true -> Cache.Qgt_bool a (t - inject_Z window) = true.
Proof. unfold in_window. now intros [H _]%andb_prop. Qed.

(** The calls of a window are among those after any earlier cutoff. *)
Lemma window_within_after window t c l :
  (c <= t - inject_Z window)%Q ->
  (length (List.filter (in_window window t) l)
   <= length (List.filter (after c) l))%nat.
Proof.
  intros Hc. induction l as [|x l IH]; [simpl; lia|].
  cbn [List.filter].
  destruct (in_window window t x) eqn:E1.
  - apply in_window_after, CacheProps.Qgt_bool_true in E1.
    assert (E2 : Cache.Qgt_bool x c = true) by (apply CacheProps.Qgt_bool_true; lra).
    rewrite E2. simpl. lia.
  - destruct (Cache.Qgt_bool x c); simpl; lia.
Qed.

Lemma filter_after_advance (W : Z) t now (A cur : list Q) :
  (t <= now)%Q ->
  List.filter (after (t - inject_Z W)) A = List.filter (after (t - inject_Z W)) cur ->
  List.filter (after (now - inject_Z W)) A = List.filter (after (now - inject_Z W)) cur.
Proof.
  intros Ht H.
  rewrite <- (filter_after_after (t - inject_Z W) (now - inject_Z W) A) by lra.
  rewrite <- (filter_after_after (t - inject_Z W) (now - inject_Z W) cur) by lra.
  now rewrite H.
Qed.

(** The invariant behind the window: what the tracker holds under [key]
    and the calls let through so far agree on everything recent enough to
    matter. *)
Lemma allowed_calls_window key W L : forall calls s t A,
  RATE_LIMIT_WINDOW (config s) = W ->
  RATE_LIMIT_MESSAGES (config s) = L ->
  Sorted Qle (t :: map snd calls) ->
  List.filter (after (t - inject_Z W)) A
  = List.filter (after (t - inject_Z W)) (default [] (_rate_limit_tracker s !! key)) ->
  (forall t', Z.of_nat (length (List.filter (in_window W t') A)) <= Z.max 0 L) ->
  forall t',
    Z.of_nat (length (List.filter (in_window W t') (A ++ allowed_calls key calls s)))
    <= Z.max 0 L.
Proof.
  induction calls as [|[[user_id operation_type] now] rest IH];
    intros s t A HW HL Hsorted Hinv Hwin t'.
  - cbn [allowed_calls]. rewrite app_nil_r. apply Hwin.
  - cbn [map snd] in Hsorted. apply Sorted_inv in Hsorted as [Hsorted Hhd].
    apply HdRel_inv in Hhd.
    pose proof (filter_after_advance W t now A _ Hhd Hinv) as Hnow.
    cbn [allowed_calls]. rewrite check_rate_limit_eq. cbv zeta. rewrite HW, HL.
    set (key' := limiter_key user_id operation_type).
    set (kept := List.filter (after (now - inject_Z W))
                   (default [] (_rate_limit_tracker s !! key'))).
    destruct (Z.of_nat (length kept) >=? L) eqn:Efull.
    + apply (IH _ now A); try assumption.
      cbn [_rate_limit_tracker with_tracker].
      destruct (decide (key' = key)) as [Heq|Hne].
      * rewrite Heq, lookup_insert_eq. cbn [default from_option id].
        subst kept. rewrite Heq, filter_after_idem. exact Hnow.
      * rewrite lookup_insert_ne by exact Hne. exact Hnow.
    + case_bool_decide as Hkey.
      * change (now :: allowed_calls key rest ?s')
          with ([now] ++ allowed_calls key rest s').
        rewrite app_assoc. apply (IH _ now (A ++ [now])); try assumption.
        -- cbn [_rate_limit_tracker with_tracker].
           rewrite Hkey, lookup_insert_eq. cbn [default from_option id].
           rewrite !List.filter_app. subst kept. rewrite Hkey, filter_after_idem.
           now rewrite Hnow.
        -- intros t2. rewrite List.filter_app, length_app.
           cbn [List.filter].
           destruct (in_window W t2 now) eqn:Ein; [|specialize (Hwin t2); simpl; lia].
           assert (Hle : (now - inject_Z W <= t2 - inject_Z W)%Q).
           { unfold in_window in Ein. apply andb_prop in Ein as [_ Ein].
             apply Qle_bool_iff in Ein. lra. }
           pose proof (window_within_after W t2 _ A Hle) as Hcount.
           rewrite Hnow in Hcount. subst kept. rewrite Hkey in Efull.
           rewrite Z.geb_leb in Efull. apply Z.leb_gt in Efull. simpl. lia.
      * apply (IH _ now A); try assumption.
        cbn [_rate_limit_tracker with_tracker].
        rewrite lookup_insert_ne by exact Hkey. exact Hnow.
Qed.

(** X21.  The limiter of the service keeps its promise on every window:
    when the clock does not run backwards and a key has nothing filed yet,
    then whatever calls follow, for this key and for others, the calls let
    through under the key within any [RATE_LIMIT_WINDOW] seconds are at
    most [RATE_LIMIT_MESSAGES] (none at all when that is not positive). *)
Theorem rate_limit_bounds_every_window s calls user_id operation_type t :
  Sorted Qle (map snd calls) ->
  _rate_limit_tracker s !! limiter_key user_id operation_type = None ->
  Z.of_nat
    (length
       (List.filter (in_window (RATE_LIMIT_WINDOW (config s)) t)
          (allowed_calls (limiter_key user_id operation_type) calls s)))
  <= Z.max 0 (RATE_LIMIT_MESSAGES (config s)).
Proof.
  intros Hsorted Hnew.
  destruct calls as [|c rest]; [simpl; lia|].
  change (allowed_calls (limiter_key user_id operation_type) (c :: rest) s)
    with ([] ++ allowed_calls (limiter_key user_id operation_type) (c :: rest) s).
  apply (allowed_calls_window _ _ _ (c :: rest) s (snd c) []); try reflexivity.
  - constructor; [exact Hsorted|]. cbn [map]. constructor. lra.
  - rewrite Hnew. reflexivity.
  - intros t'. simpl. lia.
Qed.

(** *** The periodic cleanup *)

Lemma prune_keeps_recent cutoff c (key : string) :
  forall (ks : list string) (t : gmap string (list Q)),
  (cutoff <= c)%Q ->
  List.filter (after c)
    (default []
       (fold_left
          (fun (t : gmap string (list Q)) (key : string) =>
             match List.filter (after cutoff) (default [] (t !! key)) with
             | [] => delete key t
             | kept => <[key := kept]> t
             end)
          ks t !! key))
  = List.filter (after c) (default [] (t !! key)).
Proof.
  induction ks as [|k ks IH]; intros t Hc; [reflexivity|].
  cbn [fold_left]. rewrite IH by assumption.
  destruct (List.filter (after cutoff) (default [] (t !! k))) as [|x kept] eqn:E.
  - destruct (decide (k = key)) as [->|Hne].
    + rewrite lookup_delete_eq. cbn [default from_option id].
      rewrite <- (filter_after_after cutoff c (default [] (t !! key))) by assumption.
      now rewrite E.
    + now rewrite lookup_delete_ne.
  - destruct (decide (k = key)) as [->|Hne].
    + rewrite lookup_insert_eq. cbn [default from_option id].
      rewrite <- (filter_after_after cutoff c (default [] (t !! key))) by assumption.
      now rewrite E.
    + now rewrite lookup_insert_ne.
Qed.

Lemma cleanup_task_tracker auto_cleanup tc s :
  let s1 := snd (cleanup_task auto_cleanup tc s) in
  config s1 = config s /\
  (_rate_limit_tracker s1 = _rate_limit_tracker s \/
   _rate_limit_tracker s1 =
   prune_tracker (tc - inject_Z (RATE_LIMIT_WINDOW (config s) * 2))
     (_rate_limit_tracker s)).
Proof.
  cbv zeta. unfold cleanup_task, try_except, bind, on_db, gets, modify, ret.
  destruct auto_cleanup; [|split; [reflexivity | now left]].
  destruct (Db.cleanup_old_data (int_of_time tc) (db_manager s)) as [[[]|e] m'];
    cbn; split; auto.
Qed.

(** X22.  The cleanup task prunes the tracker without changing what the
    limiter answers: when the window is not negative, a rate-limit check
    made at or after the time of the cleanup gives the same answer, and
    files the same times under its key, as it would have without the
    cleanup. *)
Theorem cleanup_is_invisible_to_the_limiter auto_cleanup tc s user_id operation_type now :
  0 <= RATE_LIMIT_WINDOW (config s) ->
  (tc <= now)%Q ->
  let s1 := snd (cleanup_task auto_cleanup tc s) in
  fst (_check_rate_limit user_id operation_type now s1)
  = fst (_check_rate_limit user_id operation_type now s) /\
  _rate_limit_tracker (snd (_check_rate_limit user_id operation_type now s1))
    !! limiter_key user_id operation_type
  = _rate_limit_tracker (snd (_check_rate_limit user_id operation_type now s))
    !! limiter_key user_id operation_type.
Proof.
  intros HW Htc s1.
  destruct (cleanup_task_tracker auto_cleanup tc s) as [Hcfg Htr]. fold s1 in Hcfg, Htr.
  rewrite !check_rate_limit_eq. cbv zeta. rewrite Hcfg.
  set (W := RATE_LIMIT_WINDOW (config s)) in *.
  set (key := limiter_key user_id operation_type).
  assert (Hkept :
    List.filter (after (now - inject_Z W)) (default [] (_rate_limit_tracker s1 !! key))
    = List.filter (after (now - inject_Z W)) (default [] (_rate_limit_tracker s !! key))).
  { destruct Htr as [->| ->]; [reflexivity|].
    unfold prune_tracker. apply prune_keeps_recent.
    rewrite inject_Z_mult. rewrite Zle_Qle in HW.
    change (inject_Z 0) with 0%Q in HW. change (inject_Z 2) with 2%Q. lra. }
  rewrite Hkept.
  match goal with |- context [if ?c then _ else _] => destruct c end;
    cbn [fst snd _rate_limit_tracker with_tracker];
    now rewrite !lookup_insert_eq.
Qed.

(** *** Voice updates and the cached leaderboard *)

Lemma voice_key_not_invalidated user_id guild_id guild_id' limit :
  ~ In (leaderboard_cache_key "voice" guild_id' limit)
       (voice_cache_keys user_id guild_id).
Proof.
  unfold leaderboard_cache_key, voice_cache_keys.
  set (who := match Db.guild_given guild_id' with
              | Some g => str_of_int g
              | None => "global"
              end).
  change ("voice" +:+ "_leaderboard_" +:+ who +:+ "_" +:+ str_of_int limit)
    with ("voice_leaderboard_" +:+ (who +:+ "_" +:+ str_of_int limit)).
  assert (Hhas : contains_char "_" (who +:+ "_" +:+ str_of_int limit) = true).
  { rewrite !contains_char_app. simpl. apply orb_true_r. }
  intros [H|[H|[H|[]]]].
  - apply append_inj_l in H. rewrite <- H, str_of_int_no_underscore in Hhas.
    discriminate.
  - change "voice_leaderboard_global" with ("voice_leaderboard_" +:+ "global") in H.
    apply append_inj_l in H. rewrite <- H in Hhas. discriminate.
  - discriminate.
Qed.

Lemma keeps_handle_voice_state_update key enabled user_id guild_id before after now :
  ~ In key (voice_cache_keys user_id guild_id) ->
  keeps_cached_entry key
    (handle_voice_state_update enabled user_id guild_id before after now).
Proof.
  intros Hnotin. unfold handle_voice_state_update.
  apply keeps_try_except; [|intros; apply keeps_ret].
  destruct (negb enabled); [apply keeps_ret|].
  apply keeps_bind; [apply keeps_check_rate_limit|]. intros allowed.
  destruct (negb allowed); [apply keeps_ret|].
  apply keeps_bind.
  { destruct before as [b|], after as [a|];
      try apply keeps_on_db; try apply keeps_ret.
    case_bool_decide; [|apply keeps_ret].
    apply keeps_bind; [apply keeps_on_db | intros; apply keeps_on_db]. }
  intros _. apply keeps_bind; [apply keeps_cache_user_if_needed|]. intros _.
  apply keeps_bind; [now apply keeps_delete_keys|]. intros _.
  now apply keeps_modify.
Qed.

(** X23.  A voice update never invalidates a cached voice leaderboard: for
    every guild and limit, the key under which [get_voice_leaderboard]
    caches its result is none of the keys [handle_voice_state_update]
    deletes; the entry under that key is the same after the update as
    before, and a [get] of the key answers what it answered before. *)
Theorem voice_update_keeps_cached_leaderboard
    (s : LeaderboardService) (enabled : bool) (user_id guild_id : Z)
    (before after : option Z) (now : Q) (guild_id' : option Z) (limit : Z) (t : Q) :
  let key := leaderboard_cache_key "voice" guild_id' limit in
  let s' := snd (handle_voice_state_update enabled user_id guild_id before after now s) in
  ~ In key (voice_cache_keys user_id guild_id) /\
  cached_entry key s' = cached_entry key s /\
  fst (Cache.get t key (cache_service s')) = fst (Cache.get t key (cache_service s)).
Proof.
  intros key s'.
  pose proof (voice_key_not_invalidated user_id guild_id guild_id' limit) as Hkey.
  fold key in Hkey.
  pose proof (keeps_handle_voice_state_update key enabled user_id guild_id
                before after now Hkey s) as Hkeep.
  fold s' in Hkeep. split; [exact Hkey|]. split; [exact Hkeep|].
  unfold cached_entry in Hkeep. unfold Cache.get. rewrite Hkeep.
  destruct (Cache.od_get key (Cache._cache (cache_service s))) as [entry|];
    [|reflexivity].
  now destruct (Cache.is_expired t entry).
Qed.

(** *** What tracking a message does to the counters *)

Lemma counted_same_counters user guild (m m' : Db.DatabaseManager) :
  Db.messages (Db.db m') = Db.messages (Db.db m) ->
  Db._batch_queue m' = Db._batch_queue m ->
  Db.counted user guild m' = Db.counted user guild m.
Proof.
  intros Hm Hq. unfold Db.counted, Db.stored_count. now rewrite Hm, Hq.
Qed.

Lemma get_cached_user_counters user_id m :
  Db.messages (Db.db (snd (Db.get_cached_user user_id m))) = Db.messages (Db.db m) /\
  Db._batch_queue (snd (Db.get_cached_user user_id m)) = Db._batch_queue m.
Proof.
  unfold Db.get_cached_user, Db.execute_query, Db.next_fault, bind, gets, modify,
    raise, ret.
  destruct (Db.faults m) as [|[] fs]; cbn; try (split; reflexivity);
    destruct (Db.user_cache (Db.db m) !! user_id); cbn; split; reflexivity.
Qed.

Lemma cache_user_counters user_id username discriminator now m :
  Db.messages (Db.db (snd (Db.cache_user user_id username discriminator now m)))
  = Db.messages (Db.db m) /\
  Db._batch_queue (snd (Db.cache_user user_id username discriminator now m))
  = Db._batch_queue m.
Proof.
  unfold Db.cache_user, Db.execute_query, Db.next_fault, bind, gets, modify,
    raise, ret.
  destruct (Db.faults m) as [|[] fs]; cbn; split; reflexivity.
Qed.

(** [_cache_user_if_needed] returns, and touches the manager only, where
    it leaves the message counters and the queue alone. *)
Lemma cache_user_if_needed_counters user_id now s :
  exists m',
    _cache_user_if_needed user_id now s = (Ok tt, with_db_manager m' s) /\
    Db.messages (Db.db m') = Db.messages (Db.db (db_manager s)) /\
    Db._batch_queue m' = Db._batch_queue (db_manager s).
Proof.
  unfold _cache_user_if_needed, try_except, bind, on_db, gets, ret.
  pose proof (get_cached_user_counters user_id (db_manager s)) as [Hm Hq].
  destruct (Db.get_cached_user user_id (db_manager s)) as [[cached|e] m1];
    cbn [snd] in Hm, Hq; [|now exists m1].
  cbn [bot with_db_manager].
  destruct cached as [c|], (bot s) as [b|]; try (now exists m1).
  destruct (get_user b user_id) as [user|]; [|now exists m1].
  cbn [db_manager with_db_manager].
  match goal with |- context [Db.cache_user ?u ?n ?d ?t m1] =>
    pose proof (cache_user_counters u n d t m1) as [Hm2 Hq2];
    destruct (Db.cache_user u n d t m1) as [[[]|e] m2]
  end; cbn [snd] in Hm2, Hq2; exists m2; (split; [reflexivity|]);
    split; congruence.
Qed.

Lemma delete_keys_cache_only ks : forall s,
  exists c', delete_keys ks s = (Ok tt, with_cache_service c' s).
Proof.
  induction ks as [|k ks IH]; intros s; cbn [delete_keys].
  - exists (cache_service s). now destruct s.
  - unfold bind, on_cache.
    destruct (Cache.delete k (cache_service s)) as [a c1].
    destruct (IH (with_cache_service c1 s)) as [c2 ->].
    now exists c2.
Qed.

Lemma counted_after_increment user guild user_id guild_id channel_id now m :
  Db.counted user guild
    (snd (Db.increment_message_count user_id guild_id channel_id now m))
  = Db.counted user guild m
    + (if (user_id =? user) && (guild_id =? guild) then 1 else 0).
Proof.
  unfold Db.increment_message_count, Db.queue_batch_operation, modify, Db.counted.
  cbn [snd Db.db Db._batch_queue Db.with_queue].
  rewrite DbProps.pending_app.
  change [Db.mkBatchOperation Db.SQL_increment_message
            [Db.increment_params user_id guild_id channel_id now] "update"]
    with (map Db.inc_op [(user_id, guild_id, channel_id, now)]).
  rewrite DbProps.pending_inc_ops. cbn [List.filter Db.is_inc_tuple_of].
  destruct ((user_id =? user) && (guild_id =? guild)); simpl length; lia.
Qed.

Lemma track_message_result s user_id guild_id channel_id now user guild :
  let counts :=
    ENABLE_MESSAGE_TRACKING (config s)
    && match fst (_check_rate_limit user_id "message" now s) with
       | Ok allowed => allowed
       | Raise _ => false
       end in
  exists s',
    track_message user_id guild_id channel_id now s = (Ok tt, s') /\
    Db.counted user guild (db_manager s')
    = Db.counted user guild (db_manager s)
      + (if counts && (user_id =? user) && (guild_id =? guild) then 1 else 0) /\
    messages_tracked (_metrics s')
    = (messages_tracked (_metrics s) + (if counts then 1 else 0))%nat.
Proof.
  cbv zeta. unfold track_message, try_except, bind, gets.
  destruct (ENABLE_MESSAGE_TRACKING (config s)) eqn:Eenabled;
    cbn [negb andb fst snd];
    [|exists s; unfold ret; repeat split; lia].
  rewrite check_rate_limit_eq. cbv zeta.
  match goal with |- context [if ?c then _ else _] => destruct c end;
    cbn [negb andb fst snd];
    [eexists; unfold ret; split; [reflexivity|]; cbn; split; lia|].
  set (s1 := with_tracker _ s).
  unfold on_db at 1.
  pose proof (counted_after_increment user guild user_id guild_id channel_id
                (int_of_time now) (db_manager s1)) as Hinc.
  destruct (Db.increment_message_count user_id guild_id channel_id
              (int_of_time now) (db_manager s1)) as [[[]|e] m2] eqn:Einc;
    [|discriminate Einc].
  cbn [snd] in Hinc. cbn [bot with_db_manager].
  set (s2 := with_db_manager m2 s1).
  assert (Hcache : exists m3,
    (match bot s1 with
     | Some _ => _cache_user_if_needed user_id now
     | None => ret tt
     end) s2 = (Ok tt, with_db_manager m3 s2) /\
    Db.messages (Db.db m3) = Db.messages (Db.db m2) /\
    Db._batch_queue m3 = Db._batch_queue m2).
  { destruct (bot s1).
    - apply cache_user_if_needed_counters.
    - exists m2. now split. }
  destruct Hcache as (m3 & -> & Hm & Hq).
  destruct (delete_keys_cache_only (track_message_cache_keys user_id guild_id)
              (with_db_manager m3 s2)) as [c' ->].
  unfold modify. eexists. split; [reflexivity|].
  cbn [fst snd db_manager with_cache_service with_db_manager
    with_metrics _metrics count_tracked messages_tracked].
  split; [|subst s2 s1; cbn; lia].
  rewrite (counted_same_counters user guild m2 m3 Hm Hq), Hinc.
  subst s1. cbn [db_manager with_tracker]. reflexivity.
Qed.

(** X24.  [track_message] always returns, and it counts a message once or
    not at all: the messages stored or queued for the author in the guild
    go up by one when tracking is enabled and the limiter lets the call
    through, whatever the directory or the database do meanwhile; they stay
    as they are otherwise, and so do those of every other user and guild.
    [messages_tracked] moves with them. *)
Theorem track_message_counts_once s user_id guild_id channel_id now user guild :
  let s' := snd (track_message user_id guild_id channel_id now s) in
  let counts :=
    ENABLE_MESSAGE_TRACKING (config s)
    && match fst (_check_rate_limit user_id "message" now s) with
       | Ok allowed => allowed
       | Raise _ => false
       end in
  fst (track_message user_id guild_id channel_id now s) = Ok tt /\
  Db.counted user guild (db_manager s')
  = Db.counted user guild (db_manager s)
    + (if counts && (user_id =? user) && (guild_id =? guild) then 1 else 0) /\
  messages_tracked (_metrics s')
  = (messages_tracked (_metrics s) + (if counts then 1 else 0))%nat.
Proof.
  cbv zeta.
  destruct (track_message_result s user_id guild_id channel_id now user guild)
    as (s' & -> & Hcount & Hmetric).
  cbn [fst snd]. auto.
Qed.

(** *** Building the entries *)

Section BuildEntries.

Variable create : Z -> Z -> string -> Z -> LeaderboardEntry.
Hypothesis create_position : forall p u n c, position (create p u n c) = p.
Hypothesis create_user : forall p u n c, entry_user_id (create p u n c) = u.
Hypothesis create_value : forall p u n c, value (create p u n c) = c.

Lemma build_entries_rows now : forall pairs pos s,
  exists entries s',
    build_entries create pos (map Db.pair_row pairs) now s = (Ok entries, s') /\
    map entry_user_id entries = map fst pairs /\
    map value entries = map snd pairs /\
    map position entries
    = map (fun i => pos + Z.of_nat i) (seq 0 (length pairs)).
Proof.
  induction pairs as [|[u c] pairs IH]; intros pos s.
  - exists [], s. repeat split.
  - cbn [map Db.pair_row fst snd build_entries]. unfold bind at 1.
    destruct (get_username_returns s u now) as [name Hname].
    destruct (_get_username u now s) as [[n|e] s1]; [|discriminate Hname].
    unfold bind at 1.
    destruct (IH (pos + 1) s1) as (entries & s' & -> & Hu & Hv & Hp).
    exists (create pos u n c :: entries), s'. split; [reflexivity|].
    cbn [map length seq]. rewrite create_user, create_value, create_position.
    rewrite Hu, Hv, Hp, <- seq_shift, map_map.
    repeat split; f_equal; [lia|]. apply map_ext. intros i. lia.
Qed.

End BuildEntries.

(** X25.  The loop that turns the rows of a leaderboard query into entries
    returns whatever the directory does, with one entry per row and in the
    order of the rows: the entries carry the user ids and the values of the
    rows and are numbered [position], [position + 1], ...; this holds for
    message entries and for voice entries. *)
Theorem entries_follow_the_rows pairs pos now s :
  (exists entries s',
     build_entries create_message_entry pos (map Db.pair_row pairs) now s
     = (Ok entries, s') /\
     map entry_user_id entries = map fst pairs /\
     map value entries = map snd pairs /\
     map position entries = map (fun i => pos + Z.of_nat i) (seq 0 (length pairs))) /\
  (exists entries s',
     build_entries create_voice_entry pos (map Db.pair_row pairs) now s
     = (Ok entries, s') /\
     map entry_user_id entries = map fst pairs /\
     map value entries = map snd pairs /\
     map position entries = map (fun i => pos + Z.of_nat i) (seq 0 (length pairs))).
Proof.
  split; apply build_entries_rows; reflexivity.
Qed.

(** *** A read that misses the cache *)

(** Methods that change nothing of the service but its database manager. *)
Local Abbreviation db_only c :=
  (forall s : LeaderboardService, exists m', snd (c s) = with_db_manager m' s).
















(** *** The theorems at work *)

Lemma rate_limit_bounds_every_window_witness :
  Sorted Qle (map snd [(42, "message", 1%Q); (7, "voice", 2%Q); (42, "message", 2%Q)]) /\
  _rate_limit_tracker Samples.never_reset !! limiter_key 42 "message" = None /\
  Z.of_nat
    (length
       (List.filter (in_window (RATE_LIMIT_WINDOW (config Samples.never_reset)) 2)
          (allowed_calls (limiter_key 42 "message")
             [(42, "message", 1%Q); (7, "voice", 2%Q); (42, "message", 2%Q)]
             Samples.never_reset)))
  <= Z.max 0 (RATE_LIMIT_MESSAGES (config Samples.never_reset)).
Proof.
  assert (Hsorted :
    Sorted Qle (map snd [(42, "message", 1%Q); (7, "voice", 2%Q); (42, "message", 2%Q)])).
  { repeat constructor; unfold Qle; simpl; lia. }
  assert (Hnew : _rate_limit_tracker Samples.never_reset !! limiter_key 42 "message"
                 = None) by apply lookup_empty.
  split; [exact Hsorted|]. split; [exact Hnew|].
  exact (rate_limit_bounds_every_window Samples.never_reset
           [(42, "message", 1%Q); (7, "voice", 2%Q); (42, "message", 2%Q)]
           42 "message" 2%Q Hsorted Hnew).
Defined.

Lemma cleanup_is_invisible_to_the_limiter_witness :
  0 <= RATE_LIMIT_WINDOW (config Samples.never_reset) /\
  (1 <= 2)%Q /\
  fst (_check_rate_limit 42 "message" 2 (snd (cleanup_task true 1 Samples.never_reset)))
  = fst (_check_rate_limit 42 "message" 2 Samples.never_reset).
Proof.
  assert (HW : 0 <= RATE_LIMIT_WINDOW (config Samples.never_reset)) by (simpl; lia).
  assert (Ht : (1 <= 2)%Q) by (unfold Qle; simpl; lia).
  split; [exact HW|]. split; [exact Ht|].
  exact (proj1 (cleanup_is_invisible_to_the_limiter true 1%Q Samples.never_reset
                  42 "message" 2%Q HW Ht)).
Defined.


End ServiceFacts.

(** ** The rate limiter of the decorators *)

Module DecoratorsFacts.

Import Decorators.

Local Abbreviation after c := (fun x : Q => Cache.Qgt_bool x c).

(** *** The deque *)

Lemma drop_old_sorted c l :
  StronglySorted Qle l -> drop_old c l = List.filter (after c) l.
Proof.
  induction 1 as [|x l Hs IH Hx]; [reflexivity|].
  cbn [drop_old List.filter]. unfold Cache.Qgt_bool at 1.
  destruct (Qle_bool x c) eqn:E; cbn [negb]; [exact IH|].
  f_equal. symmetry. apply ModelsFacts.filter_all_kept.
  rewrite forallb_forall. intros y Hy.
  rewrite List.Forall_forall in Hx. specialize (Hx y Hy).
  apply CacheProps.Qgt_bool_true.
  assert (Hc : (c < x)%Q).
  { apply Qnot_le_lt. intros Hle. apply Qle_bool_iff in Hle. congruence. }
  lra.
Qed.

Lemma drop_old_keeps_sorted c l :
  StronglySorted Qle l -> StronglySorted Qle (drop_old c l).
Proof.
  induction 1 as [|x l Hs IH Hx]; [constructor|].
  cbn [drop_old]. destruct (Qle_bool x c); [exact IH | now constructor].
Qed.

Lemma drop_old_keeps_bound (P : Q -> Prop) c l :
  List.Forall P l -> List.Forall P (drop_old c l).
Proof.
  induction 1 as [|x l Hx Hl IH]; [constructor|].
  cbn [drop_old]. destruct (Qle_bool x c); [exact IH | now constructor].
Qed.

Lemma sorted_append now l :
  StronglySorted Qle l ->
  List.Forall (fun x => (x <= now)%Q) l ->
  StronglySorted Qle (l ++ [now]).
Proof.
  induction 1 as [|x l Hs IH Hx]; intros Hb.
  - repeat constructor.
  - apply List.Forall_cons_iff in Hb as [Hxn Hb]. cbn [app]. constructor; [auto|].
    apply List.Forall_app. split; [exact Hx | now constructor].
Qed.

(** The wrapper of [rate_limit] in one equation. *)
Lemma rate_limit_eq key now r :
  let calls1 := drop_old (now - inject_Z (window r)) (default [] (calls r !! key)) in
  let allowed := Z.of_nat (length calls1) <? max_calls r in
  exists r',
    rate_limit tt key now r = (if allowed then Some tt else None, r') /\
    window r' = window r /\
    max_calls r' = max_calls r /\
    default [] (calls r' !! key) = (if allowed then calls1 ++ [now] else calls1) /\
    forall key', key' <> key -> calls r' !! key' = calls r !! key'.
Proof.
  cbv zeta. unfold rate_limit, is_allowed.
  set (calls1 := drop_old _ _).
  destruct (Z.of_nat (length calls1) <? max_calls r); cbn [negb].
  - eexists. split; [reflexivity|]. cbn [window max_calls calls with_calls].
    rewrite lookup_insert_eq. repeat split; try reflexivity.
    intros key' Hne. now rewrite lookup_insert_ne.
  - unfold time_until_reset. cbn [calls with_calls window max_calls].
    rewrite lookup_insert_eq. cbn [default from_option id].
    destruct calls1 as [|oldest rest]; eexists; (split; [reflexivity|]);
      cbn [window max_calls calls with_calls]; rewrite ?lookup_insert_eq;
      repeat split; try reflexivity;
      intros key' Hne; now rewrite ?lookup_insert_ne by congruence.
Qed.

(** *** The window *)

Lemma calls_let_through_window key W L : forall attempts r t A,
  window r = W ->
  max_calls r = L ->
  Sorted Qle (t :: map snd attempts) ->
  StronglySorted Qle (default [] (calls r !! key)) ->
  List.Forall (fun x => (x <= t)%Q) (default [] (calls r !! key)) ->
  List.filter (after (t - inject_Z W)) A
  = List.filter (after (t - inject_Z W)) (default [] (calls r !! key)) ->
  (forall t', Z.of_nat (length (List.filter (Service.in_window W t') A)) <= Z.max 0 L) ->
  forall t',
    Z.of_nat (length (List.filter (Service.in_window W t')
                        (A ++ calls_let_through key attempts r)))
    <= Z.max 0 L.
Proof.
  induction attempts as [|[k now] rest IH];
    intros r t A HW HL Hsorted Hcur Hbound Hinv Hwin t'.
  - cbn [calls_let_through]. rewrite app_nil_r. apply Hwin.
  - cbn [map snd] in Hsorted. apply Sorted_inv in Hsorted as [Hsorted Hhd].
    apply HdRel_inv in Hhd.
    pose proof (ServiceFacts.filter_after_advance W t now A _ Hhd Hinv) as Hnow.
    assert (Hbound' : List.Forall (fun x => (x <= now)%Q) (default [] (calls r !! key))).
    { eapply List.Forall_impl; [|exact Hbound]. cbv beta. intros x Hx. lra. }
    cbn [calls_let_through].
    destruct (rate_limit_eq k now r) as (r' & -> & HW' & HL' & Hk & Hother).
    rewrite HW, HL in *.
    destruct (decide (k = key)) as [->|Hne].
    + rewrite (drop_old_sorted _ _ Hcur) in Hk.
      rewrite (drop_old_sorted _ _ Hcur).
      set (kept := List.filter (after (now - inject_Z W)) (default [] (calls r !! key)))
        in *.
      assert (Hkept_sorted : StronglySorted Qle kept).
      { subst kept. rewrite <- (drop_old_sorted _ _ Hcur).
        now apply drop_old_keeps_sorted. }
      assert (Hkept_bound : List.Forall (fun x => (x <= now)%Q) kept).
      { subst kept. rewrite <- (drop_old_sorted _ _ Hcur).
        now apply drop_old_keeps_bound. }
      destruct (Z.of_nat (length kept) <? L) eqn:Eroom.
      * rewrite bool_decide_eq_true_2 by reflexivity.
        change (now :: calls_let_through key rest r')
          with ([now] ++ calls_let_through key rest r').
        rewrite app_assoc.
        apply (IH r' now (A ++ [now])); try assumption; rewrite ?Hk.
        -- now apply sorted_append.
        -- apply List.Forall_app. split; [exact Hkept_bound|].
           constructor; [lra | constructor].
        -- rewrite !List.filter_app. subst kept.
           rewrite ServiceFacts.filter_after_idem. now rewrite Hnow.
        -- intros t2. rewrite List.filter_app, length_app. cbn [List.filter].
           destruct (Service.in_window W t2 now) eqn:Ein;
             [|specialize (Hwin t2); simpl; lia].
           assert (Hle : (now - inject_Z W <= t2 - inject_Z W)%Q).
           { unfold Service.in_window in Ein. apply andb_prop in Ein as [_ Ein].
             apply Qle_bool_iff in Ein. lra. }
           pose proof (ServiceFacts.window_within_after W t2 _ A Hle) as Hcount.
           rewrite Hnow in Hcount. fold kept in Hcount.
           apply Z.ltb_lt in Eroom. simpl. lia.
      * apply (IH r' now A); try assumption; rewrite ?Hk; try assumption.
        subst kept. rewrite ServiceFacts.filter_after_idem. exact Hnow.
    + assert (Hsame : calls r' !! key = calls r !! key) by (apply Hother; congruence).
      assert (Hlater :
        Z.of_nat (length (List.filter (Service.in_window W t')
                            (A ++ calls_let_through key rest r'))) <= Z.max 0 L).
      { apply (IH r' now A); try assumption; rewrite ?Hsame; assumption. }
      destruct (Z.of_nat (length _) <? L); [|exact Hlater].
      rewrite bool_decide_eq_false_2 by exact Hne. exact Hlater.
Qed.

(** X27.  The [rate_limit] decorator keeps its promise on every window:
    when the clock does not run backwards and a key has no call on record
    yet, then whatever wrapped calls follow, under this key and under
    others, the calls under the key that reach the wrapped function within
    any [window] seconds are at most [max_calls] (none at all when that is
    not positive). *)
Theorem decorator_bounds_every_window r attempts key t :
  Sorted Qle (map snd attempts) ->
  calls r !! key = None ->
  Z.of_nat
    (length (List.filter (Service.in_window (window r) t)
               (calls_let_through key attempts r)))
  <= Z.max 0 (max_calls r).
Proof.
  intros Hsorted Hnew.
  destruct attempts as [|a rest]; [simpl; lia|].
  change (calls_let_through key (a :: rest) r)
    with ([] ++ calls_let_through key (a :: rest) r).
  apply (calls_let_through_window key _ _ (a :: rest) r (snd a) []);
    try reflexivity; rewrite ?Hnew; try constructor.
  - exact Hsorted.
  - cbn [map]. constructor. lra.
  - intros t'. simpl. lia.
Qed.

Lemma decorator_bounds_every_window_witness :
  Sorted Qle (map snd [("42", 1%Q); ("7", 2%Q); ("42", 2%Q); ("42", 3%Q)]) /\
  calls (mkRateLimiter 2 60 ∅) !! "42" = None /\
  Z.of_nat
    (length (List.filter (Service.in_window (window (mkRateLimiter 2 60 ∅)) 3)
               (calls_let_through "42"
                  [("42", 1%Q); ("7", 2%Q); ("42", 2%Q); ("42", 3%Q)]
                  (mkRateLimiter 2 60 ∅))))
  <= Z.max 0 (max_calls (mkRateLimiter 2 60 ∅)).
Proof.
  assert (Hsorted :
    Sorted Qle (map snd [("42", 1%Q); ("7", 2%Q); ("42", 2%Q); ("42", 3%Q)])).
  { repeat constructor; unfold Qle; simpl; lia. }
  assert (Hnew : calls (mkRateLimiter 2 60 ∅) !! "42" = None) by apply lookup_empty.
  split; [exact Hsorted|]. split; [exact Hnew|].
  exact (decorator_bounds_every_window (mkRateLimiter 2 60 ∅)
           [("42", 1%Q); ("7", 2%Q); ("42", 2%Q); ("42", 3%Q)] "42" 3%Q Hsorted Hnew).
Defined.

End DecoratorsFacts.
